(** * thmap: a trie-hash map (src/thmap.c), embedded and verified

    The C code is embedded shallowly.  Memory is a finite map from
    addresses to typed cells (an intermediate node, a leaf, a byte buffer
    or a fresh block); every C function is a function in a state and
    error monad over that memory, the state of the external allocator,
    the G/C list and a log of the calls that were made.  Integers are [Z]
    with the wrap-around of their C type written out ([uintptr_t] and
    [size_t] are 64-bit, [unsigned] and [uint32_t] 32-bit: LP64).

    The model is sequential: one thread runs one operation at a time.
    Fences are no-ops, a compare-and-swap succeeds, and spinning on a
    lock that is held never ends. *)

From Stdlib Require Import ZArith Lia List Bool.
From stdpp Require Import base tactics option numbers list gmap sets.

Local Open Scope Z_scope.

(** ** Constants and macros *)

Definition ROOT_BITS : Z := 6.
Definition ROOT_SIZE : Z := Z.shiftl 1 ROOT_BITS.
Definition ROOT_MASK : Z := ROOT_SIZE - 1.

Definition LEVEL_BITS : Z := 4.
Definition LEVEL_SIZE : Z := Z.shiftl 1 LEVEL_BITS.
Definition LEVEL_MASK : Z := LEVEL_SIZE - 1.

Definition HASHVAL_BITS : Z := 32.
Definition HASHVAL_SHIFT : Z := 5.
Definition HASHVAL_MASK : Z := HASHVAL_BITS - 1.

(** Values of type [unsigned] / [uint32_t], and of type [uintptr_t] /
    [size_t]. *)
Definition u32 (x : Z) : Z := x mod 2 ^ 32.
Definition uptr (x : Z) : Z := x mod 2 ^ 64.

Definition THMAP_LEAF_BIT : Z := 1.

Definition THMAP_ALIGNED_P (p : Z) : bool := Z.land p 3 =? 0.
Definition THMAP_ALIGN (p : Z) : Z := Z.land p (uptr (Z.lnot 3)).
Definition THMAP_INODE_P (p : Z) : bool := Z.land p THMAP_LEAF_BIT =? 0.

Definition NODE_LOCKED : Z := Z.shiftl 1 31.
Definition NODE_DELETED : Z := Z.shiftl 1 30.
Definition NODE_COUNT (s : Z) : Z := Z.land s 1073741823 (* 0x3fffffff *).

(** [x & ~NODE_LOCKED] and [x | y] on a 32-bit word. *)
Definition clear_locked (s : Z) : Z := Z.land s (u32 (Z.lnot NODE_LOCKED)).

(** Modelled from the spec: [roundup2] is a macro of utils.h, which is
    not among the sources.  The spec calls it [round_up(nbits,
    LEVEL_BITS)]: the least multiple of [m] (a power of two) that is not
    below [x], here in the arithmetic of [unsigned]. *)
Definition roundup2 (x m : Z) : Z := u32 (Z.land (u32 (x + m - 1)) (u32 (Z.lnot (m - 1)))).

(** ** Data *)

Record thmap_inode_t := mk_inode {
  state : Z;           (* uint32_t *)
  parent : Z;          (* thmap_ptr_t: offset of the parent *)
  slots : list Z       (* thmap_ptr_t slots[] *)
}.

Record thmap_leaf_t := mk_leaf {
  key : Z;             (* thmap_ptr_t *)
  len : Z;             (* size_t *)
  val : Z              (* void * *)
}.

Record thmap_query_t := mk_query {
  level : Z;           (* unsigned *)
  hashidx : Z;         (* int *)
  hashval : Z          (* uint64_t *)
}.

Definition THMAP_QUERY_INIT (l : Z) : thmap_query_t :=
  {| level := l; hashidx := -1; hashval := 0 |}.

Record thmap_gc_t := mk_gc {
  gc_self : Z;         (* where malloc put the record itself *)
  addr : Z;
  gc_len : Z
}.

(** Sizes and offsets of the structures (LP64). *)
Definition sizeof_leaf : Z := 24.
Definition sizeof_gc : Z := 24.
Definition sizeof_thmap : Z := 40.
Definition offsetof_slots (n : Z) : Z := 16 + 8 * n.
Definition THMAP_ROOT_LEN : Z := offsetof_slots ROOT_SIZE.
Definition THMAP_INODE_LEN : Z := offsetof_slots LEVEL_SIZE.

(** What an address holds.  [CRaw] is a block the allocator has handed
    out and nothing has been written to yet; [CBytes] is a key buffer. *)
Inductive cell :=
| CRaw
| CInode (n : thmap_inode_t)
| CLeaf (l : thmap_leaf_t)
| CBytes (bs : list Z).

(** The calls and stores that the proofs about order and accounting
    look at, in the order in which they happened. *)
Inductive event :=
| EvAlloc (len off : Z)          (* ops->alloc(len) returned off *)
| EvFree (off len : Z)           (* ops->free(off, len) *)
| EvLock (node : Z)              (* lock_node *)
| EvUnlock (node : Z)            (* unlock_node *)
| EvInsert (node slot child : Z) (* node_insert *)
| EvRemove (node slot : Z)       (* node_remove *)
| EvPublish (node slot child : Z)(* parent->slots[slot] = child, in thmap_put *)
| EvDeleted (node st : Z)        (* node->state |= NODE_DELETED; st is the state before *)
| EvStage (off len : Z).         (* stage_mem_gc *)

(** The result of running a C function: it returns, or it stops on a
    failed ASSERT or on undefined behaviour ([Fault]), or it does not
    return ([Diverge]: no fuel left, or spinning on a held lock). *)
Inductive result (S X : Type) :=
| Ok (x : X) (s : S)
| Fault
| Diverge.
Arguments Ok {S X} x s.
Arguments Fault {S X}.
Arguments Diverge {S X}.

Section Thmap.

(** The world outside: the state [A] of the allocators, the hash
    function, libc's [malloc] and [free], and the flag bit of thmap.h. *)
Context {A : Type}.
Variable murmurhash3 : list Z -> Z -> Z.
Variable malloc : Z -> A -> Z * A.
Variable c_free : Z -> A -> A.
Variable THMAP_NOCOPY : Z.

Record thmap_ops_t := mk_ops {
  alloc : Z -> A -> Z * A;
  free : Z -> Z -> A -> A
}.

Record thmap_t := mk_thmap {
  baseptr : Z;
  root : Z;            (* thmap_inode_t *: an address *)
  flags : Z;
  ops : thmap_ops_t;
  self : Z             (* where calloc put the structure itself *)
}.

(** The [gc_list] field of the map is the only one that changes after
    [thmap_create]; it is kept in the state. *)
Record st := mk_st {
  mem : gmap Z cell;
  ast : A;
  gc_list : list thmap_gc_t;
  log : list event
}.

Definition M (X : Type) : Type := st -> result st X.

#[global] Instance M_ret : MRet M := fun _ x s => Ok x s.
#[global] Instance M_bind : MBind M := fun _ _ f m s =>
  match m s with
  | Ok x s' => f x s'
  | Fault => Fault
  | Diverge => Diverge
  end.

Definition fault {X} : M X := fun _ => Fault.
Definition diverge {X} : M X := fun _ => Diverge.
Definition assert (b : bool) : M unit := if b then mret tt else fault.

Definition THMAP_GETPTR (th : thmap_t) (p : Z) : Z := uptr (baseptr th + p).
Definition THMAP_GETOFF (th : thmap_t) (p : Z) : Z := uptr (p - baseptr th).
Definition THMAP_NODE (th : thmap_t) (p : Z) : Z := THMAP_GETPTR th (THMAP_ALIGN p).

(** *** Memory and the allocator *)

Definition set_mem (f : gmap Z cell -> gmap Z cell) (s : st) : st :=
  {| mem := f (mem s); ast := ast s; gc_list := gc_list s; log := log s |}.
Definition set_ast (a : A) (s : st) : st :=
  {| mem := mem s; ast := a; gc_list := gc_list s; log := log s |}.
Definition set_gc (g : list thmap_gc_t) (s : st) : st :=
  {| mem := mem s; ast := ast s; gc_list := g; log := log s |}.

Definition emit (e : event) : M unit := fun s =>
  Ok tt {| mem := mem s; ast := ast s; gc_list := gc_list s; log := log s ++ [e] |}.

Definition load_inode (p : Z) : M thmap_inode_t := fun s =>
  match mem s !! p with
  | Some (CInode n) => Ok n s
  | _ => Fault
  end.

Definition store_inode (p : Z) (n : thmap_inode_t) : M unit := fun s =>
  match mem s !! p with
  | Some (CInode _) => Ok tt (set_mem <[p := CInode n]> s)
  | _ => Fault
  end.

Definition load_leaf (p : Z) : M thmap_leaf_t := fun s =>
  match mem s !! p with
  | Some (CLeaf l) => Ok l s
  | _ => Fault
  end.

(** Reading [n] bytes at [p]: the buffer there must have that many. *)
Definition load_bytes (p n : Z) : M (list Z) := fun s =>
  match mem s !! p with
  | Some (CBytes bs) =>
      if (0 <=? n) && (n <=? Z.of_nat (length bs)) then Ok (take (Z.to_nat n) bs) s else Fault
  | _ => Fault
  end.

(** The first write to a block: it needs the block, and gives it its
    type. *)
Definition init_cell (p : Z) (c : cell) : M unit := fun s =>
  match mem s !! p with
  | Some _ => Ok tt (set_mem <[p := c]> s)
  | None => Fault
  end.

Definition load_slot (p slot : Z) : M Z :=
  n ← load_inode p;
  match slots n !! Z.to_nat slot with
  | Some v => mret v
  | None => fault
  end.

Definition store_slot (p slot v : Z) : M unit :=
  n ← load_inode p;
  if (Z.to_nat slot <? length (slots n))%nat
  then store_inode p (mk_inode (state n) (parent n) (<[Z.to_nat slot := v]> (slots n)))
  else fault.

Definition store_state (p s : Z) : M unit :=
  n ← load_inode p;
  store_inode p (mk_inode s (parent n) (slots n)).

(** [thmap->ops->alloc(len)]: the block it returns is on the heap from
    then on, at [baseptr + off]. *)
Definition ops_alloc (th : thmap_t) (n : Z) : M Z := fun s =>
  let '(off, a) := alloc (ops th) n (ast s) in
  Ok off {| mem := if off =? 0 then mem s else <[THMAP_GETPTR th off := CRaw]> (mem s);
            ast := a; gc_list := gc_list s; log := log s ++ [EvAlloc n off] |}.

(** [thmap->ops->free(off, len)]: the block is gone; freeing what is not
    there is a fault. *)
Definition ops_free (th : thmap_t) (off n : Z) : M unit := fun s =>
  match mem s !! THMAP_GETPTR th off with
  | Some _ =>
      Ok tt {| mem := delete (THMAP_GETPTR th off) (mem s);
               ast := free (ops th) off n (ast s);
               gc_list := gc_list s; log := log s ++ [EvFree off n] |}
  | None => Fault
  end.

Definition sys_malloc (n : Z) : M Z := fun s =>
  let '(p, a) := malloc n (ast s) in Ok p (set_ast a s).
Definition sys_free (p : Z) : M unit := fun s =>
  Ok tt (set_ast (c_free p (ast s)) s).

Definition alloc_wrapper (n : Z) (a : A) : Z * A := malloc n a.
Definition free_wrapper (p n : Z) (a : A) : A := c_free p a.
Definition thmap_default_ops : thmap_ops_t :=
  {| alloc := alloc_wrapper; free := free_wrapper |}.

(** *** Node locking *)

Definition node_locked_p (n : thmap_inode_t) : bool :=
  negb (Z.land (state n) NODE_LOCKED =? 0).

Definition lock_node (p : Z) : M unit :=
  n ← load_inode p;
  if negb (Z.land (state n) NODE_LOCKED =? 0) then diverge
  else
    _ ← store_state p (Z.lor (state n) NODE_LOCKED);
    emit (EvLock p).

Definition unlock_node (p : Z) : M unit :=
  n ← load_inode p;
  let s := clear_locked (state n) in
  _ ← assert (node_locked_p n);
  _ ← store_state p s;
  emit (EvUnlock p).

(** *** Hash value and key operations *)

(** The hash function returns a 32-bit word. *)
Definition hash32 (kb : list Z) (i : Z) : Z := u32 (murmurhash3 kb i).

Definition hashval_getslot (q : thmap_query_t) (k n : Z) : M (Z * thmap_query_t) :=
  let lvl := level q in
  let nbits := u32 (ROOT_BITS + lvl * LEVEL_BITS) in
  let i := Z.shiftr nbits HASHVAL_SHIFT in
  q ← (if negb (hashidx q =? i)
       then kb ← load_bytes k n; mret (mk_query (level q) i (hash32 kb i))
       else mret q);
  if lvl =? 0 then mret (Z.land (hashval q) ROOT_MASK, q)
  else
    let nbits := Z.land (roundup2 nbits LEVEL_BITS) HASHVAL_MASK in
    mret (Z.land (Z.shiftr (hashval q) nbits) LEVEL_MASK, q).

Definition hashval_getleafslot (th : thmap_t) (leaf lvl : Z) : M Z :=
  let q := THMAP_QUERY_INIT lvl in
  l ← load_leaf leaf;
  let k := THMAP_GETPTR th (key l) in
  r ← hashval_getslot q k (len l);
  mret r.1.

Definition key_cmp_p (th : thmap_t) (leaf k n : Z) : M bool :=
  l ← load_leaf leaf;
  let leafkey := THMAP_GETPTR th (key l) in
  if n =? len l then
    a ← load_bytes k n;
    b ← load_bytes leafkey n;
    mret (bool_decide (a = b))
  else mret false.

(** *** Inter-node operations *)

Definition zero_inode (n : Z) : thmap_inode_t :=
  {| state := 0; parent := 0; slots := replicate (Z.to_nat n) 0 |}.

Definition node_create (th : thmap_t) (par : Z) : M Z :=
  let n := offsetof_slots LEVEL_SIZE in
  _ ← assert (negb (par =? 0));
  p ← ops_alloc th n;
  if p =? 0 then mret 0
  else
    let node := THMAP_GETPTR th p in
    _ ← assert (THMAP_ALIGNED_P node);
    _ ← init_cell node (CInode (zero_inode LEVEL_SIZE));
    _ ← store_state node NODE_LOCKED;
    nd ← load_inode node;
    _ ← store_inode node (mk_inode (state nd) (THMAP_GETOFF th par) (slots nd));
    mret node.

Definition node_insert (node slot child : Z) : M unit :=
  nd ← load_inode node;
  _ ← assert (node_locked_p nd);
  _ ← assert (Z.land (state nd) NODE_DELETED =? 0);
  v ← load_slot node slot;
  _ ← assert (v =? 0);
  _ ← assert (NODE_COUNT (state nd) <? ROOT_SIZE);
  _ ← store_slot node slot child;
  nd ← load_inode node;
  _ ← store_state node (u32 (state nd + 1));
  emit (EvInsert node slot child).

Definition node_remove (node slot : Z) : M unit :=
  nd ← load_inode node;
  _ ← assert (node_locked_p nd);
  _ ← assert (Z.land (state nd) NODE_DELETED =? 0);
  v ← load_slot node slot;
  _ ← assert (negb (v =? 0));
  _ ← assert (0 <? NODE_COUNT (state nd));
  _ ← assert (NODE_COUNT (state nd) <=? ROOT_SIZE);
  _ ← store_slot node slot 0;
  nd ← load_inode node;
  _ ← store_state node (u32 (state nd - 1));
  emit (EvRemove node slot).

(** *** Leaf operations *)

Definition nocopy (th : thmap_t) : bool := negb (Z.land (flags th) THMAP_NOCOPY =? 0).

(** Returns the address of the leaf, or 0 (NULL).  [k] is the caller's
    key pointer. *)
Definition leaf_create (th : thmap_t) (k n v : Z) : M Z :=
  leaf_off ← ops_alloc th sizeof_leaf;
  if leaf_off =? 0 then mret 0
  else
    let leaf := THMAP_GETPTR th leaf_off in
    _ ← assert (THMAP_ALIGNED_P leaf);
    if Z.land (flags th) THMAP_NOCOPY =? 0 then
      key_off ← ops_alloc th n;
      if key_off =? 0 then
        _ ← ops_free th leaf_off sizeof_leaf;
        mret 0
      else
        bs ← load_bytes k n;
        _ ← init_cell (THMAP_GETPTR th key_off) (CBytes bs);
        _ ← init_cell leaf (CLeaf (mk_leaf key_off n v));
        mret leaf
    else
      _ ← init_cell leaf (CLeaf (mk_leaf k n v));
      mret leaf.

Definition leaf_free (th : thmap_t) (leaf : Z) : M Z :=
  l ← load_leaf leaf;
  let v := val l in
  _ ← (if Z.land (flags th) THMAP_NOCOPY =? 0
       then ops_free th (key l) (len l) else mret tt);
  _ ← ops_free th (THMAP_GETOFF th leaf) sizeof_leaf;
  mret v.

Definition get_leaf (th : thmap_t) (par slot : Z) : M Z :=
  node ← load_slot par slot;
  if THMAP_INODE_P node then mret 0
  else mret (THMAP_NODE th node).

(** *** Finding the edge node *)

(** The [while] loop of [find_edge_node]; [fuel] bounds the number of
    rounds. *)
Fixpoint find_edge_loop (fuel : nat) (th : thmap_t) (q : thmap_query_t)
    (k n par node off : Z) : M (Z * Z * thmap_query_t) :=
  if negb (node =? 0) && THMAP_INODE_P node then
    match fuel with
    | O => diverge
    | S fuel' =>
        let q := mk_query (u32 (level q + 1)) (hashidx q) (hashval q) in
        r ← hashval_getslot q k n;
        let off := r.1 in
        let q := r.2 in
        let par := THMAP_NODE th node in
        node ← load_slot par off;
        find_edge_loop fuel' th q k n par node off
    end
  else mret (par, off, q).

(** Returns the edge node, the slot and the query. *)
Definition find_edge_node (fuel : nat) (th : thmap_t) (q : thmap_query_t)
    (k n : Z) : M (Z * Z * thmap_query_t) :=
  let par := root th in
  _ ← assert (level q =? 0);
  r ← hashval_getslot q k n;
  let off := r.1 in
  let q := r.2 in
  node ← load_slot par off;
  find_edge_loop fuel th q k n par node off.

Fixpoint find_edge_node_locked (fuel : nat) (th : thmap_t) (q : thmap_query_t)
    (k n : Z) : M (Z * Z * thmap_query_t) :=
  r ← find_edge_node fuel th q k n;
  let '(node, slot, q) := r in
  _ ← lock_node node;
  nd ← load_inode node;
  if negb (Z.land (state nd) NODE_DELETED =? 0) then
    _ ← unlock_node node;
    match fuel with
    | O => diverge
    | S fuel' =>
        find_edge_node_locked fuel' th (mk_query 0 (hashidx q) (hashval q)) k n
    end
  else
    target ← load_slot node slot;
    if negb (target =? 0) && THMAP_INODE_P target then
      _ ← unlock_node node;
      match fuel with
      | O => diverge
      | S fuel' =>
          find_edge_node_locked fuel' th (mk_query 0 (hashidx q) (hashval q)) k n
      end
    else mret (node, slot, q).

(** *** thmap_get *)

Definition thmap_get (fuel : nat) (th : thmap_t) (k n : Z) : M Z :=
  let q := THMAP_QUERY_INIT 0 in
  r ← find_edge_node fuel th q k n;
  let '(par, slot, _) := r in
  leaf ← get_leaf th par slot;
  if leaf =? 0 then mret 0
  else
    b ← key_cmp_p th leaf k n;
    if negb b then mret 0
    else
      l ← load_leaf leaf;
      mret (val l).

(** *** thmap_put *)

(** From the label [descend] on: one round per level of expansion. *)
Fixpoint put_descend (fuel : nat) (th : thmap_t) (q : thmap_query_t)
    (k n v leaf other par slot : Z) : M Z :=
  match fuel with
  | O => diverge
  | S fuel' =>
      child ← node_create th par;
      if child =? 0 then
        _ ← leaf_free th leaf;
        _ ← unlock_node par;
        mret 0
      else
        let q := mk_query (u32 (level q + 1)) (hashidx q) (hashval q) in
        other_slot ← hashval_getleafslot th other (level q);
        let target := Z.lor (THMAP_GETOFF th other) THMAP_LEAF_BIT in
        _ ← node_insert child other_slot target;
        _ ← store_slot par slot (THMAP_GETOFF th child);
        _ ← emit (EvPublish par slot (THMAP_GETOFF th child));
        _ ← unlock_node par;
        cn ← load_inode child;
        _ ← assert (node_locked_p cn);
        let par := child in
        r ← hashval_getslot q k n;
        let slot := r.1 in
        let q := r.2 in
        if slot =? other_slot then
          put_descend fuel' th q k n v leaf other par slot
        else
          let target := Z.lor (THMAP_GETOFF th leaf) THMAP_LEAF_BIT in
          _ ← node_insert par slot target;
          _ ← unlock_node par;
          mret v
  end.

Definition thmap_put (fuel : nat) (th : thmap_t) (k n v : Z) : M Z :=
  let q := THMAP_QUERY_INIT 0 in
  leaf ← leaf_create th k n v;
  if leaf =? 0 then mret 0
  else
    r ← find_edge_node_locked fuel th q k n;
    let '(par, slot, q) := r in
    target ← load_slot par slot;
    if THMAP_INODE_P target then
      let target := Z.lor (THMAP_GETOFF th leaf) THMAP_LEAF_BIT in
      _ ← node_insert par slot target;
      _ ← unlock_node par;
      mret v
    else
      let other := THMAP_NODE th target in
      b ← key_cmp_p th other k n;
      if (b : bool) then
        v ← leaf_free th leaf;
        _ ← unlock_node par;
        mret v
      else put_descend fuel th q k n v leaf other par slot.

(** *** G/C routines *)

(** [gc->next = thmap->gc_list; thmap->gc_list = gc]. *)
Definition push_gc (g : thmap_gc_t) : M unit := fun s =>
  Ok tt (set_gc (g :: gc_list s) s).

(** The record comes from [malloc] and is written to unchecked. *)
Definition stage_mem_gc (th : thmap_t) (a n : Z) : M unit :=
  gc ← sys_malloc sizeof_gc;
  if gc =? 0 then fault
  else
    _ ← push_gc (mk_gc gc a n);
    emit (EvStage a n).

Fixpoint gc_loop (th : thmap_t) (gc : list thmap_gc_t) : M unit :=
  match gc with
  | [] => mret tt
  | g :: next =>
      _ ← ops_free th (addr g) (gc_len g);
      _ ← sys_free (gc_self g);
      gc_loop th next
  end.

Definition thmap_gc (th : thmap_t) : M unit := fun s =>
  gc_loop th (gc_list s) (set_gc [] s).

(** *** thmap_del *)

(** The loop that collapses the levels; it runs at most [level] rounds,
    and [rounds] is that number. *)
Fixpoint del_collapse (rounds : nat) (th : thmap_t) (q : thmap_query_t)
    (k n par : Z) : M Z :=
  if level q =? 0 then mret par
  else
    pn ← load_inode par;
    if negb (NODE_COUNT (state pn) =? 0) then mret par
    else
      match rounds with
      | O => diverge
      | S rounds' =>
          let node := par in
          _ ← assert (state pn =? NODE_LOCKED);
          let q := mk_query (u32 (level q - 1)) (hashidx q) (hashval q) in
          r ← hashval_getslot q k n;
          let slot := r.1 in
          let q := r.2 in
          nd ← load_inode node;
          let par := THMAP_NODE th (parent nd) in
          _ ← lock_node par;
          pn ← load_inode par;
          _ ← assert (Z.land (state pn) NODE_DELETED =? 0);
          nd ← load_inode node;
          _ ← store_state node (Z.lor (state nd) NODE_DELETED);
          _ ← emit (EvDeleted node (state nd));
          _ ← unlock_node node;
          v ← load_slot par slot;
          _ ← assert (THMAP_NODE th v =? node);
          _ ← node_remove par slot;
          _ ← stage_mem_gc th (THMAP_GETOFF th node) THMAP_INODE_LEN;
          del_collapse rounds' th q k n par
      end.

Definition thmap_del (fuel : nat) (th : thmap_t) (k n : Z) : M Z :=
  let q := THMAP_QUERY_INIT 0 in
  r ← find_edge_node_locked fuel th q k n;
  let '(par, slot, q) := r in
  leaf ← get_leaf th par slot;
  b ← (if leaf =? 0 then mret false else key_cmp_p th leaf k n);
  if negb b then
    _ ← unlock_node par;
    mret 0
  else
    v ← load_slot par slot;
    _ ← assert (THMAP_NODE th v =? leaf);
    _ ← node_remove par slot;
    par ← del_collapse (Z.to_nat (level q)) th q k n par;
    _ ← unlock_node par;
    l ← load_leaf leaf;
    let v := val l in
    _ ← (if Z.land (flags th) THMAP_NOCOPY =? 0
         then stage_mem_gc th (key l) (len l) else mret tt);
    _ ← stage_mem_gc th (THMAP_GETOFF th leaf) sizeof_leaf;
    mret v.

(** *** thmap_create and thmap_destroy *)

Definition thmap_create (base : Z) (o : option thmap_ops_t) (fl : Z) : M (option thmap_t) :=
  if negb (THMAP_ALIGNED_P base) then mret None
  else
    p ← sys_malloc sizeof_thmap;
    if p =? 0 then mret None
    else
      let th := {| baseptr := base; root := 0; flags := fl;
                   ops := match o with Some o => o | None => thmap_default_ops end;
                   self := p |} in
      r ← ops_alloc th THMAP_ROOT_LEN;
      if r =? 0 then
        _ ← sys_free p;
        mret None
      else
        let rt := THMAP_GETPTR th r in
        _ ← init_cell rt (CInode (zero_inode ROOT_SIZE));
        mret (Some {| baseptr := base; root := rt; flags := fl;
                      ops := ops th; self := p |}).

Definition thmap_destroy (th : thmap_t) : M unit :=
  let r := THMAP_GETOFF th (root th) in
  _ ← ops_free th r THMAP_ROOT_LEN;
  sys_free (self th).

(** *** Clients

    A caller that inserts a list of keys, each given by its pointer,
    its length and the value, and one that removes a list of keys. *)



(** ** Words, tags and offsets *)

Ltac zmod := Z.div_mod_to_equations; lia.

Lemma land_1_mod (x : Z) : Z.land x 1 = x mod 2.
Proof. change 1 with (Z.ones 1). by rewrite Z.land_ones. Qed.

Lemma land_3_mod (x : Z) : Z.land x 3 = x mod 4.
Proof. change 3 with (Z.ones 2). by rewrite Z.land_ones. Qed.

Lemma lor_1_aligned (x : Z) : x mod 4 = 0 -> Z.lor x 1 = x + 1.
Proof.
  intros H. symmetry. apply Z.add_nocarry_lor. rewrite land_1_mod. zmod.
Qed.

Lemma align_spec (p : Z) : 0 <= p < 2 ^ 64 -> THMAP_ALIGN p = p - p mod 4.
Proof.
  intros H. unfold THMAP_ALIGN, uptr.
  replace (Z.lnot 3 mod 2 ^ 64) with (Z.land (Z.ones 64) (Z.lnot 3))
    by (vm_compute; reflexivity).
  rewrite Z.land_assoc, Z.land_ones by lia.
  rewrite Z.mod_small by lia.
  rewrite <- Z.ldiff_land. change 3 with (Z.ones 2).
  rewrite Z.ldiff_ones_r by lia.
  rewrite Z.shiftr_div_pow2, Z.shiftl_mul_pow2 by lia.
  change (2 ^ 2) with 4. zmod.
Qed.

(** An offset that the allocator may return: not zero, within the
    word, and with its two low bits free. *)
Definition off_ok (o : Z) : Prop := 0 < o < 2 ^ 64 /\ o mod 4 = 0.

Lemma inode_p_off (o : Z) : o mod 4 = 0 -> THMAP_INODE_P o = true.
Proof.
  intros H. unfold THMAP_INODE_P, THMAP_LEAF_BIT. rewrite land_1_mod.
  apply Z.eqb_eq. zmod.
Qed.

Lemma inode_p_leaf (o : Z) : o mod 4 = 0 -> THMAP_INODE_P (Z.lor o THMAP_LEAF_BIT) = false.
Proof.
  intros H. unfold THMAP_INODE_P, THMAP_LEAF_BIT. rewrite lor_1_aligned, land_1_mod by done.
  apply Z.eqb_neq. zmod.
Qed.

Lemma align_off (o : Z) : off_ok o -> THMAP_ALIGN o = o.
Proof. intros [H1 H2]. rewrite align_spec by lia. lia. Qed.

Lemma align_leaf (o : Z) : off_ok o -> THMAP_ALIGN (Z.lor o THMAP_LEAF_BIT) = o.
Proof.
  intros [H1 H2]. unfold THMAP_LEAF_BIT. rewrite lor_1_aligned by done.
  rewrite align_spec by zmod. zmod.
Qed.

Lemma leaf_tag_nonzero (o : Z) : off_ok o -> Z.lor o THMAP_LEAF_BIT <> 0.
Proof. intros [H1 H2]. unfold THMAP_LEAF_BIT. rewrite lor_1_aligned by done. lia. Qed.

Lemma leaf_tag_inj (o o' : Z) :
  off_ok o -> off_ok o' -> Z.lor o THMAP_LEAF_BIT = Z.lor o' THMAP_LEAF_BIT -> o = o'.
Proof.
  intros [_ H] [_ H']. unfold THMAP_LEAF_BIT. rewrite !lor_1_aligned by done. lia.
Qed.

Lemma getoff_getptr (th : thmap_t) (o : Z) :
  0 <= o < 2 ^ 64 -> THMAP_GETOFF th (THMAP_GETPTR th o) = o.
Proof.
  intros H. unfold THMAP_GETOFF, THMAP_GETPTR, uptr.
  rewrite Zminus_mod_idemp_l. replace (baseptr th + o - baseptr th) with o by lia.
  by apply Z.mod_small.
Qed.

Lemma getptr_getoff (th : thmap_t) (p : Z) :
  0 <= p < 2 ^ 64 -> THMAP_GETPTR th (THMAP_GETOFF th p) = p.
Proof.
  intros H. unfold THMAP_GETOFF, THMAP_GETPTR, uptr.
  rewrite Zplus_mod_idemp_r. replace (baseptr th + (p - baseptr th)) with p by lia.
  by apply Z.mod_small.
Qed.

Lemma getptr_range (th : thmap_t) (o : Z) : 0 <= THMAP_GETPTR th o < 2 ^ 64.
Proof. unfold THMAP_GETPTR, uptr. apply Z.mod_pos_bound. lia. Qed.

Lemma getoff_range (th : thmap_t) (p : Z) : 0 <= THMAP_GETOFF th p < 2 ^ 64.
Proof. unfold THMAP_GETOFF, uptr. apply Z.mod_pos_bound. lia. Qed.

Lemma getptr_inj (th : thmap_t) (o o' : Z) :
  0 <= o < 2 ^ 64 -> 0 <= o' < 2 ^ 64 ->
  THMAP_GETPTR th o = THMAP_GETPTR th o' -> o = o'.
Proof.
  intros H H' E. rewrite <- (getoff_getptr th o), <- (getoff_getptr th o') by done.
  by rewrite E.
Qed.

Lemma getptr_aligned (th : thmap_t) (o : Z) :
  baseptr th mod 4 = 0 -> o mod 4 = 0 -> THMAP_ALIGNED_P (THMAP_GETPTR th o) = true.
Proof.
  intros Hb Ho. unfold THMAP_ALIGNED_P, THMAP_GETPTR, uptr. rewrite land_3_mod.
  apply Z.eqb_eq. change (2 ^ 64) with (4 * 4611686018427387904). zmod.
Qed.

(** The state word of a node with [c] slots in use, and what the code
    does to it; [c] is at most the fanout of the root. *)
Definition state_word_check (c : Z) : bool :=
  (Z.land c NODE_LOCKED =? 0) && (Z.lor c NODE_LOCKED =? c + NODE_LOCKED)
  && negb (Z.land (c + NODE_LOCKED) NODE_LOCKED =? 0)
  && (clear_locked (c + NODE_LOCKED) =? c)
  && (Z.land c NODE_DELETED =? 0) && (Z.land (c + NODE_LOCKED) NODE_DELETED =? 0)
  && (NODE_COUNT c =? c) && (NODE_COUNT (c + NODE_LOCKED) =? c)
  && (u32 (c + NODE_LOCKED + 1) =? c + 1 + NODE_LOCKED)
  && (u32 (c + 1 + NODE_LOCKED - 1) =? c + NODE_LOCKED).

Lemma state_word_table :
  forallb state_word_check (map Z.of_nat (seq 0 66)) = true.
Proof. vm_compute. reflexivity. Qed.

Lemma state_word (c : Z) : 0 <= c <= 65 -> state_word_check c = true.
Proof.
  intros H. pose proof state_word_table as T.
  rewrite forallb_forall in T. apply T.
  apply in_map_iff. exists (Z.to_nat c). split; [lia|].
  apply in_seq. lia.
Qed.

Lemma deleted_word :
  Z.lor NODE_LOCKED NODE_DELETED = NODE_LOCKED + NODE_DELETED /\
  negb (Z.land (NODE_LOCKED + NODE_DELETED) NODE_LOCKED =? 0) = true /\
  clear_locked (NODE_LOCKED + NODE_DELETED) = NODE_DELETED.
Proof. vm_compute. auto. Qed.

Lemma state_word_facts (c : Z) :
  0 <= c <= 65 ->
  Z.land c NODE_LOCKED = 0 /\ Z.lor c NODE_LOCKED = c + NODE_LOCKED /\
  (Z.land (c + NODE_LOCKED) NODE_LOCKED =? 0) = false /\
  clear_locked (c + NODE_LOCKED) = c /\
  Z.land c NODE_DELETED = 0 /\ Z.land (c + NODE_LOCKED) NODE_DELETED = 0 /\
  NODE_COUNT c = c /\ NODE_COUNT (c + NODE_LOCKED) = c /\
  u32 (c + NODE_LOCKED + 1) = c + 1 + NODE_LOCKED /\
  u32 (c + 1 + NODE_LOCKED - 1) = c + NODE_LOCKED.
Proof.
  intros H. pose proof (state_word c H) as T. unfold state_word_check in T.
  repeat match goal with
  | H : _ && _ = true |- _ => apply andb_true_iff in H as [? ?]
  | H : negb _ = true |- _ => apply negb_true_iff in H
  | H : (_ =? _) = true |- _ => apply Z.eqb_eq in H
  end.
  tauto.
Qed.

(** The number of slots in use. *)
Definition count_nz (l : list Z) : Z := Z.of_nat (length (filter (fun v => v <> 0) l)).

Lemma count_nz_replicate (n : nat) : count_nz (replicate n 0) = 0.
Proof.
  unfold count_nz. induction n as [|n IH]; [done|].
  simpl. rewrite filter_cons_False by (intros H; by apply H). done.
Qed.

Lemma count_nz_bounds (l : list Z) : 0 <= count_nz l <= Z.of_nat (length l).
Proof. unfold count_nz. pose proof (length_filter (fun v => v <> 0) l). lia. Qed.

Lemma count_nz_insert (l : list Z) (i : nat) (v w : Z) :
  l !! i = Some v ->
  count_nz (<[i := w]> l) =
    count_nz l - (if decide (v = 0) then 0 else 1) + (if decide (w = 0) then 0 else 1).
Proof.
  unfold count_nz. revert i. induction l as [|x l IH]; intros i Hi; [done|].
  destruct i as [|i]; simpl in *.
  - injection Hi as ->.
    rewrite !filter_cons. repeat case_decide; simpl length; try lia; congruence.
  - specialize (IH i Hi). rewrite !filter_cons.
    repeat case_decide; simpl length; lia.
Qed.

Lemma count_nz_zero (l : list Z) (i : nat) (v : Z) :
  count_nz l = 0 -> l !! i = Some v -> v = 0.
Proof.
  unfold count_nz. intros H Hi.
  destruct (decide (v = 0)) as [|Hv]; [done|].
  assert (v ∈ filter (fun v => v <> 0) l) as Hin.
  { apply list_elem_of_filter. split; [done|]. by eapply list_elem_of_lookup_2. }
  destruct (filter (fun v => v <> 0) l); [by apply not_elem_of_nil in Hin | simpl in H; lia].
Qed.

Lemma count_nz_pos (l : list Z) (i : nat) (v : Z) :
  l !! i = Some v -> v <> 0 -> 0 < count_nz l.
Proof.
  intros Hi Hv. pose proof (count_nz_bounds l).
  destruct (decide (count_nz l = 0)) as [E|]; [|lia].
  by pose proof (count_nz_zero _ _ _ E Hi).
Qed.

(** ** Running the primitives *)

Lemma bind_run {X Y} (m : M X) (f : X -> M Y) (s s' : st) (x : X) :
  m s = Ok x s' -> (m ≫= f) s = f x s'.
Proof. intros H. unfold mbind, M_bind. by rewrite H. Qed.

Lemma bind_unfold {X Y} (m : M X) (f : X -> M Y) (s : st) :
  (m ≫= f) s = match m s with Ok x s' => f x s' | Fault => Fault | Diverge => Diverge end.
Proof. reflexivity. Qed.

Lemma ret_run {X} (x : X) (s : st) : (mret x : M X) s = Ok x s.
Proof. reflexivity. Qed.

Lemma assert_run (b : bool) (s : st) : b = true -> assert b s = Ok tt s.
Proof. by intros ->. Qed.

(** What a memory holds at an address, by type. *)
Definition inode_at (m : gmap Z cell) (p : Z) : option thmap_inode_t :=
  match m !! p with Some (CInode n) => Some n | _ => None end.
Definition leaf_at (m : gmap Z cell) (p : Z) : option thmap_leaf_t :=
  match m !! p with Some (CLeaf l) => Some l | _ => None end.
Definition bytes_at (m : gmap Z cell) (p : Z) : option (list Z) :=
  match m !! p with Some (CBytes bs) => Some bs | _ => None end.

(** The [n] bytes at [p] are [kb]. *)
Definition key_at (m : gmap Z cell) (p n : Z) (kb : list Z) : Prop :=
  exists bs, bytes_at m p = Some bs /\ 0 <= n <= Z.of_nat (length bs) /\
             kb = take (Z.to_nat n) bs.

Lemma inode_at_lookup m p n : inode_at m p = Some n <-> m !! p = Some (CInode n).
Proof.
  unfold inode_at. destruct (m !! p) as [[]|]; split; intros H; by simplify_eq.
Qed.
Lemma leaf_at_lookup m p l : leaf_at m p = Some l <-> m !! p = Some (CLeaf l).
Proof.
  unfold leaf_at. destruct (m !! p) as [[]|]; split; intros H; by simplify_eq.
Qed.
Lemma bytes_at_lookup m p bs : bytes_at m p = Some bs <-> m !! p = Some (CBytes bs).
Proof.
  unfold bytes_at. destruct (m !! p) as [[]|]; split; intros H; by simplify_eq.
Qed.

Lemma key_at_length m p n kb : key_at m p n kb -> Z.of_nat (length kb) = n.
Proof. intros (bs & _ & Hn & ->). rewrite length_take. lia. Qed.

Lemma key_at_fun m p n kb kb' : key_at m p n kb -> key_at m p n kb' -> kb = kb'.
Proof. intros (bs & H1 & _ & ->) (bs' & H2 & _ & ->). congruence. Qed.

Lemma load_inode_run s p n :
  inode_at (mem s) p = Some n -> load_inode p s = Ok n s.
Proof. intros H%inode_at_lookup. unfold load_inode. by rewrite H. Qed.

Lemma store_inode_run s p n n0 :
  inode_at (mem s) p = Some n0 ->
  store_inode p n s = Ok tt (mk_st (<[p := CInode n]> (mem s)) (ast s) (gc_list s) (log s)).
Proof. intros H%inode_at_lookup. unfold store_inode. by rewrite H. Qed.

Lemma load_leaf_run s p lf :
  leaf_at (mem s) p = Some lf -> load_leaf p s = Ok lf s.
Proof. intros H%leaf_at_lookup. unfold load_leaf. by rewrite H. Qed.

Lemma load_bytes_run s p n kb :
  key_at (mem s) p n kb -> load_bytes p n s = Ok kb s.
Proof.
  intros (bs & H%bytes_at_lookup & Hn & ->). unfold load_bytes. rewrite H.
  destruct (0 <=? n) eqn:E1; [|lia]. destruct (n <=? Z.of_nat (length bs)) eqn:E2; [done|lia].
Qed.

Lemma init_cell_run s p c c0 :
  mem s !! p = Some c0 ->
  init_cell p c s = Ok tt (mk_st (<[p := c]> (mem s)) (ast s) (gc_list s) (log s)).
Proof. intros H. unfold init_cell. by rewrite H. Qed.

Lemma load_slot_run s p i n v :
  inode_at (mem s) p = Some n -> slots n !! Z.to_nat i = Some v ->
  load_slot p i s = Ok v s.
Proof.
  intros H Hv. unfold load_slot. rewrite (bind_run _ _ _ _ _ (load_inode_run _ _ _ H)).
  by rewrite Hv.
Qed.

Lemma store_slot_run s p i n v :
  inode_at (mem s) p = Some n -> (Z.to_nat i < length (slots n))%nat ->
  store_slot p i v s =
    Ok tt (mk_st (<[p := CInode (mk_inode (state n) (parent n) (<[Z.to_nat i := v]> (slots n)))]> (mem s))
             (ast s) (gc_list s) (log s)).
Proof.
  intros H Hi. unfold store_slot. rewrite (bind_run _ _ _ _ _ (load_inode_run _ _ _ H)).
  destruct (Z.to_nat i <? length (slots n))%nat eqn:E; [|apply Nat.ltb_ge in E; lia].
  by eapply store_inode_run.
Qed.

Lemma store_state_run s p n w :
  inode_at (mem s) p = Some n ->
  store_state p w s =
    Ok tt (mk_st (<[p := CInode (mk_inode w (parent n) (slots n))]> (mem s))
             (ast s) (gc_list s) (log s)).
Proof.
  intros H. unfold store_state. rewrite (bind_run _ _ _ _ _ (load_inode_run _ _ _ H)).
  by eapply store_inode_run.
Qed.

Lemma get_leaf_run th s p i n v :
  inode_at (mem s) p = Some n -> slots n !! Z.to_nat i = Some v ->
  get_leaf th p i s = Ok (if THMAP_INODE_P v then 0 else THMAP_NODE th v) s.
Proof.
  intros H Hv. unfold get_leaf. rewrite (bind_run _ _ _ _ _ (load_slot_run _ _ _ _ _ H Hv)).
  by destruct (THMAP_INODE_P v).
Qed.

Lemma emit_run s e :
  emit e s = Ok tt (mk_st (mem s) (ast s) (gc_list s) (log s ++ [e])).
Proof. reflexivity. Qed.

Lemma inode_at_insert m p n q :
  inode_at (<[p := CInode n]> m) q = if decide (p = q) then Some n else inode_at m q.
Proof. unfold inode_at. rewrite lookup_insert. by case_decide. Qed.

Lemma inode_at_insert_eq m p n : inode_at (<[p := CInode n]> m) p = Some n.
Proof. rewrite inode_at_insert. by case_decide. Qed.

Lemma inode_at_insert_ne m p n q : p <> q -> inode_at (<[p := CInode n]> m) q = inode_at m q.
Proof. intros. rewrite inode_at_insert. by case_decide. Qed.

(** Rewriting a node in place changes no leaf and no key buffer. *)
Lemma leaf_at_insert_inode m p n n0 q :
  inode_at m p = Some n0 -> leaf_at (<[p := CInode n]> m) q = leaf_at m q.
Proof.
  intros H%inode_at_lookup. unfold leaf_at. rewrite lookup_insert.
  case_decide; [subst; by rewrite H | done].
Qed.

Lemma bytes_at_insert_inode m p n n0 q :
  inode_at m p = Some n0 -> bytes_at (<[p := CInode n]> m) q = bytes_at m q.
Proof.
  intros H%inode_at_lookup. unfold bytes_at. rewrite lookup_insert.
  case_decide; [subst; by rewrite H | done].
Qed.

Lemma key_at_insert_inode m p n n0 q k kb :
  inode_at m p = Some n0 -> key_at (<[p := CInode n]> m) q k kb <-> key_at m q k kb.
Proof. intros H. unfold key_at. by setoid_rewrite (bytes_at_insert_inode _ _ _ _ _ H). Qed.

Lemma dom_insert_inode m p n n0 :
  inode_at m p = Some n0 -> dom (<[p := CInode n]> m) = dom m.
Proof.
  intros H%inode_at_lookup. rewrite dom_insert_L.
  assert (p ∈ dom m) by (apply elem_of_dom; by eexists). set_solver.
Qed.

Ltac mstep H := rewrite (bind_run _ _ _ _ _ H); cbn [mem ast gc_list log].

Lemma lock_node_run s p n :
  inode_at (mem s) p = Some n -> Z.land (state n) NODE_LOCKED = 0 ->
  lock_node p s =
    Ok tt (mk_st (<[p := CInode (mk_inode (Z.lor (state n) NODE_LOCKED) (parent n) (slots n))]> (mem s))
             (ast s) (gc_list s) (log s ++ [EvLock p])).
Proof.
  intros H Hl. unfold lock_node. mstep (load_inode_run _ _ _ H).
  rewrite Hl. cbn [negb Z.eqb].
  mstep (store_state_run _ _ _ (Z.lor (state n) NODE_LOCKED) H).
  by rewrite emit_run.
Qed.

Lemma unlock_node_run s p n :
  inode_at (mem s) p = Some n -> node_locked_p n = true ->
  unlock_node p s =
    Ok tt (mk_st (<[p := CInode (mk_inode (clear_locked (state n)) (parent n) (slots n))]> (mem s))
             (ast s) (gc_list s) (log s ++ [EvUnlock p])).
Proof.
  intros H Hl. unfold unlock_node. mstep (load_inode_run _ _ _ H).
  mstep (assert_run _ s Hl).
  mstep (store_state_run _ _ _ (clear_locked (state n)) H).
  by rewrite emit_run.
Qed.

Lemma node_insert_run s p i child n :
  inode_at (mem s) p = Some n -> node_locked_p n = true ->
  Z.land (state n) NODE_DELETED = 0 ->
  slots n !! Z.to_nat i = Some 0 ->
  NODE_COUNT (state n) < ROOT_SIZE ->
  node_insert p i child s =
    Ok tt (mk_st (<[p := CInode (mk_inode (u32 (state n + 1)) (parent n)
                                   (<[Z.to_nat i := child]> (slots n)))]> (mem s))
             (ast s) (gc_list s) (log s ++ [EvInsert p i child])).
Proof.
  intros H Hl Hd Hs Hc. unfold node_insert. mstep (load_inode_run _ _ _ H).
  mstep (assert_run _ s Hl).
  mstep (assert_run _ s (proj2 (Z.eqb_eq _ _) Hd)).
  mstep (load_slot_run _ _ _ _ _ H Hs).
  mstep (assert_run _ s (Z.eqb_refl 0)).
  mstep (assert_run _ s (proj2 (Z.ltb_lt _ _) Hc)).
  mstep (store_slot_run _ _ _ _ child H (lookup_lt_Some _ _ _ Hs)).
  erewrite bind_run; [|apply load_inode_run; cbn [mem]; apply inode_at_insert_eq].
  erewrite bind_run; [|eapply store_state_run; cbn [mem]; apply inode_at_insert_eq].
  rewrite emit_run. cbn [mem ast gc_list log state parent slots].
  by rewrite insert_insert_eq.
Qed.

Lemma node_remove_run s p i v n :
  inode_at (mem s) p = Some n -> node_locked_p n = true ->
  Z.land (state n) NODE_DELETED = 0 ->
  slots n !! Z.to_nat i = Some v -> v <> 0 ->
  0 < NODE_COUNT (state n) <= ROOT_SIZE ->
  node_remove p i s =
    Ok tt (mk_st (<[p := CInode (mk_inode (u32 (state n - 1)) (parent n)
                                   (<[Z.to_nat i := 0]> (slots n)))]> (mem s))
             (ast s) (gc_list s) (log s ++ [EvRemove p i])).
Proof.
  intros H Hl Hd Hs Hv Hc. unfold node_remove. mstep (load_inode_run _ _ _ H).
  mstep (assert_run _ s Hl).
  mstep (assert_run _ s (proj2 (Z.eqb_eq _ _) Hd)).
  mstep (load_slot_run _ _ _ _ _ H Hs).
  assert (negb (v =? 0) = true) as Hv' by (by apply negb_true_iff, Z.eqb_neq).
  mstep (assert_run _ s Hv').
  mstep (assert_run _ s (proj2 (Z.ltb_lt _ _) (proj1 Hc))).
  mstep (assert_run _ s (proj2 (Z.leb_le _ _) (proj2 Hc))).
  mstep (store_slot_run _ _ _ _ 0 H (lookup_lt_Some _ _ _ Hs)).
  erewrite bind_run; [|apply load_inode_run; cbn [mem]; apply inode_at_insert_eq].
  erewrite bind_run; [|eapply store_state_run; cbn [mem]; apply inode_at_insert_eq].
  rewrite emit_run. cbn [mem ast gc_list log state parent slots].
  by rewrite insert_insert_eq.
Qed.

(** ** The slot of a key at a level *)

Definition hash_index (lvl : Z) : Z :=
  Z.shiftr (u32 (ROOT_BITS + lvl * LEVEL_BITS)) HASHVAL_SHIFT.

Definition slot_of_hash (lvl h : Z) : Z :=
  if lvl =? 0 then Z.land h ROOT_MASK
  else Z.land (Z.shiftr h (Z.land (roundup2 (u32 (ROOT_BITS + lvl * LEVEL_BITS)) LEVEL_BITS)
                                    HASHVAL_MASK)) LEVEL_MASK.

(** The slot that [hashval_getslot] computes for the key [kb] at level
    [lvl] when it starts from a query that caches nothing wrong. *)
Definition kslot (kb : list Z) (lvl : Z) : Z :=
  slot_of_hash lvl (hash32 kb (hash_index lvl)).

Definition cache_ok (q : thmap_query_t) (kb : list Z) : Prop :=
  hashidx q = -1 \/ hashval q = hash32 kb (hashidx q).

Definition fanout (lvl : Z) : Z := if lvl =? 0 then ROOT_SIZE else LEVEL_SIZE.

Lemma hash_index_nonneg (lvl : Z) : 0 <= hash_index lvl.
Proof.
  unfold hash_index. apply Z.shiftr_nonneg. unfold u32. apply Z.mod_pos_bound. lia.
Qed.

Lemma kslot_range (kb : list Z) (lvl : Z) : 0 <= kslot kb lvl < fanout lvl.
Proof.
  unfold kslot, slot_of_hash, fanout. destruct (lvl =? 0).
  - change ROOT_MASK with (Z.ones 6). rewrite Z.land_ones by lia.
    change ROOT_SIZE with (2 ^ 6). apply Z.mod_pos_bound. lia.
  - change LEVEL_MASK with (Z.ones 4). rewrite Z.land_ones by lia.
    change LEVEL_SIZE with (2 ^ 4). apply Z.mod_pos_bound. lia.
Qed.

Definition query_at (kb : list Z) (lvl : Z) : thmap_query_t :=
  mk_query lvl (hash_index lvl) (hash32 kb (hash_index lvl)).

Lemma cache_ok_query_at kb lvl : cache_ok (query_at kb lvl) kb.
Proof. by right. Qed.

Lemma cache_ok_init kb lvl : cache_ok (THMAP_QUERY_INIT lvl) kb.
Proof. by left. Qed.

Lemma cache_ok_level q kb lvl :
  cache_ok q kb -> cache_ok (mk_query lvl (hashidx q) (hashval q)) kb.
Proof. done. Qed.

Lemma hashval_getslot_run s q k n kb :
  key_at (mem s) k n kb -> cache_ok q kb ->
  hashval_getslot q k n s = Ok (kslot kb (level q), query_at kb (level q)) s.
Proof.
  intros Hk Hc. unfold hashval_getslot.
  fold (hash_index (level q)).
  assert (forall X (f : thmap_query_t -> M X),
    ((if negb (hashidx q =? hash_index (level q))
      then kb ← load_bytes k n;
           mret (mk_query (level q) (hash_index (level q)) (hash32 kb (hash_index (level q))))
      else mret q) ≫= f) s = f (query_at kb (level q)) s) as E.
  { intros X f. destruct (hashidx q =? hash_index (level q)) eqn:Ei; simpl negb; cbv iota.
    - apply Z.eqb_eq in Ei. apply bind_run. rewrite ret_run. f_equal.
      unfold query_at. destruct q as [lv hi hv]. simpl in *.
      destruct Hc as [Hc|Hc]; simpl in Hc.
      + pose proof (hash_index_nonneg lv). lia.
      + by rewrite Hc, Ei.
    - apply bind_run. by rewrite (bind_run _ _ _ _ _ (load_bytes_run _ _ _ _ Hk)). }
  rewrite E. unfold kslot, slot_of_hash, query_at. simpl.
  by destruct (level q =? 0).
Qed.

(** *** The slot computation of the spec (section 4.2)

    [round_up] and the arithmetic are those of the integers: the spec
    gives no width. *)
Definition round_up (x m : Z) : Z := (x + m - 1) / m * m.

Definition spec_getslot (q : thmap_query_t) (kb : list Z) : Z * thmap_query_t :=
  let nbits := 6 + level q * 4 in
  let i := Z.shiftr nbits 5 in
  let q := if negb (hashidx q =? i) then mk_query (level q) i (hash32 kb i) else q in
  if level q =? 0 then (Z.land (hashval q) 63 (* 0x3F *), q)
  else
    let shift := Z.land (round_up nbits 4) 31 in
    (Z.land (Z.shiftr (hashval q) shift) 15 (* 0xF *), q).

Lemma roundup2_shift (x : Z) :
  0 <= x < 2 ^ 32 ->
  Z.land (roundup2 x LEVEL_BITS) HASHVAL_MASK = Z.land (round_up x 4) 31.
Proof.
  intros Hx. unfold roundup2, round_up, LEVEL_BITS, HASHVAL_MASK, HASHVAL_BITS, u32.
  replace (Z.lnot (4 - 1) mod 2 ^ 32) with (Z.land (Z.ones 32) (Z.lnot 3))
    by (vm_compute; reflexivity).
  rewrite Z.land_assoc, (Z.land_ones _ 32) by lia.
  rewrite Zmod_mod. rewrite <- Z.ldiff_land. change 3 with (Z.ones 2).
  rewrite Z.ldiff_ones_r by lia.
  rewrite Z.shiftr_div_pow2, Z.shiftl_mul_pow2 by lia.
  change (32 - 1) with (Z.ones 5). change 31 with (Z.ones 5).
  rewrite !Z.land_ones by lia.
  change (2 ^ 2) with 4. change (2 ^ 5) with 32. change (2 ^ 32) with 4294967296 in *.
  zmod.
Qed.

(** C7, as amended: while [6 + 4 * level] fits the 32-bit [unsigned]
    that holds [nbits], [hashval_getslot] returns the slot and leaves
    the query that the algorithm of the spec gives: the hash word of
    index [i] is computed anew exactly when the cached index is not
    [i], the root slot is [hashval & 0x3F], and a deeper slot is
    [(hashval >> (round_up(nbits, 4) & 31)) & 0xF]. *)
Theorem hashval_getslot_refines_spec (q : thmap_query_t) (k n : Z) (kb : list Z) (s : st) :
  0 <= level q ->
  6 + level q * 4 < 2 ^ 32 ->
  key_at (mem s) k n kb ->
  hashval_getslot q k n s = Ok (spec_getslot q kb) s.
Proof.
  intros H0 Hw Hk. unfold hashval_getslot, spec_getslot.
  assert (u32 (ROOT_BITS + level q * LEVEL_BITS) = 6 + level q * 4) as ->.
  { unfold u32, ROOT_BITS, LEVEL_BITS. apply Z.mod_small. lia. }
  change HASHVAL_SHIFT with 5.
  rewrite roundup2_shift by lia.
  change ROOT_MASK with 63. change LEVEL_MASK with 15.
  destruct (hashidx q =? Z.shiftr (6 + level q * 4) 5) eqn:Ei; simpl negb; cbv iota.
  - rewrite (bind_run _ _ _ _ _ (ret_run _ _)). by destruct (level q =? 0).
  - rewrite (bind_run _ _ s s
               (mk_query (level q) (Z.shiftr (6 + level q * 4) 5)
                  (hash32 kb (Z.shiftr (6 + level q * 4) 5)))).
    + simpl. by destruct (level q =? 0).
    + by rewrite (bind_run _ _ _ _ _ (load_bytes_run _ _ _ _ Hk)).
Qed.

(** ** What the allocator is trusted with

    [covers a U] reads: in the state [a], the allocator hands out no
    block at an address of [U].  The operations keep the addresses in
    use covered; the laws say how the calls preserve it.  A block that
    [alloc] returns is at an offset that is not zero, has its two low
    bits free, and lies at an address that is not NULL. *)

Definition covers_t : Type := A -> gset Z -> Prop.

Record ops_laws (base : Z) (o : thmap_ops_t) (covers : covers_t) : Prop := {
  law_mono : forall a U U', covers a U -> U' ⊆ U -> covers a U';
  law_alloc : forall a U n, covers a U ->
    ((alloc o n a).1 = 0 /\ covers (alloc o n a).2 U) \/
    (off_ok (alloc o n a).1 /\ uptr (base + (alloc o n a).1) <> 0 /\
      (uptr (base + (alloc o n a).1) ∉ U) /\
      covers (alloc o n a).2 ({[uptr (base + (alloc o n a).1)]} ∪ U));
  law_free : forall a U off n, covers a U -> covers (free o off n a) U;
  law_malloc : forall a U n, covers a U -> covers (malloc n a).2 U;
  law_cfree : forall a U p, covers a U -> covers (c_free p a) U
}.

(** ** The shape of a well-formed map

    A map is described by where its nodes are and which slots lead to
    them ([g_nodes]: the address of a node, and the slots on the way
    from the root to it), and by its entries ([g_ents]: for the bytes of
    a key, where its leaf is, where its key is, its value, and the level
    of the node that holds it). *)

Record entry := mk_entry {
  e_off : Z;        (* offset of the leaf *)
  e_key : Z;        (* leaf->key *)
  e_val : Z;        (* leaf->val *)
  e_depth : nat     (* level of the node whose slot holds the leaf *)
}.

Record ghost := mk_ghost {
  g_nodes : gmap Z (list Z);
  g_ents : gmap (list Z) entry
}.

(** The slots of a key at the levels [0 .. d-1]. *)
Definition kpath (kb : list Z) (d : nat) : list Z :=
  map (fun j => kslot kb (Z.of_nat j)) (seq 0 d).

Lemma kpath_length kb d : length (kpath kb d) = d.
Proof. unfold kpath. by rewrite length_map, length_seq. Qed.

Lemma kpath_S kb d : kpath kb (S d) = kpath kb d ++ [kslot kb (Z.of_nat d)].
Proof. unfold kpath. by rewrite seq_S, map_app. Qed.

Lemma kpath_add kb d e : exists t, kpath kb (d + e) = kpath kb d ++ t.
Proof.
  induction e as [|e [t IH]].
  - exists []. by rewrite Nat.add_0_r, app_nil_r.
  - exists (t ++ [kslot kb (Z.of_nat (d + e))]).
    replace (d + S e)%nat with (S (d + e)) by lia.
    by rewrite kpath_S, IH, app_assoc.
Qed.

Section Inv.

Variable th : thmap_t.
Variable covers : covers_t.

Definition addr_ok (a : Z) : Prop :=
  a <> 0 /\ 0 <= a < 2 ^ 64 /\ off_ok (THMAP_GETOFF th a).

Definition slot_ok (G : ghost) (p : list Z) (i : nat) (v : Z) : Prop :=
  if THMAP_INODE_P v
  then off_ok v /\ g_nodes G !! THMAP_GETPTR th v = Some (p ++ [Z.of_nat i])
  else exists kb e, g_ents G !! kb = Some e /\ v = Z.lor (e_off e) THMAP_LEAF_BIT /\
         e_depth e = length p /\ kpath kb (S (length p)) = p ++ [Z.of_nat i].

Definition parent_ok (m : gmap Z cell) (G : ghost) (a : Z) (p : list Z)
    (n : thmap_inode_t) : Prop :=
  (p = [] -> parent n = 0 /\ a = root th) /\
  (forall p' i, p = p' ++ [i] ->
     exists b nb, g_nodes G !! b = Some p' /\ parent n = THMAP_GETOFF th b /\
       inode_at m b = Some nb /\ slots nb !! Z.to_nat i = Some (THMAP_GETOFF th a)).

(** The node at [a], reached by the slots [p]; [lk] are the nodes that
    the running operation holds locked.  Only those are locked, and
    only those may be empty without being the root. *)
Definition node_ok (m : gmap Z cell) (G : ghost) (lk : gset Z) (a : Z) (p : list Z) : Prop :=
  exists n, inode_at m a = Some n /\ addr_ok a /\
    Z.of_nat (length (slots n)) = fanout (Z.of_nat (length p)) /\
    Z.of_nat (length p) < 2 ^ 32 /\
    state n = count_nz (slots n) + (if decide (a ∈ lk) then NODE_LOCKED else 0) /\
    (p <> [] -> a ∉ lk -> 0 < count_nz (slots n)) /\
    parent_ok m G a p n /\
    (forall i v, slots n !! i = Some v -> v <> 0 -> slot_ok G p i v).

Definition ent_ok (m : gmap Z cell) (G : ghost) (kb : list Z) (e : entry) : Prop :=
  off_ok (e_off e) /\ THMAP_GETPTR th (e_off e) <> 0 /\
  leaf_at m (THMAP_GETPTR th (e_off e)) =
    Some (mk_leaf (e_key e) (Z.of_nat (length kb)) (e_val e)) /\
  (if nocopy th
   then 0 <= e_key e < 2 ^ 64 /\
        key_at m (THMAP_GETPTR th (e_key e)) (Z.of_nat (length kb)) kb
   else off_ok (e_key e) /\ bytes_at m (THMAP_GETPTR th (e_key e)) = Some kb) /\
  (exists a n, g_nodes G !! a = Some (kpath kb (e_depth e)) /\
     inode_at m a = Some n /\
     slots n !! Z.to_nat (kslot kb (Z.of_nat (e_depth e))) =
       Some (Z.lor (e_off e) THMAP_LEAF_BIT)).

(** What is staged for G/C is still allocated, is listed once, and is
    no part of the map. *)
Definition gc_ok (m : gmap Z cell) (G : ghost) (gcl : list thmap_gc_t) : Prop :=
  NoDup (map (fun g => THMAP_GETPTR th (addr g)) gcl) /\
  forall g, g ∈ gcl ->
    0 <= addr g < 2 ^ 64 /\
    (exists c, m !! THMAP_GETPTR th (addr g) = Some c /\
               (nocopy th = true -> forall bs, c <> CBytes bs)) /\
    g_nodes G !! THMAP_GETPTR th (addr g) = None /\
    (forall kb e, g_ents G !! kb = Some e ->
       addr g <> e_off e /\ (nocopy th = false -> addr g <> e_key e)).

Record Inv (lk : gset Z) (G : ghost) (s : st) : Prop := {
  inv_base : 0 <= baseptr th < 2 ^ 64 /\ baseptr th mod 4 = 0;
  inv_root : g_nodes G !! root th = Some [];
  inv_nodes : forall a p, g_nodes G !! a = Some p -> node_ok (mem s) G lk a p;
  inv_ents : forall kb e, g_ents G !! kb = Some e -> ent_ok (mem s) G kb e;
  inv_gc : gc_ok (mem s) G (gc_list s);
  inv_covers : covers (ast s) (dom (mem s));
  inv_lk : forall a, a ∈ lk -> is_Some (g_nodes G !! a)
}.

Lemma addr_ok_ptr a : addr_ok a -> THMAP_GETPTR th (THMAP_GETOFF th a) = a.
Proof. intros (_ & H & _). by apply getptr_getoff. Qed.

Lemma addr_ok_off o : off_ok o -> THMAP_GETPTR th o <> 0 -> addr_ok (THMAP_GETPTR th o).
Proof.
  intros Ho Hn. split; [done|]. split; [apply getptr_range|].
  rewrite getoff_getptr; [done|]. destruct Ho; lia.
Qed.

(** *** Consequences of the invariant *)

Section Derived.

Variables (lk : gset Z) (G : ghost) (s : st).
Hypothesis HI : Inv lk G s.

Lemma node_cell a p :
  g_nodes G !! a = Some p ->
  exists n, inode_at (mem s) a = Some n /\
    Z.of_nat (length (slots n)) = fanout (Z.of_nat (length p)).
Proof. intros H. destruct (inv_nodes _ _ _ HI _ _ H) as (n & ? & ? & ? & _). eauto. Qed.

(** The slot of the parent that leads to a node. *)
Lemma node_link a p i :
  g_nodes G !! a = Some (p ++ [i]) ->
  exists b nb, g_nodes G !! b = Some p /\ inode_at (mem s) b = Some nb /\
    slots nb !! Z.to_nat i = Some (THMAP_GETOFF th a) /\
    THMAP_GETOFF th a <> 0 /\ THMAP_INODE_P (THMAP_GETOFF th a) = true.
Proof.
  intros H. destruct (inv_nodes _ _ _ HI _ _ H) as (n & Hn & Ha & _ & _ & _ & _ & [_ Hp] & _).
  destruct (Hp p i eq_refl) as (b & nb & Hb & _ & Hnb & Hs).
  exists b, nb. repeat split; try done.
  - destruct Ha as (_ & _ & [? ?]). lia.
  - destruct Ha as (_ & _ & [? ?]). by apply inode_p_off.
Qed.

Lemma node_ancestor a p q :
  g_nodes G !! a = Some (p ++ q) -> exists b, g_nodes G !! b = Some p.
Proof.
  revert a. induction q as [|i q IH] using rev_ind; intros a H.
  - rewrite app_nil_r in H. eauto.
  - rewrite app_assoc in H. destruct (node_link _ _ _ H) as (b & _ & Hb & _). eauto.
Qed.

(** Two nodes reached by the same slots are one node. *)
Lemma node_path_inj p : forall a a',
  g_nodes G !! a = Some p -> g_nodes G !! a' = Some p -> a = a'.
Proof.
  induction p as [|i p IH] using rev_ind; intros a a' H H'.
  - destruct (inv_nodes _ _ _ HI _ _ H) as (n & _ & _ & _ & _ & _ & _ & [Hp _] & _).
    destruct (inv_nodes _ _ _ HI _ _ H') as (n' & _ & _ & _ & _ & _ & _ & [Hp' _] & _).
    destruct (Hp eq_refl) as [_ ->]. by destruct (Hp' eq_refl) as [_ ->].
  - destruct (node_link _ _ _ H) as (b & nb & Hb & Hnb & Hs & _).
    destruct (node_link _ _ _ H') as (b' & nb' & Hb' & Hnb' & Hs' & _).
    assert (b' = b) as -> by (by eapply IH).
    assert (THMAP_GETOFF th a = THMAP_GETOFF th a') as E by congruence.
    destruct (inv_nodes _ _ _ HI _ _ H) as (_ & _ & Ha & _).
    destruct (inv_nodes _ _ _ HI _ _ H') as (_ & _ & Ha' & _).
    rewrite <- (addr_ok_ptr a), <- (addr_ok_ptr a') by done. by rewrite E.
Qed.

(** The nodes are finitely many: their levels are bounded. *)
Lemma depth_bound (N : gmap Z (list Z)) :
  exists D : nat, forall a p, N !! a = Some p -> (length p < D)%nat.
Proof.
  induction N as [|a p N Hfresh _ [D IH]] using map_first_key_ind.
  - exists O. intros a p H. by rewrite lookup_empty in H.
  - exists (max D (S (length p))). intros a' p' H.
    rewrite lookup_insert in H. case_decide; simplify_eq; [lia|].
    specialize (IH _ _ H). lia.
Qed.

(** *** The edge node of a key

    [edge_of kb a d n v]: the node at [a] lies on the path of [kb] at
    level [d], and its slot for [kb] holds [v], which is empty or a
    leaf. *)
Definition edge_of (kb : list Z) (a : Z) (d : nat) (n : thmap_inode_t) (v : Z) : Prop :=
  g_nodes G !! a = Some (kpath kb d) /\ inode_at (mem s) a = Some n /\
  slots n !! Z.to_nat (kslot kb (Z.of_nat d)) = Some v /\
  (v = 0 \/ THMAP_INODE_P v = false).

Lemma slot_in_range a p n kb :
  g_nodes G !! a = Some p -> inode_at (mem s) a = Some n ->
  exists v, slots n !! Z.to_nat (kslot kb (Z.of_nat (length p))) = Some v.
Proof.
  intros H Hn. destruct (node_cell _ _ H) as (n' & Hn' & Hlen).
  assert (n' = n) as -> by congruence.
  apply lookup_lt_is_Some. pose proof (kslot_range kb (Z.of_nat (length p))). lia.
Qed.

Lemma find_edge_loop_run (k klen : Z) (kb : list Z) (D : nat) :
  key_at (mem s) k klen kb ->
  (forall a p, g_nodes G !! a = Some p -> (length p < D)%nat) ->
  forall (fuel d : nat) (a : Z) (n : thmap_inode_t) (v : Z),
    (D - d <= fuel)%nat ->
    g_nodes G !! a = Some (kpath kb d) -> inode_at (mem s) a = Some n ->
    slots n !! Z.to_nat (kslot kb (Z.of_nat d)) = Some v ->
    exists a' d' n' v',
      find_edge_loop fuel th (query_at kb (Z.of_nat d)) k klen a v (kslot kb (Z.of_nat d)) s =
        Ok (a', kslot kb (Z.of_nat d'), query_at kb (Z.of_nat d')) s /\
      edge_of kb a' d' n' v'.
Proof.
  intros Hk HD.
  induction fuel as [|fuel IH]; intros d a n v Hf Ha Hn Hv.
  - specialize (HD _ _ Ha). rewrite kpath_length in HD. lia.
  - simpl. destruct (negb (v =? 0) && THMAP_INODE_P v) eqn:Ev.
    + apply andb_true_iff in Ev as [Ev1 Ev2].
      apply negb_true_iff, Z.eqb_neq in Ev1.
      destruct (inv_nodes _ _ _ HI _ _ Ha) as (n0 & Hn0 & _ & _ & _ & _ & _ & _ & Hsl).
      assert (n0 = n) as -> by congruence.
      specialize (Hsl _ _ Hv Ev1). unfold slot_ok in Hsl. rewrite Ev2 in Hsl.
      destruct Hsl as [Hoff Hc].
      rewrite Z2Nat.id in Hc by (pose proof (kslot_range kb (Z.of_nat d)); lia).
      rewrite <- kpath_S in Hc.
      destruct (inv_nodes _ _ _ HI _ _ Hc) as (nc & Hnc & _ & _ & Hlv & _).
      rewrite kpath_length in Hlv.
      assert (u32 (Z.of_nat d + 1) = Z.of_nat (S d)) as El.
      { unfold u32. rewrite Z.mod_small; lia. }
      rewrite El.
      assert (cache_ok (mk_query (Z.of_nat (S d)) (hash_index (Z.of_nat d))
                (hash32 kb (hash_index (Z.of_nat d)))) kb) as Hq by (by right).
      rewrite (bind_run _ _ _ _ _ (hashval_getslot_run _ _ _ _ _ Hk Hq)). simpl.
      unfold THMAP_NODE. rewrite align_off by done.
      destruct (slot_in_range _ _ _ kb Hc Hnc) as [v' Hv'].
      rewrite kpath_length in Hv'.
      rewrite (bind_run _ _ _ _ _ (load_slot_run _ _ _ _ _ Hnc Hv')).
      apply (IH (S d) _ nc v'); try done. lia.
    + exists a, d, n, v. split; [done|]. repeat split; try done.
      apply andb_false_iff in Ev as [Ev|Ev]; [left|by right].
      by apply negb_false_iff, Z.eqb_eq in Ev.
Qed.

Lemma find_edge_node_run (k klen : Z) (kb : list Z) :
  key_at (mem s) k klen kb ->
  exists D : nat, forall fuel, (D <= fuel)%nat ->
    exists a d n v,
      find_edge_node fuel th (THMAP_QUERY_INIT 0) k klen s =
        Ok (a, kslot kb (Z.of_nat d), query_at kb (Z.of_nat d)) s /\
      edge_of kb a d n v.
Proof.
  intros Hk. destruct (depth_bound (g_nodes G)) as [D HD].
  exists D. intros fuel Hf. unfold find_edge_node.
  rewrite (bind_run _ _ _ _ _ (assert_run _ _ eq_refl)).
  rewrite (bind_run _ _ _ _ _ (hashval_getslot_run _ _ _ _ _ Hk (cache_ok_init kb 0))).
  simpl.
  pose proof (inv_root _ _ _ HI) as Hr.
  destruct (node_cell _ _ Hr) as (n & Hn & _).
  destruct (slot_in_range _ _ _ kb Hr Hn) as [v Hv]. simpl in Hv.
  rewrite (bind_run _ _ _ _ _ (load_slot_run _ _ _ _ _ Hn Hv)).
  apply (find_edge_loop_run k klen kb D Hk HD fuel O _ n v); try done. lia.
Qed.

Lemma ent_key_at kb e :
  g_ents G !! kb = Some e ->
  key_at (mem s) (THMAP_GETPTR th (e_key e)) (Z.of_nat (length kb)) kb.
Proof.
  intros H. destruct (inv_ents _ _ _ HI _ _ H) as (_ & _ & _ & Hkey & _).
  destruct (nocopy th); [by destruct Hkey|].
  destruct Hkey as [_ Hb]. exists kb. split; [done|]. split; [lia|].
  by rewrite Nat2Z.id, firstn_all.
Qed.

Lemma ent_same_leaf kb e kb' e' :
  g_ents G !! kb = Some e -> g_ents G !! kb' = Some e' -> e_off e = e_off e' -> kb = kb'.
Proof.
  intros H H' E. pose proof (ent_key_at _ _ H) as K. pose proof (ent_key_at _ _ H') as K'.
  destruct (inv_ents _ _ _ HI _ _ H) as (_ & _ & Hl & _).
  destruct (inv_ents _ _ _ HI _ _ H') as (_ & _ & Hl' & _).
  rewrite E in Hl. rewrite Hl' in Hl. injection Hl as Ek El _.
  rewrite Ek, El in K'. by eapply key_at_fun.
Qed.

(** The leaf of a key sits in the slot of its edge node. *)
Lemma edge_entry kb a d n v e :
  edge_of kb a d n v -> g_ents G !! kb = Some e ->
  e_depth e = d /\ v = Z.lor (e_off e) THMAP_LEAF_BIT.
Proof.
  intros (Ha & Hn & Hv & Hedge) He.
  destruct (inv_ents _ _ _ HI _ _ He) as (Hoff & _ & _ & _ & (b & nb & Hb & Hnb & Hsb)).
  destruct (Nat.lt_trichotomy d (e_depth e)) as [Hlt|[Heq|Hgt]].
  - exfalso. destruct (kpath_add kb (S d) (e_depth e - S d)) as [t Ht].
    replace (S d + (e_depth e - S d))%nat with (e_depth e) in Ht by lia.
    rewrite Ht in Hb. destruct (node_ancestor _ _ _ Hb) as [c Hc].
    rewrite kpath_S in Hc.
    destruct (node_link _ _ _ Hc) as (a' & n' & Ha' & Hn' & Hs' & Hnz & Hip).
    assert (a' = a) as -> by (by eapply node_path_inj).
    assert (n' = n) as -> by congruence.
    rewrite Hv in Hs'. injection Hs' as ->. destruct Hedge; congruence.
  - subst d. assert (b = a) as -> by (by eapply node_path_inj).
    assert (nb = n) as -> by congruence. split; [done|congruence].
  - exfalso. destruct (kpath_add kb (S (e_depth e)) (d - S (e_depth e))) as [t Ht].
    replace (S (e_depth e) + (d - S (e_depth e)))%nat with d in Ht by lia.
    rewrite Ht in Ha. destruct (node_ancestor _ _ _ Ha) as [c Hc].
    rewrite kpath_S in Hc.
    destruct (node_link _ _ _ Hc) as (a' & n' & Ha' & Hn' & Hs' & Hnz & Hip).
    assert (a' = b) as -> by (by eapply node_path_inj).
    assert (n' = nb) as -> by congruence.
    rewrite Hsb in Hs'. injection Hs' as E. rewrite <- E in Hip.
    destruct Hoff as [_ Hal]. rewrite inode_p_leaf in Hip by done. done.
Qed.

(** What the slot of the edge node holds: nothing, the leaf of the key,
    or the leaf of another key with the same slots so far. *)
Inductive edge_case (kb : list Z) (d : nat) (v : Z) : Prop :=
| edge_empty : v = 0 -> g_ents G !! kb = None -> edge_case kb d v
| edge_same e :
    g_ents G !! kb = Some e -> v = Z.lor (e_off e) THMAP_LEAF_BIT -> e_depth e = d ->
    edge_case kb d v
| edge_other kb' e' :
    kb' <> kb -> g_ents G !! kb = None -> g_ents G !! kb' = Some e' ->
    v = Z.lor (e_off e') THMAP_LEAF_BIT -> e_depth e' = d ->
    kpath kb' (S d) = kpath kb (S d) ->
    edge_case kb d v.

Lemma edge_cases kb a d n v : edge_of kb a d n v -> edge_case kb d v.
Proof.
  intros He. pose proof He as (Ha & Hn & Hv & Hedge).
  destruct (decide (v = 0)) as [->|Hnz].
  - apply edge_empty; [done|]. destruct (g_ents G !! kb) as [e|] eqn:E; [|done].
    destruct (edge_entry _ _ _ _ _ _ He E) as [_ Hc].
    destruct (inv_ents _ _ _ HI _ _ E) as (Hoff & _).
    symmetry in Hc. by apply leaf_tag_nonzero in Hc.
  - destruct Hedge as [|Hip]; [done|].
    destruct (inv_nodes _ _ _ HI _ _ Ha) as (n0 & Hn0 & _ & _ & _ & _ & _ & _ & Hsl).
    assert (n0 = n) as -> by congruence.
    specialize (Hsl _ _ Hv Hnz). unfold slot_ok in Hsl. rewrite Hip in Hsl.
    destruct Hsl as (kb' & e' & He' & Hv' & Hd' & Hp').
    rewrite kpath_length in Hd', Hp'.
    rewrite Z2Nat.id in Hp' by (pose proof (kslot_range kb (Z.of_nat d)); lia).
    rewrite <- kpath_S in Hp'.
    destruct (decide (kb' = kb)) as [->|Hne]; [by eapply edge_same|].
    eapply edge_other; try done.
    destruct (g_ents G !! kb) as [e|] eqn:E; [|done].
    destruct (edge_entry _ _ _ _ _ _ He E) as [_ Hc].
    destruct (inv_ents _ _ _ HI _ _ E) as (Hoff & _).
    destruct (inv_ents _ _ _ HI _ _ He') as (Hoff' & _).
    rewrite Hv' in Hc. apply leaf_tag_inj in Hc; [|done..].
    exfalso. apply Hne. by eapply ent_same_leaf.
Qed.

Lemma key_cmp_p_run (k klen : Z) (kb kb' : list Z) (e' : entry) :
  key_at (mem s) k klen kb -> g_ents G !! kb' = Some e' ->
  key_cmp_p th (THMAP_GETPTR th (e_off e')) k klen s = Ok (bool_decide (kb = kb')) s.
Proof.
  intros Hk He'. pose proof (ent_key_at _ _ He') as K.
  destruct (inv_ents _ _ _ HI _ _ He') as (_ & _ & Hl & _).
  unfold key_cmp_p. rewrite (bind_run _ _ _ _ _ (load_leaf_run _ _ _ Hl)). simpl.
  pose proof (key_at_length _ _ _ _ Hk) as Hlen.
  destruct (klen =? Z.of_nat (length kb')) eqn:E.
  - apply Z.eqb_eq in E. rewrite <- E in K.
    rewrite (bind_run _ _ _ _ _ (load_bytes_run _ _ _ _ Hk)).
    by rewrite (bind_run _ _ _ _ _ (load_bytes_run _ _ _ _ K)).
  - apply Z.eqb_neq in E. rewrite ret_run. f_equal.
    symmetry. apply bool_decide_eq_false. intros ->. lia.
Qed.

Lemma leaf_ptr_of_entry kb e :
  g_ents G !! kb = Some e ->
  THMAP_NODE th (Z.lor (e_off e) THMAP_LEAF_BIT) = THMAP_GETPTR th (e_off e) /\
  THMAP_INODE_P (Z.lor (e_off e) THMAP_LEAF_BIT) = false /\
  THMAP_GETPTR th (e_off e) <> 0.
Proof.
  intros H. destruct (inv_ents _ _ _ HI _ _ H) as (Hoff & Hnz & _).
  unfold THMAP_NODE. rewrite align_leaf by done. split; [done|].
  split; [|done]. apply inode_p_leaf. by destruct Hoff.
Qed.

(** [thmap_get] returns the value of the entry of the key, or NULL
    when there is none, and changes nothing. *)
Lemma thmap_get_run (k klen : Z) (kb : list Z) :
  key_at (mem s) k klen kb ->
  exists D : nat, forall fuel, (D <= fuel)%nat ->
    thmap_get fuel th k klen s =
      Ok (match g_ents G !! kb with Some e => e_val e | None => 0 end) s.
Proof.
  intros Hk. destruct (find_edge_node_run k klen kb Hk) as [D HD].
  exists D. intros fuel Hf. destruct (HD fuel Hf) as (a & d & n & v & Hrun & He).
  unfold thmap_get. rewrite (bind_run _ _ _ _ _ Hrun). cbv beta iota.
  pose proof He as (Ha & Hn & Hv & _).
  rewrite (bind_run _ _ _ _ _ (get_leaf_run _ _ _ _ _ _ Hn Hv)).
  destruct (edge_cases _ _ _ _ _ He) as [-> Hnone | e Hsome -> _ | kb' e' Hne Hnone He' -> _ _].
  - rewrite Hnone. reflexivity.
  - destruct (leaf_ptr_of_entry _ _ Hsome) as (-> & -> & Hnz).
    apply Z.eqb_neq in Hnz. rewrite Hnz.
    rewrite (bind_run _ _ _ _ _ (key_cmp_p_run _ _ _ _ _ Hk Hsome)).
    rewrite bool_decide_eq_true_2 by done. cbn [negb].
    destruct (inv_ents _ _ _ HI _ _ Hsome) as (_ & _ & Hl & _).
    rewrite (bind_run _ _ _ _ _ (load_leaf_run _ _ _ Hl)). by rewrite Hsome.
  - destruct (leaf_ptr_of_entry _ _ He') as (-> & -> & Hnz).
    apply Z.eqb_neq in Hnz. rewrite Hnz.
    rewrite (bind_run _ _ _ _ _ (key_cmp_p_run _ _ _ _ _ Hk He')).
    rewrite bool_decide_eq_false_2 by done. cbn [negb]. by rewrite Hnone.
Qed.

End Derived.

(** *** How the invariant moves

    An address that the map does not refer to: no node, no leaf or key
    of an entry, nothing staged. *)
Definition unref (G : ghost) (gcl : list thmap_gc_t) (x : Z) : Prop :=
  g_nodes G !! x = None /\
  (forall kb e, g_ents G !! kb = Some e ->
     x <> THMAP_GETPTR th (e_off e) /\ x <> THMAP_GETPTR th (e_key e)) /\
  (forall g, g ∈ gcl -> x <> THMAP_GETPTR th (addr g)).

Lemma key_at_is_Some m p n kb : key_at m p n kb -> is_Some (m !! p).
Proof. intros (bs & H%bytes_at_lookup & _). eauto. Qed.

Lemma ent_key_cell lk G s kb e :
  Inv lk G s -> g_ents G !! kb = Some e ->
  exists bs, bytes_at (mem s) (THMAP_GETPTR th (e_key e)) = Some bs.
Proof.
  intros HI H. destruct (ent_key_at _ _ _ HI _ _ H) as (bs & Hb & _). eauto.
Qed.

Lemma unref_fresh lk G s x :
  Inv lk G s -> mem s !! x = None -> unref G (gc_list s) x.
Proof.
  intros HI Hx. split; [|split].
  - destruct (g_nodes G !! x) as [p|] eqn:E; [|done].
    destruct (inv_nodes _ _ _ HI _ _ E) as (n & Hn%inode_at_lookup & _). congruence.
  - intros kb e He. destruct (inv_ents _ _ _ HI _ _ He) as (_ & _ & Hl%leaf_at_lookup & _).
    destruct (ent_key_cell _ _ _ _ _ HI He) as [bs Hb%bytes_at_lookup].
    split; intros ->; congruence.
  - intros g Hg. destruct (inv_gc _ _ _ HI) as [_ Hgc].
    destruct (Hgc g Hg) as (_ & (c & Hc & _) & _). intros ->. congruence.
Qed.

Lemma node_ok_mono m m' G G' lk lk' b p :
  node_ok m G lk b p ->
  inode_at m' b = inode_at m b ->
  (b ∈ lk' <-> b ∈ lk) ->
  (forall p' i0 b0 nb, p = p' ++ [i0] -> g_nodes G !! b0 = Some p' ->
     inode_at m b0 = Some nb -> slots nb !! Z.to_nat i0 = Some (THMAP_GETOFF th b) ->
     g_nodes G' !! b0 = Some p' /\
     exists nb', inode_at m' b0 = Some nb' /\
                 slots nb' !! Z.to_nat i0 = Some (THMAP_GETOFF th b)) ->
  (forall n j v, inode_at m b = Some n -> slots n !! j = Some v -> v <> 0 ->
     slot_ok G p j v -> slot_ok G' p j v) ->
  node_ok m' G' lk' b p.
Proof.
  intros (n & Hn & Ha & Hlen & Hlv & Hst & Hcnt & [Hp0 Hp] & Hsl) Hm Hlk Hpar Hslot.
  exists n. split; [by rewrite Hm|]. do 3 (split; [done|]).
  split. { rewrite Hst. repeat case_decide; tauto. }
  split. { intros Hne Hnl. apply Hcnt; tauto. }
  split.
  { split; [done|]. intros p' i0 ->.
    destruct (Hp p' i0 eq_refl) as (b0 & nb & Hb0 & Hpn & Hnb & Hs).
    destruct (Hpar _ _ _ _ eq_refl Hb0 Hnb Hs) as (Hb0' & nb' & Hnb' & Hs').
    by exists b0, nb'. }
  intros j v Hj Hv. eapply Hslot; eauto.
Qed.

Lemma ent_ok_mono m m' G G' kb e :
  ent_ok m G kb e ->
  leaf_at m' (THMAP_GETPTR th (e_off e)) = leaf_at m (THMAP_GETPTR th (e_off e)) ->
  bytes_at m' (THMAP_GETPTR th (e_key e)) = bytes_at m (THMAP_GETPTR th (e_key e)) ->
  (forall a n, g_nodes G !! a = Some (kpath kb (e_depth e)) -> inode_at m a = Some n ->
     slots n !! Z.to_nat (kslot kb (Z.of_nat (e_depth e))) =
       Some (Z.lor (e_off e) THMAP_LEAF_BIT) ->
     g_nodes G' !! a = Some (kpath kb (e_depth e)) /\
     exists n', inode_at m' a = Some n' /\
       slots n' !! Z.to_nat (kslot kb (Z.of_nat (e_depth e))) =
         Some (Z.lor (e_off e) THMAP_LEAF_BIT)) ->
  ent_ok m' G' kb e.
Proof.
  intros (Hoff & Hnz & Hl & Hkey & (a & n & Ha & Hn & Hs)) Hlm Hbm Hpos.
  do 2 (split; [done|]). split; [by rewrite Hlm|]. split.
  - destruct (nocopy th).
    + destruct Hkey as [? (bs & ? & ?)]. split; [done|]. exists bs. by rewrite Hbm.
    + by rewrite Hbm.
  - destruct (Hpos _ _ Ha Hn Hs) as (Ha' & n' & Hn' & Hs'). by exists a, n'.
Qed.

(** A cell that the map does not refer to may change, appear or go. *)
Lemma Inv_frame lk G s s' x :
  Inv lk G s ->
  unref G (gc_list s) x ->
  (forall y, y <> x -> mem s' !! y = mem s !! y) ->
  gc_list s' = gc_list s ->
  covers (ast s') (dom (mem s')) ->
  Inv lk G s'.
Proof.
  intros HI (Hxn & Hxe & Hxg) Hm Hg Hc.
  assert (forall y, y <> x -> inode_at (mem s') y = inode_at (mem s) y) as Hin.
  { intros y Hy. unfold inode_at. by rewrite Hm. }
  assert (forall y, y <> x -> leaf_at (mem s') y = leaf_at (mem s) y) as Hlf.
  { intros y Hy. unfold leaf_at. by rewrite Hm. }
  assert (forall y, y <> x -> bytes_at (mem s') y = bytes_at (mem s) y) as Hby.
  { intros y Hy. unfold bytes_at. by rewrite Hm. }
  assert (forall y p, g_nodes G !! y = Some p -> y <> x) as Hnx.
  { intros y p Hy ->. congruence. }
  split; try (by destruct HI).
  - intros a p Ha. eapply node_ok_mono; [by eapply inv_nodes| |done| |done].
    + apply Hin. by eapply Hnx.
    + intros p' i0 b0 nb _ Hb0 Hnb Hs. split; [done|]. exists nb. split; [|done].
      rewrite Hin; [done|]. by eapply Hnx.
  - intros kb e He. destruct (Hxe _ _ He) as [H1 H2].
    eapply ent_ok_mono; [by eapply inv_ents| | |].
    + by apply Hlf.
    + by apply Hby.
    + intros a n Ha Hn Hs. split; [done|]. exists n. split; [|done].
      rewrite Hin; [done|]. by eapply Hnx.
  - rewrite Hg. destruct (inv_gc _ _ _ HI) as [Hnd Hgc]. split; [done|].
    intros g Hgin. destruct (Hgc g Hgin) as (Hr & (c & Hcl & Hk) & Hrest).
    split; [done|]. split; [|done]. exists c. split; [|done].
    rewrite Hm; [done|]. intros E. by apply (Hxg g Hgin).
Qed.

(** Rewriting the node at [a] with another value in its slot [i]
    keeps what the other slots and the other nodes hold. *)
Lemma link_kept m a n n' i v' b0 nb j w :
  inode_at m a = Some n ->
  slots n' = <[i := v']> (slots n) ->
  inode_at m b0 = Some nb -> slots nb !! j = Some w ->
  (b0 = a -> j <> i) ->
  exists nb', inode_at (<[a := CInode n']> m) b0 = Some nb' /\ slots nb' !! j = Some w.
Proof.
  intros Hn Hs Hnb Hj Hne. destruct (decide (b0 = a)) as [->|Hb].
  - exists n'. rewrite inode_at_insert_eq. split; [done|].
    rewrite Hs, list_lookup_insert_ne by (intros E; by apply Hne).
    congruence.
  - exists nb. by rewrite inode_at_insert_ne.
Qed.

(** Locking or unlocking a node. *)
Lemma Inv_restate lk lk' G s a p n w l' :
  Inv lk G s -> g_nodes G !! a = Some p -> inode_at (mem s) a = Some n ->
  (forall b, b <> a -> (b ∈ lk' <-> b ∈ lk)) ->
  w = count_nz (slots n) + (if decide (a ∈ lk') then NODE_LOCKED else 0) ->
  (p <> [] -> a ∉ lk' -> 0 < count_nz (slots n)) ->
  Inv lk' G (mk_st (<[a := CInode (mk_inode w (parent n) (slots n))]> (mem s))
               (ast s) (gc_list s) l').
Proof.
  intros HI Ha Hn Hlk Hw Hcnt.
  set (n' := mk_inode w (parent n) (slots n)).
  split; simpl; try (by destruct HI).
  - intros b q Hb. destruct (decide (b = a)) as [->|Hne].
    + assert (q = p) as -> by congruence.
      destruct (inv_nodes _ _ _ HI _ _ Ha) as (n0 & Hn0 & Haddr & Hlen & Hlv & Hst & Hc & [Hp0 Hp] & Hs).
      assert (n0 = n) as -> by congruence.
      exists n'. rewrite inode_at_insert_eq. do 4 (split; [done|]).
      split; [done|]. split; [done|]. split; [|done].
      split; [done|]. intros p' i0 ->.
      destruct (Hp p' i0 eq_refl) as (b0 & nb & Hb0 & Hpn & Hnb & Hsb).
      assert (b0 <> a) as Hb0a.
      { intros ->. rewrite Ha in Hb0. injection Hb0 as E.
        apply (f_equal length) in E. rewrite length_app in E. simpl in E. lia. }
      exists b0, nb. by rewrite inode_at_insert_ne.
    + eapply node_ok_mono; [by eapply inv_nodes| | | |done].
      * by rewrite inode_at_insert_ne.
      * by apply Hlk.
      * intros p' i0 b0 nb _ Hb0 Hnb Hsb. split; [done|].
        destruct (decide (b0 = a)) as [->|Hb0a].
        -- exists n'. rewrite inode_at_insert_eq. split; [done|]. simpl. congruence.
        -- exists nb. by rewrite inode_at_insert_ne.
  - intros kb e He. eapply ent_ok_mono; [by eapply inv_ents| | |].
    + by erewrite leaf_at_insert_inode.
    + by erewrite bytes_at_insert_inode.
    + intros b nb Hb Hnb Hsb. split; [done|].
      destruct (decide (b = a)) as [->|Hba].
      * exists n'. rewrite inode_at_insert_eq. split; [done|]. simpl. congruence.
      * exists nb. by rewrite inode_at_insert_ne.
  - destruct (inv_gc _ _ _ HI) as [Hnd Hgc]. split; [done|].
    intros g Hg. destruct (Hgc g Hg) as (Hr & (c & Hc & Hk) & Hnn & He).
    split; [done|]. split; [|done]. exists c. split; [|done].
    rewrite lookup_insert_ne; [done|]. intros ->. congruence.
  - erewrite dom_insert_inode by done. by destruct HI.
  - intros b Hb. destruct (decide (b = a)) as [->|Hne]; [eauto|].
    eapply inv_lk; [done|]. by apply Hlk.
Qed.

Lemma slot_ok_transfer G G' p j v :
  slot_ok G p j v ->
  (THMAP_INODE_P v = true -> g_nodes G !! THMAP_GETPTR th v = Some (p ++ [Z.of_nat j]) ->
   g_nodes G' !! THMAP_GETPTR th v = Some (p ++ [Z.of_nat j])) ->
  (forall kb e, THMAP_INODE_P v = false -> g_ents G !! kb = Some e ->
     v = Z.lor (e_off e) THMAP_LEAF_BIT -> e_depth e = length p ->
     kpath kb (S (length p)) = p ++ [Z.of_nat j] -> g_ents G' !! kb = Some e) ->
  slot_ok G' p j v.
Proof.
  unfold slot_ok. intros H Hn He. destruct (THMAP_INODE_P v).
  - destruct H as [? ?]. split; [done|]. by apply Hn.
  - destruct H as (kb & e & H1 & H2 & H3 & H4). exists kb, e.
    split; [by eapply He|done].
Qed.

Lemma node_not_parent lk G s a p p' i0 :
  Inv lk G s -> g_nodes G !! a = Some p -> p = p' ++ [i0] -> g_nodes G !! a <> Some p'.
Proof.
  intros _ Ha -> E. rewrite Ha in E. injection E as E.
  apply (f_equal length) in E. rewrite length_app in E. simpl in E. lia.
Qed.

(** A leaf goes into an empty slot of a locked node. *)
Lemma Inv_insert_leaf lk G s a d n kb lo ko v w l' :
  Inv lk G s -> a ∈ lk ->
  g_nodes G !! a = Some (kpath kb d) -> inode_at (mem s) a = Some n ->
  slots n !! Z.to_nat (kslot kb (Z.of_nat d)) = Some 0 ->
  g_ents G !! kb = None ->
  off_ok lo -> THMAP_GETPTR th lo <> 0 ->
  leaf_at (mem s) (THMAP_GETPTR th lo) = Some (mk_leaf ko (Z.of_nat (length kb)) v) ->
  (if nocopy th
   then 0 <= ko < 2 ^ 64 /\ key_at (mem s) (THMAP_GETPTR th ko) (Z.of_nat (length kb)) kb
   else off_ok ko /\ bytes_at (mem s) (THMAP_GETPTR th ko) = Some kb) ->
  (forall g, g ∈ gc_list s -> addr g <> lo /\ (nocopy th = false -> addr g <> ko)) ->
  w = state n + 1 ->
  Inv lk (mk_ghost (g_nodes G) (<[kb := mk_entry lo ko v d]> (g_ents G)))
    (mk_st (<[a := CInode (mk_inode w (parent n)
                     (<[Z.to_nat (kslot kb (Z.of_nat d)) := Z.lor lo THMAP_LEAF_BIT]> (slots n)))]>
              (mem s)) (ast s) (gc_list s) l').
Proof.
  intros HI Hlk Ha Hn Hs0 Hnone Hlo Hlonz Hleaf Hkey Hgc Hw.
  set (i := Z.to_nat (kslot kb (Z.of_nat d))) in *.
  set (n' := mk_inode w (parent n) (<[i := Z.lor lo THMAP_LEAF_BIT]> (slots n))).
  set (G' := mk_ghost (g_nodes G) (<[kb := mk_entry lo ko v d]> (g_ents G))).
  assert (forall kb' e, g_ents G !! kb' = Some e -> g_ents G' !! kb' = Some e) as Hents.
  { intros kb' e He. simpl. rewrite lookup_insert_ne; [done|]. intros <-. congruence. }
  assert (forall p j v0, slot_ok G p j v0 -> slot_ok G' p j v0) as Hslot.
  { intros p j v0 H. eapply slot_ok_transfer; eauto. }
  assert (Z.of_nat i = kslot kb (Z.of_nat d)) as Hi.
  { unfold i. pose proof (kslot_range kb (Z.of_nat d)). lia. }
  split; simpl; try (by destruct HI).
  - intros b q Hb. destruct (decide (b = a)) as [->|Hne].
    + assert (q = kpath kb d) as -> by congruence.
      destruct (inv_nodes _ _ _ HI _ _ Ha)
        as (n0 & Hn0 & Haddr & Hlen & Hlv & Hst & Hc & [Hp0 Hp] & Hs).
      assert (n0 = n) as -> by congruence.
      pose proof (count_nz_insert _ _ _ (Z.lor lo THMAP_LEAF_BIT) Hs0) as Hcnt.
      pose proof (leaf_tag_nonzero _ Hlo) as Hnz.
      pose proof (count_nz_bounds (slots n)) as Hcb.
      rewrite decide_True in Hcnt by done. rewrite decide_False in Hcnt by done.
      rewrite decide_True in Hst by done.
      exists n'. rewrite inode_at_insert_eq. split; [done|]. split; [done|].
      split; [by simpl; rewrite length_insert|]. split; [done|].
      split. { simpl. rewrite decide_True by done. lia. }
      split. { intros _ _. simpl. lia. }
      split.
      { split; [done|]. intros p' i0 Hq.
        destruct (Hp p' i0 Hq) as (b0 & nb & Hb0 & Hpn & Hnb & Hsb).
        exists b0, nb. rewrite inode_at_insert_ne; [done|].
        intros ->. exact (node_not_parent _ _ _ _ _ _ _ HI Ha Hq Hb0). }
      intros j v0 Hj Hv0. simpl in Hj.
      destruct (decide (j = i)) as [->|Hji].
      * rewrite list_lookup_insert_eq in Hj by (by eapply lookup_lt_Some).
        injection Hj as <-. unfold slot_ok. rewrite inode_p_leaf by (by destruct Hlo).
        exists kb, (mk_entry lo ko v d). simpl. rewrite lookup_insert_eq.
        rewrite kpath_length. rewrite kpath_S, Hi. done.
      * rewrite list_lookup_insert_ne in Hj by done. apply Hslot. by eapply Hs.
    + eapply node_ok_mono; [by eapply inv_nodes| |done| |].
      * by rewrite inode_at_insert_ne.
      * intros p' i0 b0 nb _ Hb0 Hnb Hsb. split; [done|].
        eapply link_kept; try done. intros -> E.
        assert (nb = n) as -> by congruence. rewrite E in Hsb.
        rewrite Hs0 in Hsb. injection Hsb as Hsb.
        destruct (inv_nodes _ _ _ HI _ _ Hb) as (_ & _ & (_ & _ & [? _]) & _). lia.
      * intros n0 j v0 _ _ _ H. by apply Hslot.
  - intros kb' e He. rewrite lookup_insert in He. case_decide as Hk.
    + subst kb'. injection He as <-. simpl.
      do 2 (split; [done|]). split; [by erewrite leaf_at_insert_inode|].
      split.
      * simpl. destruct (nocopy th).
        -- destruct Hkey as [? ?]. split; [done|]. by erewrite key_at_insert_inode.
        -- destruct Hkey as [? ?]. split; [done|]. by erewrite bytes_at_insert_inode.
      * simpl. exists a, n'. rewrite inode_at_insert_eq. do 2 (split; [done|]).
        simpl. apply list_lookup_insert_eq. by eapply lookup_lt_Some.
    + eapply ent_ok_mono; [by eapply inv_ents| | |].
      * by erewrite leaf_at_insert_inode.
      * by erewrite bytes_at_insert_inode.
      * intros b nb Hb Hnb Hsb. split; [done|].
        eapply link_kept; try done. intros -> E.
        assert (nb = n) as -> by congruence. fold i in Hs0. rewrite E in Hsb.
        rewrite Hs0 in Hsb. injection Hsb as Hsb.
        destruct (inv_ents _ _ _ HI _ _ He) as (Hoff & _).
        symmetry in Hsb. by apply leaf_tag_nonzero in Hsb.
  - destruct (inv_gc _ _ _ HI) as [Hnd Hg]. split; [done|].
    intros g Hgin. destruct (Hg g Hgin) as (Hr & (c & Hc & Hk) & Hnn & He).
    split; [done|]. split.
    { exists c. split; [|done]. rewrite lookup_insert_ne; [done|]. intros ->. congruence. }
    split; [done|]. intros kb' e He'. simpl in He'. rewrite lookup_insert in He'. case_decide.
    + injection He' as <-. simpl. by apply Hgc.
    + by eapply He.
  - erewrite dom_insert_inode by done. by destruct HI.
Qed.

Lemma app_single_inj (p q : list Z) (i j : Z) : p ++ [i] = q ++ [j] -> p = q /\ i = j.
Proof. intros H. apply app_inj_tail in H. done. Qed.

(** The leaf of an entry leaves its slot in a locked node. *)
Lemma Inv_remove_leaf lk G s a n kb e w l' :
  Inv lk G s -> a ∈ lk ->
  g_ents G !! kb = Some e ->
  g_nodes G !! a = Some (kpath kb (e_depth e)) -> inode_at (mem s) a = Some n ->
  w = state n - 1 ->
  Inv lk (mk_ghost (g_nodes G) (delete kb (g_ents G)))
    (mk_st (<[a := CInode (mk_inode w (parent n)
                     (<[Z.to_nat (kslot kb (Z.of_nat (e_depth e))) := 0]> (slots n)))]>
              (mem s)) (ast s) (gc_list s) l').
Proof.
  intros HI Hlk He Ha Hn Hw.
  set (d := e_depth e) in *.
  set (i := Z.to_nat (kslot kb (Z.of_nat d))) in *.
  set (n' := mk_inode w (parent n) (<[i := 0]> (slots n))).
  set (G' := mk_ghost (g_nodes G) (delete kb (g_ents G))).
  assert (Z.of_nat i = kslot kb (Z.of_nat d)) as Hi.
  { unfold i. pose proof (kslot_range kb (Z.of_nat d)). lia. }
  assert (slots n !! i = Some (Z.lor (e_off e) THMAP_LEAF_BIT)) as Hsi.
  { destruct (inv_ents _ _ _ HI _ _ He) as (_ & _ & _ & _ & (b & nb & Hb & Hnb & Hsb)).
    assert (b = a) as -> by (by eapply node_path_inj).
    assert (nb = n) as -> by congruence. exact Hsb. }
  destruct (inv_ents _ _ _ HI _ _ He) as (Hoff & _).
  pose proof (leaf_tag_nonzero _ Hoff) as Hnz.
  assert (forall b q j v0, g_nodes G !! b = Some q -> (b = a -> j <> i) ->
            slot_ok G q j v0 -> slot_ok G' q j v0) as Hslot.
  { intros b q j v0 Hb Hne H. eapply slot_ok_transfer; [done|done|].
    intros kb' e' _ He' Hv0 Hd' Hp'. simpl. rewrite lookup_delete_ne; [done|].
    intros <-. assert (e' = e) as -> by congruence.
    rewrite kpath_S in Hp'. apply app_single_inj in Hp' as [Hq Hj].
    rewrite <- Hd' in Hq, Hj. fold d in Hq, Hj. subst q.
    assert (b = a) by (by eapply node_path_inj). apply Hne; [done|]. lia. }
  split; simpl; try (by destruct HI).
  - intros b q Hb. destruct (decide (b = a)) as [->|Hne].
    + assert (q = kpath kb d) as -> by congruence.
      destruct (inv_nodes _ _ _ HI _ _ Ha)
        as (n0 & Hn0 & Haddr & Hlen & Hlv & Hst & Hc & [Hp0 Hp] & Hs).
      assert (n0 = n) as -> by congruence.
      pose proof (count_nz_insert _ _ _ 0 Hsi) as Hcnt.
      rewrite decide_False in Hcnt by done. rewrite decide_True in Hcnt by done.
      rewrite decide_True in Hst by done.
      exists n'. rewrite inode_at_insert_eq. split; [done|]. split; [done|].
      split; [by simpl; rewrite length_insert|]. split; [done|].
      split. { simpl. rewrite decide_True by done. lia. }
      split. { intros _ Hnl. done. }
      split.
      { split; [done|]. intros p' i0 Hq.
        destruct (Hp p' i0 Hq) as (b0 & nb & Hb0 & Hpn & Hnb & Hsb).
        exists b0, nb. rewrite inode_at_insert_ne; [done|].
        intros ->. exact (node_not_parent _ _ _ _ _ _ _ HI Ha Hq Hb0). }
      intros j v0 Hj Hv0. simpl in Hj.
      destruct (decide (j = i)) as [->|Hji].
      * rewrite list_lookup_insert_eq in Hj by (by eapply lookup_lt_Some). congruence.
      * rewrite list_lookup_insert_ne in Hj by done.
        eapply Hslot; [done|done|]. by eapply Hs.
    + eapply node_ok_mono; [by eapply inv_nodes| |done| |].
      * by rewrite inode_at_insert_ne.
      * intros p' i0 b0 nb _ Hb0 Hnb Hsb. split; [done|].
        eapply link_kept; try done. intros -> E.
        assert (nb = n) as -> by congruence. rewrite E in Hsb.
        rewrite Hsi in Hsb. injection Hsb as Hsb.
        destruct (inv_nodes _ _ _ HI _ _ Hb) as (_ & _ & (_ & _ & [? Hal]) & _).
        pose proof (inode_p_off _ Hal) as Hip. rewrite <- Hsb in Hip.
        rewrite inode_p_leaf in Hip by (by destruct Hoff). done.
      * intros n0 j v0 _ _ _ H. eapply Hslot; [done| |done]. done.
  - intros kb' e' He'. rewrite lookup_delete in He'. case_decide as Hk; [done|].
    eapply ent_ok_mono; [by eapply inv_ents| | |].
    + by erewrite leaf_at_insert_inode.
    + by erewrite bytes_at_insert_inode.
    + intros b nb Hb Hnb Hsb. split; [done|].
      eapply link_kept; try done. intros -> E.
      assert (nb = n) as -> by congruence. rewrite E in Hsb.
      rewrite Hsi in Hsb. injection Hsb as Hsb.
      destruct (inv_ents _ _ _ HI _ _ He') as (Hoff' & _).
      apply leaf_tag_inj in Hsb; [|done..].
      apply Hk. symmetry. by eapply ent_same_leaf.
  - destruct (inv_gc _ _ _ HI) as [Hnd Hg]. split; [done|].
    intros g Hgin. destruct (Hg g Hgin) as (Hr & (c & Hc & Hk) & Hnn & Hge).
    split; [done|]. split.
    { exists c. split; [|done]. rewrite lookup_insert_ne; [done|]. intros ->. congruence. }
    split; [done|]. intros kb' e' He'. simpl in He'. rewrite lookup_delete in He'.
    case_decide; [done|]. by eapply Hge.
  - erewrite dom_insert_inode by done. by destruct HI.
Qed.

Lemma fanout_deep (p : list Z) (i : Z) :
  fanout (Z.of_nat (length (p ++ [i]))) = LEVEL_SIZE.
Proof.
  unfold fanout. rewrite length_app. simpl.
  destruct (Z.of_nat (length p + 1) =? 0) eqn:E; [|done]. apply Z.eqb_eq in E. lia.
Qed.

(** An empty locked node, so far unknown to the map, is linked into an
    empty slot of a locked node. *)
Lemma Inv_link lk G s a p n i c nc w l' :
  Inv lk G s -> a ∈ lk ->
  g_nodes G !! a = Some p -> inode_at (mem s) a = Some n ->
  slots n !! i = Some 0 ->
  Z.of_nat (length p) + 1 < 2 ^ 32 ->
  addr_ok c -> g_nodes G !! c = None ->
  (forall g, g ∈ gc_list s -> THMAP_GETPTR th (addr g) <> c) ->
  inode_at (mem s) c = Some nc -> count_nz (slots nc) = 0 ->
  Z.of_nat (length (slots nc)) = LEVEL_SIZE ->
  state nc = NODE_LOCKED -> parent nc = THMAP_GETOFF th a ->
  w = state n + 1 ->
  Inv (lk ∪ {[c]}) (mk_ghost (<[c := p ++ [Z.of_nat i]]> (g_nodes G)) (g_ents G))
    (mk_st (<[a := CInode (mk_inode w (parent n) (<[i := THMAP_GETOFF th c]> (slots n)))]>
              (mem s)) (ast s) (gc_list s) l').
Proof.
  intros HI Hlk Ha Hn Hs0 Hlv Hc Hcn Hcg Hnc Hcz Hcl Hcs Hcp Hw.
  set (n' := mk_inode w (parent n) (<[i := THMAP_GETOFF th c]> (slots n))).
  set (G' := mk_ghost (<[c := p ++ [Z.of_nat i]]> (g_nodes G)) (g_ents G)).
  assert (a <> c) as Hac by (intros ->; congruence).
  assert (forall x q, g_nodes G !! x = Some q -> g_nodes G' !! x = Some q) as Hnodes.
  { intros x q Hx. simpl. rewrite lookup_insert_ne; [done|]. intros <-. congruence. }
  assert (forall q j v0, slot_ok G q j v0 -> slot_ok G' q j v0) as Hslot.
  { intros q j v0 H. eapply slot_ok_transfer; eauto. }
  destruct Hc as (Hcnz & Hcr & Hco).
  assert (THMAP_GETOFF th c <> 0) as Hoffnz by (destruct Hco; lia).
  split; simpl; try (by destruct HI).
  - rewrite lookup_insert_ne; [by destruct HI|]. intros E. rewrite E in Hcn.
    pose proof (inv_root _ _ _ HI). congruence.
  - intros b q Hb. rewrite lookup_insert in Hb. case_decide as Hbc.
    + subst b. injection Hb as <-.
      exists nc. rewrite inode_at_insert_ne by done. split; [done|]. split; [done|].
      split; [by rewrite fanout_deep|].
      split; [rewrite length_app; simpl; lia|].
      split. { rewrite decide_True by set_solver. lia. }
      split. { intros _ Hnl. set_solver. }
      split.
      { split; [by destruct p|]. intros p' i0 Hq. apply app_single_inj in Hq as [<- <-].
        exists a, n'. simpl. rewrite lookup_insert_ne by done.
        rewrite inode_at_insert_eq. do 3 (split; [done|]).
        simpl. rewrite Nat2Z.id. apply list_lookup_insert_eq. by eapply lookup_lt_Some. }
      intros j v0 Hj Hv0. by pose proof (count_nz_zero _ _ _ Hcz Hj).
    + destruct (decide (b = a)) as [->|Hne].
      * assert (q = p) as -> by congruence.
        destruct (inv_nodes _ _ _ HI _ _ Ha)
          as (n0 & Hn0 & Haddr & Hlen & Hlv0 & Hst & Hcc & [Hp0 Hp] & Hs).
        assert (n0 = n) as -> by congruence.
        pose proof (count_nz_insert _ _ _ (THMAP_GETOFF th c) Hs0) as Hcnt.
        pose proof (count_nz_bounds (slots n)) as Hcb.
        rewrite decide_True in Hcnt by done. rewrite decide_False in Hcnt by done.
        rewrite decide_True in Hst by done.
        exists n'. rewrite inode_at_insert_eq. split; [done|]. split; [done|].
        split; [by simpl; rewrite length_insert|]. split; [done|].
        split. { simpl. rewrite decide_True by set_solver. lia. }
        split. { intros _ _. simpl. lia. }
        split.
        { split; [done|]. intros p' i0 Hq.
          destruct (Hp p' i0 Hq) as (b0 & nb & Hb0 & Hpn & Hnb & Hsb).
          exists b0, nb. split; [by apply Hnodes|]. rewrite inode_at_insert_ne; [done|].
          intros ->. exact (node_not_parent _ _ _ _ _ _ _ HI Ha Hq Hb0). }
        intros j v0 Hj Hv0. simpl in Hj.
        destruct (decide (j = i)) as [->|Hji].
        -- rewrite list_lookup_insert_eq in Hj by (by eapply lookup_lt_Some).
           injection Hj as <-. unfold slot_ok.
           rewrite inode_p_off by (by destruct Hco). split; [done|].
           rewrite getptr_getoff by done. simpl. by rewrite lookup_insert_eq.
        -- rewrite list_lookup_insert_ne in Hj by done. apply Hslot. by eapply Hs.
      * eapply node_ok_mono; [by eapply inv_nodes| | | |].
        -- by rewrite inode_at_insert_ne.
        -- set_solver.
        -- intros p' i0 b0 nb _ Hb0 Hnb Hsb. split; [by apply Hnodes|].
           eapply link_kept; try done. intros -> E.
           assert (nb = n) as -> by congruence. rewrite E in Hsb.
           rewrite Hs0 in Hsb. injection Hsb as Hsb.
           destruct (inv_nodes _ _ _ HI _ _ Hb) as (_ & _ & (_ & _ & [? _]) & _). lia.
        -- intros n0 j v0 _ _ _ H. by apply Hslot.
  - intros kb e He. eapply ent_ok_mono; [by eapply inv_ents| | |].
    + by erewrite leaf_at_insert_inode.
    + by erewrite bytes_at_insert_inode.
    + intros b nb Hb Hnb Hsb. split; [by apply Hnodes|].
      eapply link_kept; try done. intros -> E.
      assert (nb = n) as -> by congruence. rewrite E in Hsb.
      rewrite Hs0 in Hsb. injection Hsb as Hsb.
      destruct (inv_ents _ _ _ HI _ _ He) as (Hoff & _).
      symmetry in Hsb. by apply leaf_tag_nonzero in Hsb.
  - destruct (inv_gc _ _ _ HI) as [Hnd Hg]. split; [done|].
    intros g Hgin. destruct (Hg g Hgin) as (Hr & (c0 & Hc0 & Hk) & Hnn & He).
    split; [done|]. split.
    { exists c0. split; [|done]. rewrite lookup_insert_ne; [done|]. intros ->. congruence. }
    split; [|done]. simpl. rewrite lookup_insert_ne; [done|]. intros E. by apply (Hcg g Hgin).
  - erewrite dom_insert_inode by done. by destruct HI.
  - intros b Hb. simpl. rewrite lookup_insert. case_decide; [eauto|].
    eapply inv_lk; [done|]. set_solver.
Qed.

(** An empty locked node is cut off its locked parent. *)
Lemma Inv_unlink lk G s a p n i c nc w l' :
  Inv lk G s -> a ∈ lk -> c ∈ lk ->
  g_nodes G !! c = Some (p ++ [i]) -> g_nodes G !! a = Some p ->
  inode_at (mem s) a = Some n ->
  inode_at (mem s) c = Some nc -> count_nz (slots nc) = 0 ->
  w = state n - 1 ->
  Inv (lk ∖ {[c]}) (mk_ghost (delete c (g_nodes G)) (g_ents G))
    (mk_st (<[a := CInode (mk_inode w (parent n) (<[Z.to_nat i := 0]> (slots n)))]>
              (mem s)) (ast s) (gc_list s) l').
Proof.
  intros HI Hlk Hclk Hc Ha Hn Hnc Hcz Hw.
  set (n' := mk_inode w (parent n) (<[Z.to_nat i := 0]> (slots n))).
  set (G' := mk_ghost (delete c (g_nodes G)) (g_ents G)).
  assert (a <> c) as Hac.
  { intros ->. exact (node_not_parent _ _ _ _ _ _ _ HI Hc eq_refl Ha). }
  destruct (node_link _ _ _ HI _ _ _ Hc) as (a0 & n0 & Ha0 & Hn0 & Hsi & Hoffnz & Hip).
  assert (a0 = a) as -> by (by eapply node_path_inj).
  assert (n0 = n) as -> by congruence.
  assert (forall x q, g_nodes G !! x = Some q -> x <> c -> g_nodes G' !! x = Some q) as Hnodes.
  { intros x q Hx Hxc. simpl. by rewrite lookup_delete_ne. }
  assert (forall b q j v0, g_nodes G !! b = Some q -> (b = a -> j <> Z.to_nat i) ->
            slot_ok G q j v0 -> slot_ok G' q j v0) as Hslot.
  { intros b q j v0 Hb Hne H. eapply slot_ok_transfer; [done| |done].
    intros _ Hx. apply Hnodes; [done|]. intros E. rewrite E in Hx. rewrite Hc in Hx.
    injection Hx as Hx. apply app_single_inj in Hx as [<- ->].
    assert (b = a) by (by eapply node_path_inj). apply Hne; [done|]. lia. }
  assert (forall b nb j v0, inode_at (mem s) b = Some nb -> slots nb !! j = Some v0 ->
            v0 <> 0 -> b <> c) as Hnotc.
  { intros b nb j v0 Hb Hj Hv0 ->. assert (nb = nc) as -> by congruence.
    by pose proof (count_nz_zero _ _ _ Hcz Hj). }
  split; simpl; try (by destruct HI).
  - rewrite lookup_delete_ne; [by destruct HI|]. intros E. rewrite E in Hc.
    pose proof (inv_root _ _ _ HI) as Hr. rewrite Hc in Hr. by destruct p.
  - intros b q Hb. rewrite lookup_delete in Hb. case_decide as Hbc; [done|].
    destruct (decide (b = a)) as [->|Hne].
    + assert (q = p) as -> by congruence.
      destruct (inv_nodes _ _ _ HI _ _ Ha)
        as (n0 & Hn0' & Haddr & Hlen & Hlv0 & Hst & Hcc & [Hp0 Hp] & Hs).
      assert (n0 = n) as -> by congruence.
      pose proof (count_nz_insert _ _ _ 0 Hsi) as Hcnt.
      rewrite decide_False in Hcnt by done. rewrite decide_True in Hcnt by done.
      rewrite decide_True in Hst by done.
      exists n'. rewrite inode_at_insert_eq. split; [done|]. split; [done|].
      split; [by simpl; rewrite length_insert|]. split; [done|].
      split. { simpl. rewrite decide_True by set_solver. lia. }
      split. { intros _ Hnl. set_solver. }
      split.
      { split; [done|]. intros p' i0 Hq.
        destruct (Hp p' i0 Hq) as (b0 & nb & Hb0 & Hpn & Hnb & Hsb).
        exists b0, nb. split.
        { apply Hnodes; [done|]. eapply Hnotc; [exact Hnb|exact Hsb|].
          destruct Haddr as (_ & _ & [? _]). lia. }
        rewrite inode_at_insert_ne; [done|].
        intros ->. exact (node_not_parent _ _ _ _ _ _ _ HI Ha Hq Hb0). }
      intros j v0 Hj Hv0. simpl in Hj.
      destruct (decide (j = Z.to_nat i)) as [->|Hji].
      * rewrite list_lookup_insert_eq in Hj by (by eapply lookup_lt_Some). congruence.
      * rewrite list_lookup_insert_ne in Hj by done.
        eapply Hslot; [done|done|]. by eapply Hs.
    + eapply node_ok_mono; [by eapply inv_nodes| | | |].
      * by rewrite inode_at_insert_ne.
      * set_solver.
      * intros p' i0 b0 nb _ Hb0 Hnb Hsb.
        destruct (inv_nodes _ _ _ HI _ _ Hb) as (_ & _ & Hbaddr & _).
        assert (THMAP_GETOFF th b <> 0) by (destruct Hbaddr as (_ & _ & [? _]); lia).
        split. { apply Hnodes; [done|]. by eapply Hnotc. }
        eapply link_kept; try done. intros -> E.
        assert (nb = n) as -> by congruence. rewrite E in Hsb.
        rewrite Hsi in Hsb. injection Hsb as Hsb.
        apply Hbc. rewrite <- (addr_ok_ptr b), <- (addr_ok_ptr c); [by rewrite Hsb|..].
        -- by destruct (inv_nodes _ _ _ HI _ _ Hc) as (_ & _ & ? & _).
        -- done.
      * intros n0 j v0 _ _ _ H. eapply Hslot; [done| |done]. done.
  - intros kb e He. eapply ent_ok_mono; [by eapply inv_ents| | |].
    + by erewrite leaf_at_insert_inode.
    + by erewrite bytes_at_insert_inode.
    + intros b nb Hb Hnb Hsb.
      destruct (inv_ents _ _ _ HI _ _ He) as (Hoff & _).
      pose proof (leaf_tag_nonzero _ Hoff) as Hnz.
      split. { apply Hnodes; [done|]. by eapply Hnotc. }
      eapply link_kept; try done. intros -> E.
      assert (nb = n) as -> by congruence. rewrite E in Hsb.
      rewrite Hsi in Hsb. injection Hsb as Hsb.
      rewrite Hsb in Hip. rewrite inode_p_leaf in Hip by (by destruct Hoff). done.
  - destruct (inv_gc _ _ _ HI) as [Hnd Hg]. split; [done|].
    intros g Hgin. destruct (Hg g Hgin) as (Hr & (c0 & Hc0 & Hk) & Hnn & He).
    split; [done|]. split.
    { exists c0. split; [|done]. rewrite lookup_insert_ne; [done|]. intros ->. congruence. }
    split; [|done]. simpl. rewrite lookup_delete. case_decide; done.
  - erewrite dom_insert_inode by done. by destruct HI.
  - intros b Hb. simpl. rewrite lookup_delete_ne by set_solver.
    eapply inv_lk; [done|]. set_solver.
Qed.

(** *** Allocating and freeing *)

Lemma Inv_same_mem lk G s s' :
  Inv lk G s -> mem s' = mem s -> gc_list s' = gc_list s ->
  covers (ast s') (dom (mem s')) -> Inv lk G s'.
Proof.
  intros HI Hm Hg Hc. destruct HI. split; try done; by rewrite ?Hm, ?Hg.
Qed.

Hypothesis Hlaws : ops_laws (baseptr th) (ops th) covers.

Lemma ops_alloc_run s n :
  ops_alloc th n s =
    Ok (alloc (ops th) n (ast s)).1
       (mk_st (if (alloc (ops th) n (ast s)).1 =? 0 then mem s
               else <[THMAP_GETPTR th (alloc (ops th) n (ast s)).1 := CRaw]> (mem s))
              (alloc (ops th) n (ast s)).2 (gc_list s)
              (log s ++ [EvAlloc n (alloc (ops th) n (ast s)).1])).
Proof. unfold ops_alloc. by destruct (alloc (ops th) n (ast s)). Qed.

Lemma ops_free_run s off n c :
  mem s !! THMAP_GETPTR th off = Some c ->
  ops_free th off n s =
    Ok tt (mk_st (delete (THMAP_GETPTR th off) (mem s)) (free (ops th) off n (ast s))
             (gc_list s) (log s ++ [EvFree off n])).
Proof. intros H. unfold ops_free. by rewrite H. Qed.

(** What a call of the allocator gives: nothing, or a block that was
    not in use. *)
Lemma Inv_alloc lk G s n l' :
  Inv lk G s ->
  let off := (alloc (ops th) n (ast s)).1 in
  let a' := (alloc (ops th) n (ast s)).2 in
  (off = 0 /\ Inv lk G (mk_st (mem s) a' (gc_list s) l')) \/
  (off_ok off /\ THMAP_GETPTR th off <> 0 /\ mem s !! THMAP_GETPTR th off = None /\
   Inv lk G (mk_st (<[THMAP_GETPTR th off := CRaw]> (mem s)) a' (gc_list s) l')).
Proof.
  intros HI off a'.
  destruct (law_alloc _ _ _ Hlaws (ast s) (dom (mem s)) n (inv_covers _ _ _ HI))
    as [[H0 Hc]|(Hoff & Hnz & Hfresh & Hc)].
  - left. split; [done|]. by eapply Inv_same_mem.
  - right. fold (THMAP_GETPTR th off) in *. do 2 (split; [done|]).
    apply not_elem_of_dom in Hfresh. split; [done|].
    eapply (Inv_frame _ _ s _ (THMAP_GETPTR th off)); simpl; try done.
    + by eapply unref_fresh.
    + intros y Hy. by rewrite lookup_insert_ne.
    + by rewrite dom_insert_L.
Qed.

(** Freeing a block that the map does not refer to. *)
Lemma Inv_free lk G s x off n l' :
  Inv lk G s -> unref G (gc_list s) x ->
  Inv lk G (mk_st (delete x (mem s)) (free (ops th) off n (ast s)) (gc_list s) l').
Proof.
  intros HI Hx. eapply (Inv_frame _ _ s _ x); simpl; try done.
  - intros y Hy. by rewrite lookup_delete_ne.
  - eapply (law_mono _ _ _ Hlaws); [eapply (law_free _ _ _ Hlaws), (inv_covers _ _ _ HI)|].
    rewrite dom_delete_L. set_solver.
Qed.

(** Writing to a block that the map does not refer to. *)
Lemma Inv_init lk G s x c l' :
  Inv lk G s -> unref G (gc_list s) x -> is_Some (mem s !! x) ->
  Inv lk G (mk_st (<[x := c]> (mem s)) (ast s) (gc_list s) l').
Proof.
  intros HI Hx Hin. eapply (Inv_frame _ _ s _ x); simpl; try done.
  - intros y Hy. by rewrite lookup_insert_ne.
  - rewrite dom_insert_L. apply elem_of_dom in Hin.
    replace ({[x]} ∪ dom (mem s)) with (dom (mem s)) by set_solver.
    by destruct HI.
Qed.

(** The key buffers of one memory are those of another. *)
Definition mem_kept (m m' : gmap Z cell) : Prop :=
  forall x bs, bytes_at m x = Some bs -> bytes_at m' x = Some bs.

Lemma mem_kept_refl m : mem_kept m m.
Proof. by intros x bs H. Qed.

Lemma mem_kept_trans m1 m2 m3 : mem_kept m1 m2 -> mem_kept m2 m3 -> mem_kept m1 m3.
Proof. intros H1 H2 x bs H. by apply H2, H1. Qed.

Lemma mem_kept_key_at m m' p n kb : mem_kept m m' -> key_at m p n kb -> key_at m' p n kb.
Proof. intros H (bs & Hb & ?). exists bs. split; [by apply H|done]. Qed.

Lemma mem_kept_insert_fresh m x c : m !! x = None -> mem_kept m (<[x := c]> m).
Proof.
  intros Hx y bs H%bytes_at_lookup. apply bytes_at_lookup.
  rewrite lookup_insert_ne; [done|]. intros <-. congruence.
Qed.

Lemma mem_kept_insert_inode m x n n0 :
  inode_at m x = Some n0 -> mem_kept m (<[x := CInode n]> m).
Proof. intros Hx y bs H. by erewrite bytes_at_insert_inode. Qed.

(** The leaf that [thmap_put] has prepared and not yet linked: the
    leaf record at the offset [lo] and the key it refers to. *)
Record pending (G : ghost) (s : st) (kb : list Z) (v lo ko : Z) : Prop := {
  pd_off : off_ok lo;
  pd_nz : THMAP_GETPTR th lo <> 0;
  pd_leaf : leaf_at (mem s) (THMAP_GETPTR th lo) =
              Some (mk_leaf ko (Z.of_nat (length kb)) v);
  pd_key : if nocopy th
           then 0 <= ko < 2 ^ 64 /\
                key_at (mem s) (THMAP_GETPTR th ko) (Z.of_nat (length kb)) kb
           else off_ok ko /\ bytes_at (mem s) (THMAP_GETPTR th ko) = Some kb;
  pd_unref : unref G (gc_list s) (THMAP_GETPTR th lo);
  pd_unref_key : nocopy th = false ->
                 unref G (gc_list s) (THMAP_GETPTR th ko) /\
                 THMAP_GETPTR th ko <> THMAP_GETPTR th lo
}.

(** The events of a [leaf_create] that fails. *)
Definition leaf_create_failed (klen : Z) (evs : list event) : Prop :=
  evs = [EvAlloc sizeof_leaf 0] \/
  exists lo, lo <> 0 /\ nocopy th = false /\
    evs = [EvAlloc sizeof_leaf lo; EvAlloc klen 0; EvFree lo sizeof_leaf].

Definition leaf_create_events (klen lo ko : Z) : list event :=
  EvAlloc sizeof_leaf lo :: (if nocopy th then [] else [EvAlloc klen ko]).

Lemma nocopy_flag : (Z.land (flags th) THMAP_NOCOPY =? 0) = negb (nocopy th).
Proof. unfold nocopy. by rewrite negb_involutive. Qed.

Lemma leaf_create_run lk G s k klen kb v :
  Inv lk G s -> key_at (mem s) k klen kb ->
  (nocopy th = true -> 0 <= k < 2 ^ 64 /\ key_at (mem s) (THMAP_GETPTR th k) klen kb) ->
  exists r s1 evs,
    leaf_create th k klen v s = Ok r s1 /\ log s1 = log s ++ evs /\
    gc_list s1 = gc_list s /\ Inv lk G s1 /\ mem_kept (mem s) (mem s1) /\
    (forall x, inode_at (mem s1) x = inode_at (mem s) x) /\
    ((r = 0 /\ mem s1 = mem s /\ leaf_create_failed klen evs) \/
     (exists lo ko, r = THMAP_GETPTR th lo /\ pending G s1 kb v lo ko /\
        (nocopy th = true -> ko = k) /\
        evs = leaf_create_events klen lo ko /\ lo <> 0 /\ (nocopy th = false -> ko <> 0) /\
        (nocopy th = false -> mem s !! THMAP_GETPTR th ko = None))).
Proof.
  intros HI Hk Hnc. pose proof (key_at_length _ _ _ _ Hk) as Hlen.
  unfold leaf_create. rewrite (bind_run _ _ _ _ _ (ops_alloc_run _ _)).
  set (lo := (alloc (ops th) sizeof_leaf (ast s)).1).
  set (a1 := (alloc (ops th) sizeof_leaf (ast s)).2).
  destruct (Inv_alloc lk G s sizeof_leaf (log s ++ [EvAlloc sizeof_leaf lo]) HI)
    as [[H0 HI1]|(Hoff & Hnz & Hfresh & HI1)]; fold lo a1 in H0 || fold lo a1 in Hoff, Hnz, Hfresh;
    fold lo a1 in HI1.
  - rewrite H0. cbn [Z.eqb]. rewrite ret_run.
    eexists _, _, _. split; [done|]. cbn [log gc_list mem].
    split; [done|]. split; [done|]. split; [by rewrite H0 in HI1|].
    split; [apply mem_kept_refl|]. split; [done|]. left. do 2 (split; [done|]). by left.
  - assert (lo <> 0) as Hlonz by (destruct Hoff; lia).
    apply Z.eqb_neq in Hlonz as Hlonz'. rewrite Hlonz'.
    set (la := THMAP_GETPTR th lo) in *.
    assert (THMAP_ALIGNED_P la = true) as Hal.
    { apply getptr_aligned; [by destruct (inv_base _ _ _ HI)|by destruct Hoff]. }
    erewrite bind_run; [|by apply assert_run].
    pose proof (unref_fresh _ _ _ _ HI Hfresh) as Hur.
    rewrite nocopy_flag. destruct (nocopy th) eqn:Enc; cbn [negb].
    + (* the key is referred to *)
      destruct (Hnc eq_refl) as [Hkr Hk'].
      erewrite bind_run; [|eapply init_cell_run; cbn [mem]; apply lookup_insert_eq].
      rewrite ret_run. cbn [mem ast gc_list log]. rewrite insert_insert_eq.
      eexists _, _, _. split; [done|]. cbn [log gc_list mem].
      split; [done|]. split; [done|].
      assert (Inv lk G (mk_st (<[la := CLeaf (mk_leaf k klen v)]> (mem s)) a1 (gc_list s)
                          (log s ++ [EvAlloc sizeof_leaf lo]))) as HI2.
      { eapply (Inv_frame _ _ _ _ la HI1); cbn [mem ast gc_list]; try done.
        - intros y Hy. by rewrite !lookup_insert_ne.
        - rewrite dom_insert_L. rewrite <- (dom_insert_L (mem s) la CRaw).
          by destruct HI1. }
      split; [done|]. split; [by apply mem_kept_insert_fresh|].
      split.
      { intros x. unfold inode_at. rewrite lookup_insert. case_decide; [|done].
        subst x. by rewrite Hfresh. }
      right. exists lo, k. split; [done|].
      split; [|split; [done|]; split; [unfold leaf_create_events; by rewrite Enc|done]].
      split; cbn [mem gc_list]; try done.
      * unfold leaf_at. rewrite lookup_insert_eq. by rewrite <- Hlen.
      * rewrite Enc. split; [done|]. rewrite Hlen.
        eapply mem_kept_key_at; [by apply mem_kept_insert_fresh|done].
      * by rewrite Enc.
    + (* the key is copied *)
      rewrite (bind_run _ _ _ _ _ (ops_alloc_run _ _)). cbn [ast mem gc_list log].
      set (ko := (alloc (ops th) klen a1).1).
      set (a2 := (alloc (ops th) klen a1).2).
      destruct (Inv_alloc lk G _ klen ((log s ++ [EvAlloc sizeof_leaf lo]) ++ [EvAlloc klen ko]) HI1)
        as [[H0 HI2]|(Hkoff & Hknz & Hkfresh & HI2)]; cbn [ast mem gc_list] in *;
        fold ko a2 in H0 || fold ko a2 in Hkoff, Hknz, Hkfresh; fold ko a2 in HI2.
      * rewrite H0. cbn [Z.eqb].
        erewrite bind_run; [|eapply ops_free_run; cbn [mem]; apply lookup_insert_eq].
        rewrite ret_run. cbn [mem ast gc_list log].
        rewrite delete_insert_id by done.
        eexists _, _, _. split; [done|]. cbn [log gc_list mem].
        split; [by rewrite <- !app_assoc|]. split; [done|].
        split.
        { rewrite H0 in HI2.
          pose proof (Inv_free lk G _ la lo sizeof_leaf
                        (((log s ++ [EvAlloc sizeof_leaf lo]) ++ [EvAlloc klen 0]) ++
                         [EvFree lo sizeof_leaf]) HI2 Hur) as HI3.
          cbn [mem ast gc_list] in HI3. by rewrite delete_insert_id in HI3. }
        split; [apply mem_kept_refl|]. split; [done|].
        left. do 2 (split; [done|]). right. by exists lo.
      * assert (ko <> 0) as Hkonz by (destruct Hkoff; lia).
        apply Z.eqb_neq in Hkonz as Hkonz'. rewrite Hkonz'.
        set (ka := THMAP_GETPTR th ko) in *.
        assert (ka <> la) as Hkl.
        { intros E. rewrite E in Hkfresh. by rewrite lookup_insert_eq in Hkfresh. }
        assert (mem s !! ka = None) as Hkf.
        { by rewrite lookup_insert_ne in Hkfresh. }
        pose proof (unref_fresh _ _ _ _ HI Hkf) as Hurk.
        erewrite bind_run; [|eapply load_bytes_run; cbn [mem];
          eapply mem_kept_key_at; [|exact Hk];
          eapply mem_kept_trans; apply mem_kept_insert_fresh; [exact Hfresh|exact Hkfresh]].
        erewrite bind_run; [|eapply init_cell_run; cbn [mem]; apply lookup_insert_eq].
        cbn [mem ast gc_list log]. rewrite insert_insert_eq.
        erewrite bind_run; [|eapply init_cell_run; cbn [mem];
          rewrite lookup_insert_ne by done; apply lookup_insert_eq].
        rewrite ret_run. cbn [mem ast gc_list log].
        rewrite (insert_insert_ne _ la ka) by done. rewrite insert_insert_eq.
        eexists _, _, _. split; [done|]. cbn [log gc_list mem].
        split; [by rewrite <- !app_assoc|]. split; [done|].
        assert (Inv lk G (mk_st (<[ka := CBytes kb]> (<[la := CLeaf (mk_leaf ko klen v)]> (mem s)))
                  a2 (gc_list s) ((log s ++ [EvAlloc sizeof_leaf lo]) ++ [EvAlloc klen ko]))) as HI3.
        { eapply (Inv_frame _ _ (mk_st (<[la := CLeaf (mk_leaf ko klen v)]> (mem s)) a2 (gc_list s) []) _ ka);
            cbn [mem ast gc_list]; try done.
          - eapply (Inv_frame _ _ s _ la); cbn [mem ast gc_list]; try done.
            + intros y Hy. by rewrite lookup_insert_ne.
            + eapply (law_mono _ _ _ Hlaws); [exact (inv_covers _ _ _ HI2)|].
              cbn [mem]. rewrite !dom_insert_L. set_solver.
          - intros y Hy. by rewrite lookup_insert_ne.
          - replace (dom (<[ka:=CBytes kb]> (<[la:=CLeaf (mk_leaf ko klen v)]> (mem s))))
              with (dom (<[ka:=CRaw]> (<[la:=CRaw]> (mem s)))) by (rewrite !dom_insert_L; set_solver).
            exact (inv_covers _ _ _ HI2). }
        split; [done|].
        split.
        { eapply mem_kept_trans; apply mem_kept_insert_fresh; [done|].
          by rewrite lookup_insert_ne. }
        split.
        { intros x. unfold inode_at. rewrite !lookup_insert. repeat case_decide; try done.
          - subst x. by rewrite Hkf.
          - subst x. by rewrite Hfresh. }
        right. exists lo, ko. split; [done|].
        split; [|split; [done|]; split; [unfold leaf_create_events; by rewrite Enc|done]].
        split; cbn [mem gc_list]; try done.
        -- unfold leaf_at. rewrite lookup_insert_ne by done.
           rewrite lookup_insert_eq. by rewrite <- Hlen.
        -- rewrite Enc. split; [done|]. unfold bytes_at. by rewrite lookup_insert_eq.
Qed.

(** *** Finding and locking the edge node *)

Lemma find_edge_node_locked_unfold fuel q k klen :
  find_edge_node_locked fuel th q k klen =
    (r ← find_edge_node fuel th q k klen;
     let '(node, slot, q) := r in
     _ ← lock_node node;
     nd ← load_inode node;
     if negb (Z.land (state nd) NODE_DELETED =? 0) then
       _ ← unlock_node node;
       match fuel with
       | O => diverge
       | S fuel' =>
           find_edge_node_locked fuel' th (mk_query 0 (hashidx q) (hashval q)) k klen
       end
     else
       target ← load_slot node slot;
       if negb (target =? 0) && THMAP_INODE_P target then
         _ ← unlock_node node;
         match fuel with
         | O => diverge
         | S fuel' =>
             find_edge_node_locked fuel' th (mk_query 0 (hashidx q) (hashval q)) k klen
         end
       else mret (node, slot, q)).
Proof. by destruct fuel. Qed.

Lemma node_count_bound lk G s a p n :
  Inv lk G s -> g_nodes G !! a = Some p -> inode_at (mem s) a = Some n ->
  0 <= count_nz (slots n) <= 64.
Proof.
  intros HI Ha Hn. destruct (node_cell _ _ _ HI _ _ Ha) as (n' & Hn' & Hlen).
  assert (n' = n) as -> by congruence.
  pose proof (count_nz_bounds (slots n)). unfold fanout in Hlen.
  destruct (Z.of_nat (length p) =? 0); [change ROOT_SIZE with 64 in Hlen|
                                         change LEVEL_SIZE with 16 in Hlen]; lia.
Qed.

Lemma node_state lk G s a p n :
  Inv lk G s -> g_nodes G !! a = Some p -> inode_at (mem s) a = Some n ->
  state n = count_nz (slots n) + (if decide (a ∈ lk) then NODE_LOCKED else 0).
Proof.
  intros HI Ha Hn. destruct (inv_nodes _ _ _ HI _ _ Ha) as (n' & Hn' & _ & _ & _ & Hst & _).
  by assert (n' = n) as -> by congruence.
Qed.

(** The state after [lock_node a]. *)
Definition locked_st (s : st) (a : Z) (n : thmap_inode_t) : st :=
  mk_st (<[a := CInode (mk_inode (count_nz (slots n) + NODE_LOCKED) (parent n) (slots n))]> (mem s))
        (ast s) (gc_list s) (log s ++ [EvLock a]).

Lemma lock_node_inv lk G s a p n :
  Inv lk G s -> a ∉ lk -> g_nodes G !! a = Some p -> inode_at (mem s) a = Some n ->
  lock_node a s = Ok tt (locked_st s a n) /\ Inv (lk ∪ {[a]}) G (locked_st s a n).
Proof.
  intros HI Hlk Ha Hn.
  pose proof (node_state _ _ _ _ _ _ HI Ha Hn) as Hst.
  rewrite decide_False in Hst by done. rewrite Z.add_0_r in Hst.
  pose proof (node_count_bound _ _ _ _ _ _ HI Ha Hn) as Hc.
  destruct (state_word_facts (count_nz (slots n))) as (F1 & F2 & _); [lia|].
  split.
  - rewrite (lock_node_run _ _ _ Hn) by (by rewrite Hst). by rewrite Hst, F2.
  - eapply Inv_restate; try done.
    + set_solver.
    + rewrite decide_True by set_solver. done.
    + intros _ Hnl. set_solver.
Qed.

Lemma find_edge_node_locked_run G s k klen kb :
  Inv ∅ G s -> key_at (mem s) k klen kb ->
  exists D : nat, forall fuel, (D <= fuel)%nat ->
    exists a d n v,
      find_edge_node_locked fuel th (THMAP_QUERY_INIT 0) k klen s =
        Ok (a, kslot kb (Z.of_nat d), query_at kb (Z.of_nat d)) (locked_st s a n) /\
      edge_of G s kb a d n v /\ Inv {[a]} G (locked_st s a n).
Proof.
  intros HI Hk. destruct (find_edge_node_run _ _ _ HI k klen kb Hk) as [D HD].
  exists D. intros fuel Hf. destruct (HD fuel Hf) as (a & d & n & v & Hrun & He).
  exists a, d, n, v. pose proof He as (Ha & Hn & Hv & Hedge).
  destruct (lock_node_inv ∅ G s a (kpath kb d) n HI) as [Hlock HI1]; try done.
  replace (∅ ∪ {[a]}) with ({[a]} : gset Z) in HI1 by set_solver.
  split; [|done].
  rewrite find_edge_node_locked_unfold. mstep Hrun. cbv beta iota.
  mstep Hlock.
  pose proof (node_count_bound _ _ _ _ _ _ HI Ha Hn) as Hc.
  destruct (state_word_facts (count_nz (slots n))) as (_ & _ & _ & _ & _ & F6 & _); [lia|].
  erewrite bind_run; [|apply load_inode_run; cbn [locked_st mem]; apply inode_at_insert_eq].
  cbn [state]. rewrite F6. cbn [Z.eqb negb].
  erewrite bind_run; [|eapply load_slot_run; [cbn [locked_st mem]; apply inode_at_insert_eq|exact Hv]].
  destruct Hedge as [->|Hip].
  - done.
  - rewrite Hip. by rewrite andb_false_r.
Qed.

(** *** The edge node of a key is unique *)

Lemma edge_deeper lk G s kb a d n v a' d' :
  Inv lk G s -> edge_of G s kb a d n v ->
  g_nodes G !! a' = Some (kpath kb d') -> (d' <= d)%nat.
Proof.
  intros HI (Ha & Hn & Hv & Hedge) Ha'.
  destruct (decide (d' <= d)%nat) as [|Hlt]; [done|]. exfalso.
  destruct (kpath_add kb (S d) (d' - S d)) as [t Ht].
  replace (S d + (d' - S d))%nat with d' in Ht by lia.
  rewrite Ht in Ha'. destruct (node_ancestor _ _ _ HI _ _ _ Ha') as [c Hc].
  rewrite kpath_S in Hc.
  destruct (node_link _ _ _ HI _ _ _ Hc) as (b & nb & Hb & Hnb & Hsl & Hnz & Hip).
  assert (b = a) as -> by (by eapply (node_path_inj _ _ _ HI)).
  assert (nb = n) as -> by congruence.
  rewrite Hv in Hsl. injection Hsl as ->. destruct Hedge as [?|?]; congruence.
Qed.

Lemma edge_unique lk G s kb a d n v a' d' n' v' :
  Inv lk G s -> edge_of G s kb a d n v -> edge_of G s kb a' d' n' v' ->
  a' = a /\ d' = d /\ n' = n /\ v' = v.
Proof.
  intros HI He He'.
  pose proof He as (Ha & Hn & Hv & _). pose proof He' as (Ha' & Hn' & Hv' & _).
  pose proof (edge_deeper _ _ _ _ _ _ _ _ _ _ HI He Ha').
  pose proof (edge_deeper _ _ _ _ _ _ _ _ _ _ HI He' Ha).
  assert (d' = d) as -> by lia.
  assert (a' = a) as -> by (by eapply (node_path_inj _ _ _ HI)).
  assert (n' = n) as -> by congruence.
  split; [done|]. split; [done|]. split; [done|]. congruence.
Qed.

(** The edge node and the state in which it is locked do not depend
    on the fuel. *)
Lemma find_edge_node_locked_total G s k klen kb :
  Inv ∅ G s -> key_at (mem s) k klen kb ->
  exists (D : nat) a d n v,
    edge_of G s kb a d n v /\ Inv {[a]} G (locked_st s a n) /\
    forall fuel, (D <= fuel)%nat ->
      find_edge_node_locked fuel th (THMAP_QUERY_INIT 0) k klen s =
        Ok (a, kslot kb (Z.of_nat d), query_at kb (Z.of_nat d)) (locked_st s a n).
Proof.
  intros HI Hk. destruct (find_edge_node_locked_run G s k klen kb HI Hk) as [D HD].
  destruct (HD D (Nat.le_refl _)) as (a & d & n & v & _ & He & HI1).
  exists D, a, d, n, v. split; [done|]. split; [done|].
  intros fuel Hf. destruct (HD fuel Hf) as (a' & d' & n' & v' & Hrun & He' & _).
  destruct (edge_unique _ _ _ _ _ _ _ _ _ _ _ _ HI He He') as (-> & -> & -> & ->).
  exact Hrun.
Qed.

(** *** One level of expansion

    The leaf of [kb'] sits in a slot of the locked node [a]; a fresh
    node [c] takes that slot and holds the leaf one level down. *)

Lemma unref_mono G G' gcl x :
  unref G gcl x -> g_nodes G' !! x = None ->
  (forall kb e', g_ents G' !! kb = Some e' ->
     exists e, g_ents G !! kb = Some e /\ e_off e = e_off e' /\ e_key e = e_key e') ->
  unref G' gcl x.
Proof.
  intros (_ & He & Hg) Hn Hents. split; [done|]. split; [|done].
  intros kb e' He'. destruct (Hents _ _ He') as (e & Hl & <- & <-). by eapply He.
Qed.

Lemma unref_not_staged lk G s x off :
  Inv lk G s -> unref G (gc_list s) x -> x = THMAP_GETPTR th off ->
  forall g, g ∈ gc_list s -> addr g <> off.
Proof. intros HI (_ & _ & Hg) -> g Hgin E. apply (Hg g Hgin). by rewrite E. Qed.

Definition deeper (e : entry) : entry :=
  mk_entry (e_off e) (e_key e) (e_val e) (S (e_depth e)).

Definition expand_ghost (G : ghost) (kb' : list Z) (e' : entry) (c : Z) : ghost :=
  mk_ghost (<[c := kpath kb' (S (e_depth e'))]> (g_nodes G))
           (<[kb' := deeper e']> (g_ents G)).

Lemma replicate_slot (i n : Z) :
  0 <= i < n -> replicate (Z.to_nat n) 0 !! Z.to_nat i = Some 0.
Proof. intros H. apply lookup_replicate. split; [done|lia]. Qed.

Lemma Inv_expand G s a n kb' e' c l' :
  Inv {[a]} G s ->
  g_ents G !! kb' = Some e' ->
  g_nodes G !! a = Some (kpath kb' (e_depth e')) -> inode_at (mem s) a = Some n ->
  Z.of_nat (e_depth e') + 1 < 2 ^ 32 ->
  addr_ok c -> unref G (gc_list s) c -> is_Some (mem s !! c) ->
  Inv {[c]} (expand_ghost G kb' e' c)
    (mk_st (<[a := CInode (mk_inode (count_nz (slots n)) (parent n)
                     (<[Z.to_nat (kslot kb' (Z.of_nat (e_depth e'))) := THMAP_GETOFF th c]> (slots n)))]>
            (<[c := CInode (mk_inode (1 + NODE_LOCKED) (THMAP_GETOFF th a)
                     (<[Z.to_nat (kslot kb' (Z.of_nat (S (e_depth e')))) :=
                          Z.lor (e_off e') THMAP_LEAF_BIT]> (replicate (Z.to_nat LEVEL_SIZE) 0)))]>
               (mem s)))
       (ast s) (gc_list s) l').
Proof.
  intros HI He' Ha Hn Hlv Hc Hcu Hcm.
  set (d := e_depth e') in *.
  set (i := Z.to_nat (kslot kb' (Z.of_nat d))).
  set (j := Z.to_nat (kslot kb' (Z.of_nat (S d)))).
  set (nc0 := mk_inode NODE_LOCKED (THMAP_GETOFF th a) (replicate (Z.to_nat LEVEL_SIZE) 0)).
  set (nA := mk_inode (state n - 1) (parent n) (<[i:=0]> (slots n))).
  set (GA := mk_ghost (g_nodes G) (delete kb' (g_ents G))).
  assert (a ∈ ({[a]} : gset Z)) as Hain by set_solver.
  assert (a <> c) as Hac. { intros ->. destruct Hcu as [Hcu _]. congruence. }
  pose proof (node_state _ _ _ _ _ _ HI Ha Hn) as Hst.
  rewrite decide_True in Hst by done.
  destruct (inv_ents _ _ _ HI _ _ He') as (Hoff & Hnz & Hleaf & Hkey & (b & nb & Hb & Hnb & Hsb)).
  assert (b = a) as -> by (by eapply node_path_inj).
  assert (nb = n) as -> by congruence. fold d i in Hsb.
  pose proof (leaf_tag_nonzero _ Hoff) as Htag.
  pose proof (count_nz_pos _ _ _ Hsb Htag) as Hpos.
  assert (Z.of_nat i = kslot kb' (Z.of_nat d)) as Hi.
  { unfold i. pose proof (kslot_range kb' (Z.of_nat d)). lia. }
  destruct Hcu as (Hcn & Hce & Hcg).
  (* the leaf leaves [a] *)
  pose proof (Inv_remove_leaf _ _ _ _ _ _ _ (state n - 1) [] HI Hain He' Ha Hn eq_refl) as HA.
  fold d i nA GA in HA.
  (* the block at [c] becomes an empty locked node *)
  assert (unref GA (gc_list s) c) as HcuA.
  { split; [done|]. split; [|done]. simpl. intros kb e He.
    rewrite lookup_delete in He. case_decide; [done|]. eauto. }
  assert (is_Some (<[a:=CInode nA]> (mem s) !! c)) as HcmA by (by rewrite lookup_insert_ne).
  pose proof (Inv_init _ _ _ c (CInode nc0) [] HA HcuA HcmA) as HB.
  cbn [mem ast gc_list] in HB.
  (* it is linked into [a] *)
  assert (inode_at (<[c:=CInode nc0]> (<[a:=CInode nA]> (mem s))) a = Some nA) as HnB.
  { rewrite inode_at_insert_ne by done. apply inode_at_insert_eq. }
  assert (slots nA !! i = Some 0) as HsiB.
  { apply list_lookup_insert_eq. by eapply lookup_lt_Some. }
  assert (Z.of_nat (length (kpath kb' d)) + 1 < 2 ^ 32) as HlvB by (by rewrite kpath_length).
  assert (forall g, g ∈ gc_list s -> THMAP_GETPTR th (addr g) <> c) as HcgB.
  { intros g Hg E. by apply (Hcg g Hg). }
  assert (inode_at (<[c:=CInode nc0]> (<[a:=CInode nA]> (mem s))) c = Some nc0) as HncB
    by apply inode_at_insert_eq.
  assert (Z.of_nat (length (slots nc0)) = LEVEL_SIZE) as Hcl.
  { unfold nc0. cbn [slots]. by rewrite length_replicate, Z2Nat.id. }
  pose proof (Inv_link _ GA _ a (kpath kb' d) nA i c nc0 (state n) [] HB Hain Ha HnB HsiB HlvB Hc Hcn
                HcgB HncB (count_nz_replicate _) Hcl eq_refl eq_refl ltac:(simpl; lia)) as HC.
  cbn [mem ast gc_list slots state parent nA] in HC.
  rewrite list_insert_insert_eq in HC.
  rewrite (insert_insert_ne _ a c) in HC by done. rewrite insert_insert_eq in HC.
  rewrite Hi, <- kpath_S in HC.
  (* the leaf goes into [c] *)
  set (nC := mk_inode (state n) (parent n) (<[i:=THMAP_GETOFF th c]> (slots n))) in *.
  set (GC := mk_ghost (<[c:=kpath kb' (S d)]> (g_nodes GA)) (g_ents GA)) in *.
  assert (c ∈ ({[a]} ∪ {[c]} : gset Z)) as Hcin by set_solver.
  assert (g_nodes GC !! c = Some (kpath kb' (S d))) as HcC by apply lookup_insert_eq.
  assert (inode_at (<[c:=CInode nc0]> (<[a:=CInode nC]> (mem s))) c = Some nc0) as HncC
    by apply inode_at_insert_eq.
  assert (slots nc0 !! j = Some 0) as Hj.
  { apply replicate_slot. pose proof (kslot_range kb' (Z.of_nat (S d))) as R.
    unfold fanout in R. destruct (Z.of_nat (S d) =? 0) eqn:E; [apply Z.eqb_eq in E; lia|done]. }
  assert (g_ents GC !! kb' = None) as HnoneC by apply lookup_delete_eq.
  assert (THMAP_GETPTR th (e_off e') <> a) as Hla.
  { intros E. rewrite E in Hleaf. apply leaf_at_lookup in Hleaf. apply inode_at_lookup in Hn.
    congruence. }
  assert (THMAP_GETPTR th (e_off e') <> c) as Hlc.
  { intros E. destruct (Hce _ _ He') as [H1 H2]. by apply H1. }
  assert (THMAP_GETPTR th (e_key e') <> c) as Hkc.
  { intros E. destruct (Hce _ _ He') as [H1 H2]. by apply H2. }
  assert (leaf_at (<[c:=CInode nc0]> (<[a:=CInode nC]> (mem s))) (THMAP_GETPTR th (e_off e')) =
            Some (mk_leaf (e_key e') (Z.of_nat (length kb')) (e_val e'))) as HleafC.
  { unfold leaf_at. rewrite !lookup_insert_ne by done. exact Hleaf. }
  assert (forall bs, bytes_at (mem s) (THMAP_GETPTR th (e_key e')) = Some bs ->
            bytes_at (<[c:=CInode nc0]> (<[a:=CInode nC]> (mem s))) (THMAP_GETPTR th (e_key e')) = Some bs)
    as HbyC.
  { intros bs Hbs. unfold bytes_at. rewrite lookup_insert_ne by done.
    rewrite lookup_insert_ne; [exact Hbs|]. intros E. rewrite <- E in Hbs.
    apply bytes_at_lookup in Hbs. apply inode_at_lookup in Hn. congruence. }
  assert (if nocopy th
          then 0 <= e_key e' < 2 ^ 64 /\
               key_at (<[c:=CInode nc0]> (<[a:=CInode nC]> (mem s)))
                 (THMAP_GETPTR th (e_key e')) (Z.of_nat (length kb')) kb'
          else off_ok (e_key e') /\
               bytes_at (<[c:=CInode nc0]> (<[a:=CInode nC]> (mem s)))
                 (THMAP_GETPTR th (e_key e')) = Some kb') as HkeyC.
  { destruct (nocopy th).
    - destruct Hkey as [? (bs & Hbs & ?)]. split; [done|]. exists bs. split; [by apply HbyC|done].
    - destruct Hkey as [? Hbs]. split; [done|]. by apply HbyC. }
  assert (forall g, g ∈ gc_list s -> addr g <> e_off e' /\ (nocopy th = false -> addr g <> e_key e'))
    as HgcC.
  { intros g Hg. destruct (inv_gc _ _ _ HI) as [_ Hgc].
    destruct (Hgc g Hg) as (_ & _ & _ & Hge). by eapply Hge. }
  pose proof (Inv_insert_leaf _ GC _ c (S d) nc0 kb' (e_off e') (e_key e') (e_val e')
                (1 + NODE_LOCKED) [] HC Hcin HcC HncC Hj HnoneC Hoff Hnz HleafC HkeyC HgcC
                ltac:(simpl; lia)) as HD.
  cbn [mem ast gc_list slots state parent nc0 g_nodes g_ents GC GA] in HD.
  fold j in HD. rewrite insert_insert_eq in HD. rewrite insert_delete_eq in HD.
  (* [a] is unlocked *)
  set (nD := mk_inode (1 + NODE_LOCKED) (THMAP_GETOFF th a)
               (<[j:=Z.lor (e_off e') THMAP_LEAF_BIT]> (replicate (Z.to_nat LEVEL_SIZE) 0))) in *.
  assert (inode_at (<[c:=CInode nD]> (<[a:=CInode nC]> (mem s))) a = Some nC) as HnD.
  { rewrite inode_at_insert_ne by done. apply inode_at_insert_eq. }
  assert (count_nz (slots nC) = count_nz (slots n)) as Hcnt.
  { simpl. rewrite (count_nz_insert _ _ _ _ Hsb).
    destruct Hc as (_ & _ & [? _]).
    rewrite decide_False by done. rewrite decide_False by lia. lia. }
  pose proof (Inv_restate _ ({[c]}) _ _ a (kpath kb' d) nC (count_nz (slots n)) l' HD) as HE.
  cbn [mem ast gc_list g_nodes] in HE.
  specialize (HE ltac:(by rewrite lookup_insert_ne) HnD).
  specialize (HE ltac:(intros x Hx; clear -Hx; set_solver)).
  rewrite decide_False in HE by (clear -Hac; set_solver).
  specialize (HE ltac:(rewrite Hcnt; lia) ltac:(intros _ _; rewrite Hcnt; lia)).
  cbn [slots state parent nC] in HE.
  rewrite (insert_insert_ne _ a c) in HE by done. rewrite insert_insert_eq in HE.
  rewrite (insert_insert_ne _ c a) in HE by done.
  exact HE.
Qed.

Lemma node_create_run s par :
  par <> 0 -> baseptr th mod 4 = 0 ->
  let co := (alloc (ops th) (offsetof_slots LEVEL_SIZE) (ast s)).1 in
  let a' := (alloc (ops th) (offsetof_slots LEVEL_SIZE) (ast s)).2 in
  (co <> 0 -> co mod 4 = 0) ->
  node_create th par s =
    Ok (if co =? 0 then 0 else THMAP_GETPTR th co)
       (mk_st (if co =? 0 then mem s
               else <[THMAP_GETPTR th co :=
                        CInode (mk_inode NODE_LOCKED (THMAP_GETOFF th par)
                                  (replicate (Z.to_nat LEVEL_SIZE) 0))]> (mem s))
              a' (gc_list s) (log s ++ [EvAlloc (offsetof_slots LEVEL_SIZE) co])).
Proof.
  intros Hpar Hbase co a' Hal. unfold node_create.
  erewrite bind_run; [|apply assert_run; by apply negb_true_iff, Z.eqb_neq].
  rewrite (bind_run _ _ _ _ _ (ops_alloc_run _ _)). fold co a'.
  destruct (co =? 0) eqn:E; [done|]. apply Z.eqb_neq in E.
  erewrite bind_run; [|apply assert_run; apply getptr_aligned; [done|by apply Hal]].
  erewrite bind_run; [|eapply init_cell_run; cbn [mem]; apply lookup_insert_eq].
  cbn [mem ast gc_list log]. rewrite insert_insert_eq.
  erewrite bind_run; [|eapply store_state_run; cbn [mem]; apply inode_at_insert_eq].
  cbn [mem ast gc_list log zero_inode state parent slots]. rewrite insert_insert_eq.
  erewrite bind_run; [|eapply load_inode_run; cbn [mem]; apply inode_at_insert_eq].
  erewrite bind_run; [|eapply store_inode_run; cbn [mem]; apply inode_at_insert_eq].
  cbn [mem ast gc_list log state parent slots]. by rewrite insert_insert_eq.
Qed.

(** *** Events *)

Definition is_alloc_ev (e : event) : bool :=
  match e with EvAlloc _ _ | EvFree _ _ => true | _ => false end.

(** The calls of the allocator among [evs], in order. *)
Definition allocs (evs : list event) : list event := List.filter is_alloc_ev evs.

(** The offsets of the nodes that [evs] links into the tree. *)
Definition pubs (evs : list event) : list Z :=
  omap (fun e => match e with EvPublish _ _ c => Some c | _ => None end) evs.

(** What [evs] stages for G/C. *)
Definition stages (evs : list event) : list (Z * Z) :=
  omap (fun e => match e with EvStage o n => Some (o, n) | _ => None end) evs.

Lemma allocs_app evs evs' : allocs (evs ++ evs') = allocs evs ++ allocs evs'.
Proof. apply List.filter_app. Qed.

Lemma pubs_app evs evs' : pubs (evs ++ evs') = pubs evs ++ pubs evs'.
Proof. apply omap_app. Qed.

Lemma stages_app evs evs' : stages (evs ++ evs') = stages evs ++ stages evs'.
Proof. apply omap_app. Qed.

Definition leaf_free_events (klen lo ko : Z) : list event :=
  (if nocopy th then [] else [EvFree ko klen]) ++ [EvFree lo sizeof_leaf].

(** The contents of the map: the value of each key. *)
Definition amap (G : ghost) : gmap (list Z) Z := e_val <$> g_ents G.

(** [leaf_free] of the leaf that was prepared. *)
Lemma leaf_free_run lk G s kb v lo ko :
  Inv lk G s -> pending G s kb v lo ko ->
  exists s', leaf_free th (THMAP_GETPTR th lo) s = Ok v s' /\
    log s' = log s ++ leaf_free_events (Z.of_nat (length kb)) lo ko /\
    gc_list s' = gc_list s /\ Inv lk G s' /\
    (forall x, inode_at (mem s') x = inode_at (mem s) x) /\
    (forall x bs, bytes_at (mem s) x = Some bs ->
       (nocopy th = false -> x <> THMAP_GETPTR th ko) -> bytes_at (mem s') x = Some bs).
Proof.
  intros HI [Hoff Hnz Hleaf Hkey Hur Hurk].
  unfold leaf_free. mstep (load_leaf_run _ _ _ Hleaf). cbn [val key len].
  rewrite nocopy_flag. unfold leaf_free_events.
  assert (0 <= lo < 2 ^ 64) as Hlor by (destruct Hoff; lia).
  rewrite getoff_getptr by done.
  pose proof Hleaf as Hl%leaf_at_lookup.
  destruct (nocopy th) eqn:Enc; cbn [negb].
  - rewrite (bind_run _ _ _ _ _ (ret_run _ _)).
    erewrite bind_run; [|by eapply ops_free_run]. rewrite ret_run.
    eexists. split; [done|]. cbn [mem ast gc_list log].
    split; [done|]. split; [done|]. split; [by apply Inv_free|].
    split.
    + intros x. unfold inode_at. rewrite lookup_delete. case_decide; [|done].
      subst x. by rewrite Hl.
    + intros x bs Hb%bytes_at_lookup _. apply bytes_at_lookup.
      rewrite lookup_delete_ne; [done|]. intros <-. congruence.
  - destruct Hkey as [Hkoff Hkb]. destruct (Hurk eq_refl) as [Huk Hne].
    pose proof Hkb as Hkb'%bytes_at_lookup.
    erewrite bind_run; [|by eapply ops_free_run]. cbn [mem ast gc_list log].
    erewrite bind_run; [|eapply ops_free_run; cbn [mem]; by rewrite lookup_delete_ne].
    rewrite ret_run. eexists. split; [done|]. cbn [mem ast gc_list log].
    split; [by rewrite <- app_assoc|]. split; [done|].
    split.
    { apply (Inv_free lk G (mk_st _ _ _ (log s)) (THMAP_GETPTR th lo)); [|done].
      by apply Inv_free. }
    split.
    + intros x. unfold inode_at. rewrite !lookup_delete. repeat case_decide; try done.
      * subst x. by rewrite Hl.
      * subst x. by rewrite Hkb'.
    + intros x bs Hb%bytes_at_lookup Hx. apply bytes_at_lookup.
      rewrite lookup_delete_ne; [|intros <-; congruence].
      rewrite lookup_delete_ne; [done|]. intros <-. by apply Hx.
Qed.

Lemma count_nz_room (l : list Z) (i : nat) :
  l !! i = Some 0 -> count_nz l < Z.of_nat (length l).
Proof.
  intros H. pose proof (count_nz_insert l i 0 1 H) as E.
  pose proof (count_nz_bounds (<[i := 1]> l)) as B.
  rewrite length_insert in B. repeat case_decide; try done. lia.
Qed.

Lemma fanout_bound lvl : 0 < fanout lvl <= 64.
Proof. unfold fanout. by destruct (lvl =? 0). Qed.

(** The last step of an insertion: the new leaf goes into an empty
    slot of the locked node, which is then unlocked. *)
Lemma put_finish G s a d n kb v lo ko :
  Inv {[a]} G s -> g_nodes G !! a = Some (kpath kb d) -> inode_at (mem s) a = Some n ->
  slots n !! Z.to_nat (kslot kb (Z.of_nat d)) = Some 0 -> g_ents G !! kb = None ->
  pending G s kb v lo ko ->
  (node_insert a (kslot kb (Z.of_nat d)) (Z.lor lo THMAP_LEAF_BIT) ≫= fun _ =>
     unlock_node a ≫= fun _ => mret v) s =
    Ok v (mk_st (<[a := CInode (mk_inode (count_nz (slots n) + 1) (parent n)
                   (<[Z.to_nat (kslot kb (Z.of_nat d)) := Z.lor lo THMAP_LEAF_BIT]> (slots n)))]>
                   (mem s))
            (ast s) (gc_list s)
            (log s ++ [EvInsert a (kslot kb (Z.of_nat d)) (Z.lor lo THMAP_LEAF_BIT); EvUnlock a])) /\
  Inv ∅ (mk_ghost (g_nodes G) (<[kb := mk_entry lo ko v d]> (g_ents G)))
    (mk_st (<[a := CInode (mk_inode (count_nz (slots n) + 1) (parent n)
                   (<[Z.to_nat (kslot kb (Z.of_nat d)) := Z.lor lo THMAP_LEAF_BIT]> (slots n)))]>
                   (mem s))
            (ast s) (gc_list s)
            (log s ++ [EvInsert a (kslot kb (Z.of_nat d)) (Z.lor lo THMAP_LEAF_BIT); EvUnlock a])).
Proof.
  intros HI Ha Hn Hs He [Hoff Hnz Hleaf Hkey Hur Hurk].
  assert (a ∈ ({[a]} : gset Z)) as Hain by set_solver.
  pose proof (node_state _ _ _ _ _ _ HI Ha Hn) as Hst. rewrite decide_True in Hst by done.
  destruct (inv_nodes _ _ _ HI _ _ Ha) as (n0 & Hn0 & Haok & Hlen & _).
  assert (n0 = n) as -> by congruence.
  pose proof (count_nz_room _ _ Hs) as Hroom. pose proof (count_nz_bounds (slots n)) as Hcb.
  pose proof (fanout_bound (Z.of_nat (length (kpath kb d)))) as Hfb.
  destruct (state_word_facts (count_nz (slots n))) as (_ & _ & Hlk & _ & _ & Hdl & _ & Hct & Hinc & _); [lia|].
  destruct (state_word_facts (count_nz (slots n) + 1)) as (_ & _ & Hlk1 & Hcl1 & _); [lia|].
  assert (Z.lor lo THMAP_LEAF_BIT <> 0) as Htnz by (by apply leaf_tag_nonzero).
  pose proof (count_nz_insert _ _ _ (Z.lor lo THMAP_LEAF_BIT) Hs) as Hci.
  rewrite decide_True, decide_False in Hci by done.
  set (l1 := log s ++ [EvInsert a (kslot kb (Z.of_nat d)) (Z.lor lo THMAP_LEAF_BIT)]).
  epose proof (Inv_insert_leaf _ _ _ _ _ _ _ _ _ _ _ l1 HI Hain Ha Hn Hs He Hoff Hnz Hleaf Hkey _ eq_refl) as HI1.
  epose proof (Inv_restate _ ∅ _ _ a _ _ (count_nz (slots n) + 1) (l1 ++ [EvUnlock a]) HI1 Ha
                 (inode_at_insert_eq _ _ _) _ _ _) as HI2.
  cbn [mem ast gc_list log state parent slots] in HI2. rewrite insert_insert_eq in HI2.
  unfold l1 in HI2. rewrite <- app_assoc in HI2. split; [|exact HI2].
  erewrite bind_run; [|apply node_insert_run; eauto].
  2:{ unfold node_locked_p. rewrite Hst. by rewrite Hlk. }
  2:{ by rewrite Hst. }
  2:{ rewrite Hst, Hct. change ROOT_SIZE with 64. lia. }
  erewrite bind_run; [|eapply unlock_node_run; [apply inode_at_insert_eq|]].
  2:{ unfold node_locked_p. cbn [state]. rewrite Hst, Hinc. by rewrite Hlk1. }
  cbn [mem ast gc_list log state parent slots]. rewrite insert_insert_eq.
  rewrite Hst, Hinc, Hcl1, <- app_assoc. done.
  Unshelve.
  - intros g Hg. split.
    + by eapply unref_not_staged.
    + intros Hnc. destruct (Hurk Hnc) as [Huk _]. by eapply unref_not_staged.
  - intros b Hb. set_solver.
  - cbn [slots]. rewrite decide_False by set_solver. lia.
  - cbn [slots]. lia.
Qed.

(** The state after one round of expansion: the node [a] holds the new
    node at [co] where it held the leaf of [kb'], and is unlocked; the
    new node holds that leaf and is locked. *)
Definition expand_st (s : st) (a : Z) (n : thmap_inode_t) (kb' : list Z) (e' : entry)
    (co : Z) (a' : A) : st :=
  let c := THMAP_GETPTR th co in
  let j := kslot kb' (Z.of_nat (S (e_depth e'))) in
  mk_st (<[a := CInode (mk_inode (count_nz (slots n)) (parent n)
                  (<[Z.to_nat (kslot kb' (Z.of_nat (e_depth e'))) := co]> (slots n)))]>
           (<[c := CInode (mk_inode (1 + NODE_LOCKED) (THMAP_GETOFF th a)
                     (<[Z.to_nat j := Z.lor (e_off e') THMAP_LEAF_BIT]>
                        (replicate (Z.to_nat LEVEL_SIZE) 0)))]> (mem s)))
        a' (gc_list s)
        (log s ++ [EvAlloc THMAP_INODE_LEN co;
                   EvInsert c j (Z.lor (e_off e') THMAP_LEAF_BIT);
                   EvPublish a (kslot kb' (Z.of_nat (e_depth e'))) co;
                   EvUnlock a]).

Lemma leaf_at_insert_other m x c q : x <> q -> leaf_at (<[x := c]> m) q = leaf_at m q.
Proof. intros H. unfold leaf_at. by rewrite lookup_insert_ne. Qed.

Lemma hashval_getleafslot_run s leaf lvl lf kb :
  leaf_at (mem s) leaf = Some lf ->
  key_at (mem s) (THMAP_GETPTR th (key lf)) (len lf) kb ->
  hashval_getleafslot th leaf lvl s = Ok (kslot kb lvl) s.
Proof.
  intros Hl Hk. unfold hashval_getleafslot.
  rewrite (bind_run _ _ _ _ _ (load_leaf_run _ _ _ Hl)).
  by rewrite (bind_run _ _ _ _ _ (hashval_getslot_run _ _ _ _ _ Hk (cache_ok_init _ _))).
Qed.

Lemma put_descend_unfold G s a n kb kb' e' k klen v leaf fuel co a' :
  Inv {[a]} G s -> g_ents G !! kb' = Some e' ->
  g_nodes G !! a = Some (kpath kb' (e_depth e')) -> inode_at (mem s) a = Some n ->
  Z.of_nat (e_depth e') + 1 < 2 ^ 32 ->
  key_at (mem s) k klen kb ->
  kslot kb (Z.of_nat (e_depth e')) = kslot kb' (Z.of_nat (e_depth e')) ->
  alloc (ops th) THMAP_INODE_LEN (ast s) = (co, a') ->
  put_descend (S fuel) th (query_at kb (Z.of_nat (e_depth e'))) k klen v leaf
      (THMAP_GETPTR th (e_off e')) a (kslot kb (Z.of_nat (e_depth e'))) s =
    if co =? 0
    then (leaf_free th leaf ≫= fun _ => unlock_node a ≫= fun _ => mret 0)
           (mk_st (mem s) a' (gc_list s) (log s ++ [EvAlloc THMAP_INODE_LEN 0]))
    else
      if kslot kb (Z.of_nat (S (e_depth e'))) =? kslot kb' (Z.of_nat (S (e_depth e')))
      then put_descend fuel th (query_at kb (Z.of_nat (S (e_depth e')))) k klen v leaf
             (THMAP_GETPTR th (e_off e')) (THMAP_GETPTR th co)
             (kslot kb (Z.of_nat (S (e_depth e')))) (expand_st s a n kb' e' co a')
      else (node_insert (THMAP_GETPTR th co) (kslot kb (Z.of_nat (S (e_depth e'))))
              (Z.lor (THMAP_GETOFF th leaf) THMAP_LEAF_BIT) ≫= fun _ =>
            unlock_node (THMAP_GETPTR th co) ≫= fun _ => mret v)
             (expand_st s a n kb' e' co a').
Proof.
  intros HI He' Ha Hn Hd Hk Hslot Hal.
  assert (a ∈ ({[a]} : gset Z)) as Hain by set_solver.
  destruct (inv_base _ _ _ HI) as [Hbr Hba].
  destruct (inv_nodes _ _ _ HI _ _ Ha) as (n0 & Hn0 & Haok & Hlen & _).
  assert (n0 = n) as -> by congruence.
  pose proof (node_state _ _ _ _ _ _ HI Ha Hn) as Hst. rewrite decide_True in Hst by done.
  pose proof (node_count_bound _ _ _ _ _ _ HI Ha Hn) as Hcb.
  destruct (state_word_facts (count_nz (slots n))) as (_ & _ & Hlk & Hcl & _); [lia|].
  destruct (inv_ents _ _ _ HI _ _ He') as (Heoff & Henz & Heleaf & Hekey & (a0 & na0 & Ha0 & Hna0 & Hsl0)).
  assert (a0 = a) as -> by (by eapply (node_path_inj _ _ _ HI)).
  assert (na0 = n) as -> by congruence.
  pose proof (ent_key_at _ _ _ HI _ _ He') as Hk'.
  pose proof (Inv_alloc _ _ _ THMAP_INODE_LEN (log s) HI) as Hfresh. cbv zeta in Hfresh.
  rewrite Hal in Hfresh. cbn [fst snd] in Hfresh.
  cbn [put_descend].
  rewrite (bind_run _ _ _ _ _ (node_create_run s a ltac:(by destruct Haok) Hba
             ltac:(fold THMAP_INODE_LEN; rewrite Hal; cbn [fst];
                   intros Hco; destruct Hfresh as [[? _]|[[_ ?] _]]; done))).
  fold THMAP_INODE_LEN. rewrite Hal. cbn [fst snd].
  destruct (Z.eqb_spec co 0) as [->|Eco]; cbv iota; [reflexivity|].
  destruct Hfresh as [[? _]|(Hcoff & Hcnz & Hcfresh & _)]; [done|].
  set (c := THMAP_GETPTR th co) in *.
  assert (c <> a) as Hca.
  { intros ->. apply inode_at_lookup in Hn. congruence. }
  assert (THMAP_GETOFF th c = co) as Hgo by (apply getoff_getptr; destruct Hcoff; lia).
  destruct (c =? 0) eqn:Ec0; [by apply Z.eqb_eq in Ec0|].
  cbn [level hashidx hashval query_at].
  assert (u32 (Z.of_nat (e_depth e') + 1) = Z.of_nat (S (e_depth e'))) as ->.
  { unfold u32. rewrite Z.mod_small; lia. }
  (* the slot of the other leaf *)
  erewrite bind_run; [|eapply (hashval_getleafslot_run _ _ _ _ kb');
                       [cbn [mem]; rewrite leaf_at_insert_other; [exact Heleaf|]|]].
  2:{ intros E. apply leaf_at_lookup in Heleaf. rewrite <- E in Heleaf. congruence. }
  2:{ cbn [mem key len]. eapply mem_kept_key_at; [by apply mem_kept_insert_fresh|exact Hk']. }
  pose proof (kslot_range kb' (Z.of_nat (S (e_depth e')))) as Hjr.
  assert (fanout (Z.of_nat (S (e_depth e'))) = LEVEL_SIZE) as Hfo.
  { unfold fanout. destruct (Z.of_nat (S (e_depth e')) =? 0) eqn:E; [|done].
    apply Z.eqb_eq in E. lia. }
  rewrite Hfo in Hjr.
  rewrite getoff_getptr by (destruct Heoff; lia).
  erewrite bind_run; [|eapply node_insert_run; [cbn [mem]; apply inode_at_insert_eq|done|done| |done]].
  2:{ cbn [slots]. by apply replicate_slot. }
  cbn [mem ast gc_list log state parent slots]. rewrite insert_insert_eq.
  change (u32 (NODE_LOCKED + 1)) with (1 + NODE_LOCKED).
  (* the new node is linked in the place of the leaf *)
  erewrite bind_run; [|eapply store_slot_run; [cbn [mem]; rewrite inode_at_insert_ne by done; exact Hn|]].
  2:{ rewrite Hslot. by eapply lookup_lt_Some. }
  cbn [mem ast gc_list log]. rewrite Hgo.
  rewrite (bind_run _ _ _ _ _ (emit_run _ _)). cbn [mem ast gc_list log].
  erewrite bind_run; [|eapply unlock_node_run; [cbn [mem]; apply inode_at_insert_eq|]].
  2:{ unfold node_locked_p. cbn [state]. rewrite Hst. by rewrite Hlk. }
  cbn [mem ast gc_list log state parent slots]. rewrite insert_insert_eq.
  rewrite Hst, Hcl.
  erewrite bind_run; [|eapply load_inode_run; cbn [mem];
                       rewrite inode_at_insert_ne by done; apply inode_at_insert_eq].
  erewrite bind_run; [|by apply assert_run].
  erewrite bind_run; [|apply (hashval_getslot_run _ _ _ _ kb); [|by right]].
  2:{ cbn [mem]. eapply mem_kept_key_at; [|exact Hk].
      eapply mem_kept_trans; [by apply mem_kept_insert_fresh|].
      eapply mem_kept_insert_inode. rewrite inode_at_insert_ne by done. exact Hn. }
  cbn [fst snd level]. rewrite Hslot, <- !app_assoc. unfold expand_st. fold c.
  by destruct (kslot kb (Z.of_nat (S (e_depth e'))) =? kslot kb' (Z.of_nat (S (e_depth e')))).
Qed.

(** *** What an insertion does to the map *)

(** The part of an entry that the program stores: the offsets of the
    leaf and of its key, and the value. *)
Definition ecore (e : entry) : Z * Z * Z := (e_off e, e_key e, e_val e).
Definition emap (G : ghost) : gmap (list Z) (Z * Z * Z) := ecore <$> g_ents G.

Lemma amap_emap G : amap G = snd <$> emap G.
Proof. unfold amap, emap. rewrite <- map_fmap_compose. by apply map_fmap_ext. Qed.

Lemma emap_lookup G kb t :
  emap G !! kb = Some t <-> exists e, g_ents G !! kb = Some e /\ ecore e = t.
Proof.
  unfold emap. rewrite lookup_fmap. destruct (g_ents G !! kb) as [e|]; simpl.
  - split; [intros [= <-]; by exists e|intros (e0 & [= <-] & <-); done].
  - split; [done|by intros (? & ? & _)].
Qed.

Lemma emap_expand G kb' e' c :
  g_ents G !! kb' = Some e' -> emap (expand_ghost G kb' e' c) = emap G.
Proof.
  intros H. unfold emap, expand_ghost. cbn [g_ents]. rewrite fmap_insert.
  apply insert_id. by rewrite lookup_fmap, H.
Qed.

(** The nodes of [G'] are those of [G] and the new ones at the
    offsets [cs]. *)
Definition grown (G G' : ghost) (cs : list Z) : Prop :=
  dom (g_nodes G') = dom (g_nodes G) ∪ list_to_set (THMAP_GETPTR th <$> cs) /\
  forall c, c ∈ cs -> g_nodes G !! THMAP_GETPTR th c = None /\ 0 < c < 2 ^ 64.

Lemma grown_nil G G' : g_nodes G' = g_nodes G -> grown G G' [].
Proof. intros E. split; [rewrite E; set_solver|]. intros c Hc. by apply elem_of_nil in Hc. Qed.

Lemma grown_cons G G1 G' c cs :
  g_nodes G !! THMAP_GETPTR th c = None -> 0 < c < 2 ^ 64 ->
  dom (g_nodes G1) = dom (g_nodes G) ∪ {[THMAP_GETPTR th c]} ->
  grown G1 G' cs -> grown G G' (c :: cs).
Proof.
  intros Hc Hr Hd [H1 H2]. split.
  - rewrite H1, Hd. rewrite fmap_cons, list_to_set_cons. set_solver.
  - intros c0 [->|Hc0]%elem_of_cons; [done|].
    apply H2 in Hc0 as [Hc0 ?]. split; [|done].
    apply not_elem_of_dom. apply not_elem_of_dom in Hc0.
    rewrite Hd in Hc0. set_solver.
Qed.

(** The leaf of [kb] is in the root, or is not alone in its node. *)
Definition roomy (G : ghost) (s : st) (kb : list Z) : Prop :=
  exists e a n, g_ents G !! kb = Some e /\ g_nodes G !! a = Some (kpath kb (e_depth e)) /\
    inode_at (mem s) a = Some n /\ (e_depth e = 0%nat \/ 2 <= count_nz (slots n)).

Lemma pending_mono G G' s s' kb v lo ko :
  pending G s kb v lo ko ->
  leaf_at (mem s') (THMAP_GETPTR th lo) = leaf_at (mem s) (THMAP_GETPTR th lo) ->
  mem_kept (mem s) (mem s') ->
  gc_list s' = gc_list s ->
  g_nodes G' !! THMAP_GETPTR th lo = None ->
  (nocopy th = false -> g_nodes G' !! THMAP_GETPTR th ko = None) ->
  (forall kb e', g_ents G' !! kb = Some e' ->
     exists e, g_ents G !! kb = Some e /\ e_off e = e_off e' /\ e_key e = e_key e') ->
  pending G' s' kb v lo ko.
Proof.
  intros [Hoff Hnz Hleaf Hkey Hur Hurk] Hl Hm Hg Hn Hnk He.
  split; try done.
  - by rewrite Hl.
  - destruct (nocopy th).
    + destruct Hkey as [? Hk]. split; [done|]. by eapply mem_kept_key_at.
    + destruct Hkey as [? Hk]. split; [done|]. by apply Hm.
  - rewrite Hg. by eapply unref_mono.
  - intros Hnc. destruct (Hurk Hnc) as [H1 H2]. split; [|done].
    rewrite Hg. eapply unref_mono; [done|by apply Hnk|done].
Qed.

Lemma kpath_S_inj kb kb' d :
  kpath kb' (S d) = kpath kb (S d) ->
  kpath kb' d = kpath kb d /\ kslot kb (Z.of_nat d) = kslot kb' (Z.of_nat d).
Proof.
  rewrite !kpath_S. intros H. apply app_inj_tail in H as [H1 H2]. done.
Qed.

Lemma kpath_prefix_slot kb kb' d j :
  kpath kb' d = kpath kb d -> (j < d)%nat -> kslot kb (Z.of_nat j) = kslot kb' (Z.of_nat j).
Proof.
  induction d as [|d IH]; [lia|]. intros H Hj.
  apply kpath_S_inj in H as [H1 H2].
  destruct (decide (j = d)) as [->|]; [done|]. apply IH; [done|lia].
Qed.

(** The two outcomes of the expansion loop of [thmap_put]. *)
Definition put_done (G G' : ghost) (s s' : st) (kb : list Z) (v lo ko r : Z)
    (evs : list event) : Prop :=
  r = v /\ emap G' = <[kb := (lo, ko, v)]> (emap G) /\
  allocs evs = map (EvAlloc THMAP_INODE_LEN) (pubs evs) /\
  mem_kept (mem s) (mem s') /\ roomy G' s' kb.

Definition put_failed (G G' : ghost) (s s' : st) (klen lo ko r : Z)
    (evs : list event) : Prop :=
  r = 0 /\ emap G' = emap G /\
  allocs evs = map (EvAlloc THMAP_INODE_LEN) (pubs evs) ++
               EvAlloc THMAP_INODE_LEN 0 :: leaf_free_events klen lo ko /\
  (forall x bs, bytes_at (mem s) x = Some bs ->
     (nocopy th = false -> x <> THMAP_GETPTR th ko) -> bytes_at (mem s') x = Some bs).

Lemma put_descend_run k klen v lo ko kb kb' L :
  kslot kb (Z.of_nat L) <> kslot kb' (Z.of_nat L) -> Z.of_nat L < 2 ^ 32 ->
  forall m G s a n e',
    (L - e_depth e' <= m)%nat ->
    Inv {[a]} G s -> g_ents G !! kb' = Some e' -> g_ents G !! kb = None ->
    g_nodes G !! a = Some (kpath kb' (e_depth e')) -> inode_at (mem s) a = Some n ->
    kpath kb' (S (e_depth e')) = kpath kb (S (e_depth e')) ->
    key_at (mem s) k klen kb -> pending G s kb v lo ko ->
    exists r s' G' evs,
      (forall fuel, (m <= fuel)%nat ->
         put_descend fuel th (query_at kb (Z.of_nat (e_depth e'))) k klen v
           (THMAP_GETPTR th lo) (THMAP_GETPTR th (e_off e')) a
           (kslot kb (Z.of_nat (e_depth e'))) s = Ok r s') /\
      Inv ∅ G' s' /\ log s' = log s ++ evs /\ gc_list s' = gc_list s /\
      grown G G' (pubs evs) /\ stages evs = [] /\
      (forall L' : nat, kslot kb (Z.of_nat L') <> kslot kb' (Z.of_nat L') ->
         (length (pubs evs) + e_depth e' <= L')%nat) /\
      (put_done G G' s s' kb v lo ko r evs \/ put_failed G G' s s' klen lo ko r evs).
Proof.
  intros HL HLr. induction m as [|m IH]; intros G s a n e' Hfuel HI He' Hkb Ha Hn Hpath Hk Hpd.
  { exfalso. assert (L < S (e_depth e'))%nat as HLd by lia.
    apply HL. eapply kpath_prefix_slot; [exact Hpath|done]. }
  assert (forall L' : nat, kslot kb (Z.of_nat L') <> kslot kb' (Z.of_nat L') ->
            (e_depth e' < L')%nat) as Hdeep.
  { intros L' HL'. destruct (decide (e_depth e' < L')%nat); [done|]. exfalso.
    apply HL'. eapply (kpath_prefix_slot _ _ (S (e_depth e'))); [exact Hpath|lia]. }
  assert (e_depth e' < L)%nat as Hlt by (by apply Hdeep).
  destruct (kpath_S_inj _ _ _ Hpath) as [Hpath0 Hslot].
  assert (a ∈ ({[a]} : gset Z)) as Hain by set_solver.
  destruct (alloc (ops th) THMAP_INODE_LEN (ast s)) as [co a'] eqn:Hal.
  assert (Z.of_nat (e_depth e') + 1 < 2 ^ 32) as Hdr by lia.
  pose proof (fun fuel => put_descend_unfold G s a n kb kb' e' k klen v
                (THMAP_GETPTR th lo) fuel co a' HI He' Ha Hn Hdr Hk Hslot Hal) as Hunf.
  pose proof (Inv_alloc _ _ _ THMAP_INODE_LEN (log s ++ [EvAlloc THMAP_INODE_LEN co]) HI) as Hfresh.
  cbv zeta in Hfresh. rewrite Hal in Hfresh. cbn [fst snd] in Hfresh.
  pose proof (key_at_length _ _ _ _ Hk) as Hklen.
  pose proof (node_state _ _ _ _ _ _ HI Ha Hn) as Hst. rewrite decide_True in Hst by done.
  pose proof (node_count_bound _ _ _ _ _ _ HI Ha Hn) as Hcb.
  destruct (state_word_facts (count_nz (slots n))) as (_ & _ & Hlk & Hcl & _); [lia|].
  destruct (Z.eqb_spec co 0) as [->|Eco].
  - (* no memory for the node *)
    destruct Hfresh as [[_ HI1]|[[? _] _]]; [|lia].
    set (s1 := mk_st (mem s) a' (gc_list s) (log s ++ [EvAlloc THMAP_INODE_LEN 0])) in *.
    assert (pending G s1 kb v lo ko) as Hpd1.
    { destruct Hpd. constructor; assumption. }
    destruct (leaf_free_run _ _ _ _ _ _ _ HI1 Hpd1) as (s2 & Hrun & Hlog & Hgc & HI2 & Hino & Hkept).
    assert (inode_at (mem s2) a = Some n) as Hn2 by (by rewrite Hino).
    eexists 0, _, G, _. split.
    { intros fuel Hf. destruct fuel as [|fuel]; [lia|]. rewrite Hunf. cbn [Z.eqb].
      fold s1. rewrite (bind_run _ _ _ _ _ Hrun).
      erewrite bind_run; [|eapply unlock_node_run; [exact Hn2|]].
      2:{ unfold node_locked_p. by rewrite Hst, Hlk. }
      by rewrite ret_run. }
    cbn [mem ast gc_list log].
    split.
    { eapply Inv_restate; [exact HI2|exact Ha|exact Hn2| | |].
      - intros b Hb. set_solver.
      - rewrite decide_False by set_solver. rewrite Hst, Hcl. lia.
      - intros Hp _. destruct (inv_nodes _ _ _ HI _ _ Ha) as (n0 & Hn0 & _ & _ & _ & _ & Hpos & _).
        assert (n0 = n) as -> by congruence.
        destruct (inv_ents _ _ _ HI _ _ He') as (_ & _ & _ & _ & (a0 & na0 & Ha0 & Hna0 & Hsl0)).
        assert (a0 = a) as -> by (by eapply (node_path_inj _ _ _ HI)).
        assert (na0 = n) as -> by congruence.
        eapply count_nz_pos; [exact Hsl0|]. apply leaf_tag_nonzero.
        by destruct (inv_ents _ _ _ HI _ _ He'). }
    split.
    { rewrite Hlog. unfold s1. cbn [log]. rewrite <- !app_assoc. reflexivity. }
    split; [by rewrite Hgc|].
    split.
    { rewrite !pubs_app. unfold leaf_free_events. destruct (nocopy th); by apply grown_nil. }
    split.
    { rewrite !stages_app. unfold leaf_free_events. by destruct (nocopy th). }
    split.
    { intros L' HL'. specialize (Hdeep _ HL'). rewrite !pubs_app.
      unfold leaf_free_events. destruct (nocopy th); simpl; lia. }
    right. split; [done|]. split; [done|]. split.
    { rewrite !allocs_app, !pubs_app. rewrite Hklen.
      unfold leaf_free_events. by destruct (nocopy th). }
    intros x bs Hb Hx. apply bytes_at_lookup. cbn [mem].
    rewrite lookup_insert_ne.
    + apply bytes_at_lookup. by apply Hkept.
    + intros <-. apply (Hkept _ _ Hb) in Hx. apply bytes_at_lookup in Hx.
      apply inode_at_lookup in Hn2. congruence.
  - (* the tree grows by one node *)
    destruct Hfresh as [[? _]|(Hcoff & Hcnz & Hcfresh & HI1)]; [done|].
    set (c := THMAP_GETPTR th co) in *.
    assert (c <> a) as Hca.
    { intros ->. apply inode_at_lookup in Hn. congruence. }
    assert (addr_ok c) as Hcok by (by apply addr_ok_off).
    pose proof (unref_fresh _ _ _ _ HI Hcfresh) as Hcur.
    epose proof (Inv_expand G _ a n kb' e' c
                   (log (expand_st s a n kb' e' co a')) HI1 He' Ha _ ltac:(lia) Hcok Hcur _) as HI2.
    cbn [mem ast gc_list log] in HI2. rewrite insert_insert_eq in HI2.
    assert (THMAP_GETOFF th c = co) as Hgo by (apply getoff_getptr; destruct Hcoff; lia).
    rewrite Hgo in HI2. fold (expand_st s a n kb' e' co a') in HI2.
    set (G1 := expand_ghost G kb' e' c) in *.
    set (s1 := expand_st s a n kb' e' co a') in *.
    set (nc := mk_inode (1 + NODE_LOCKED) (THMAP_GETOFF th a)
                 (<[Z.to_nat (kslot kb' (Z.of_nat (S (e_depth e')))) :=
                      Z.lor (e_off e') THMAP_LEAF_BIT]> (replicate (Z.to_nat LEVEL_SIZE) 0))).
    assert (inode_at (mem s1) c = Some nc) as Hnc.
    { unfold s1, expand_st. cbn [mem]. rewrite inode_at_insert_ne by done.
      apply inode_at_insert_eq. }
    assert (mem_kept (mem s) (mem s1)) as Hmk.
    { unfold s1, expand_st. cbn [mem].
      eapply mem_kept_trans; [by apply mem_kept_insert_fresh|].
      eapply mem_kept_insert_inode. rewrite inode_at_insert_ne by done. exact Hn. }
    assert (kb <> kb') as Hne by (intros ->; congruence).
    assert (g_ents G1 !! kb = None) as Hkb1.
    { unfold G1, expand_ghost. cbn [g_ents]. by rewrite lookup_insert_ne. }
    assert (g_nodes G1 !! c = Some (kpath kb (S (e_depth e')))) as Hc1.
    { unfold G1, expand_ghost. cbn [g_nodes]. by rewrite lookup_insert_eq, Hpath. }
    assert (pending G1 s1 kb v lo ko) as Hpd1.
    { assert (forall x, is_Some (mem s !! x) -> c <> x) as Hcx.
      { intros x [y Hy] E. rewrite <- E in Hy. rewrite Hcfresh in Hy. discriminate. }
      destruct Hpd as [Hoff Hnz Hleaf Hkey Hur Hurk].
      pose proof Hleaf as Hl%leaf_at_lookup.
      eapply (pending_mono G G1 s s1); try done.
      - unfold s1, expand_st. cbn [mem].
        erewrite leaf_at_insert_inode by (rewrite inode_at_insert_ne by done; exact Hn).
        apply leaf_at_insert_other. apply Hcx. by eexists.
      - unfold G1, expand_ghost. cbn [g_nodes]. rewrite lookup_insert_ne; [by destruct Hur|].
        apply Hcx. by eexists.
      - intros Enc. destruct (Hurk Enc) as [[Hu _] _].
        unfold G1, expand_ghost. cbn [g_nodes]. rewrite lookup_insert_ne; [done|].
        rewrite Enc in Hkey. destruct Hkey as [_ Hb%bytes_at_lookup].
        apply Hcx. by eexists.
      - intros kb0 e0. unfold G1, expand_ghost. cbn [g_ents].
        rewrite lookup_insert. case_decide as Ekb.
        + intros [= <-]. subst kb0. by exists e'.
        + intros H0. by exists e0. }
    assert (key_at (mem s1) k klen kb) as Hk1 by (by eapply mem_kept_key_at).
    assert (dom (g_nodes G1) = dom (g_nodes G) ∪ {[THMAP_GETPTR th co]}) as Hdom1.
    { unfold G1, expand_ghost. cbn [g_nodes]. rewrite dom_insert_L. fold c.
      apply union_comm_L. }
    assert (g_nodes G !! THMAP_GETPTR th co = None) as Hcnew by (by destruct Hcur).
    destruct (Z.eqb_spec (kslot kb (Z.of_nat (S (e_depth e'))))
                (kslot kb' (Z.of_nat (S (e_depth e'))))) as [Esl|Esl].
    + (* both keys go the same way: one more round *)
      destruct (IH G1 s1 c nc (deeper e'))
        as (r & s' & G' & evs & Hrun & HI' & Hlog & Hgc & Hgr & Hsg & Hbd & Hres).
      * cbn [deeper e_depth]. lia.
      * exact HI2.
      * unfold G1, expand_ghost. cbn [g_ents]. by rewrite lookup_insert_eq.
      * exact Hkb1.
      * cbn [deeper e_depth]. by rewrite Hpath.
      * exact Hnc.
      * cbn [deeper e_depth]. rewrite (kpath_S kb' (S _)), (kpath_S kb (S _)).
        by rewrite Hpath, Esl.
      * exact Hk1.
      * exact Hpd1.
      * cbn [deeper e_depth e_off] in Hrun.
        eexists r, s', G', _. split.
        { intros fuel Hf. destruct fuel as [|fuel]; [lia|]. rewrite Hunf.
          apply Hrun. lia. }
        split; [done|].
        split; [rewrite Hlog; unfold s1, expand_st; cbn [log]; by rewrite <- app_assoc|].
        split; [by rewrite Hgc|].
        split.
        { rewrite pubs_app. eapply grown_cons; [exact Hcnew| |exact Hdom1|exact Hgr].
          destruct Hcoff; lia. }
        split; [by rewrite stages_app, Hsg|].
        split.
        { intros L' HL'. specialize (Hbd _ HL'). cbn [deeper e_depth] in Hbd.
          rewrite pubs_app, length_app. simpl. lia. }
        destruct Hres as [(Hr & Hem & Hall & Hmk' & Hroomy)|(Hr & Hem & Hall & Hkept)].
        -- left. split; [done|]. split; [rewrite Hem; unfold G1; by rewrite emap_expand|].
           split; [rewrite allocs_app, pubs_app, Hall; done|].
           split; [by eapply mem_kept_trans|done].
        -- right. split; [done|]. split; [rewrite Hem; unfold G1; by rewrite emap_expand|].
           split; [rewrite allocs_app, pubs_app, Hall; done|].
           intros x bs Hb Hx. apply Hkept; [by apply Hmk|done].
    + (* the keys part here: the new leaf goes into the new node *)
      pose proof (kslot_range kb (Z.of_nat (S (e_depth e')))) as Hr1.
      pose proof (kslot_range kb' (Z.of_nat (S (e_depth e')))) as Hr2.
      assert (fanout (Z.of_nat (S (e_depth e'))) = LEVEL_SIZE) as Hfo.
      { unfold fanout. destruct (Z.of_nat (S (e_depth e')) =? 0) eqn:E; [|done].
        apply Z.eqb_eq in E. lia. }
      rewrite Hfo in Hr1, Hr2.
      assert (slots nc !! Z.to_nat (kslot kb (Z.of_nat (S (e_depth e')))) = Some 0) as Hs0.
      { unfold nc. cbn [slots]. rewrite list_lookup_insert_ne by lia. by apply replicate_slot. }
      destruct (put_finish G1 s1 c (S (e_depth e')) nc kb v lo ko HI2 Hc1 Hnc Hs0 Hkb1 Hpd1)
        as [Hrun HI3].
      eexists v, _, _, _. split.
      { intros fuel Hf. destruct fuel as [|fuel]; [lia|]. rewrite Hunf.
        rewrite getoff_getptr by (destruct (pd_off _ _ _ _ _ _ Hpd); lia).
        exact Hrun. }
      split; [exact HI3|]. cbn [mem ast gc_list log].
      split; [unfold s1, expand_st; cbn [log]; by rewrite <- app_assoc|].
      split; [done|].
      split.
      { cbn. eapply grown_cons; [done| |exact Hdom1|by apply grown_nil].
        destruct Hcoff; lia. }
      split; [done|].
      split.
      { intros L' HL'. specialize (Hdeep _ HL'). simpl. lia. }
      left. split; [done|]. split.
      { unfold emap at 1. cbn [g_ents]. rewrite fmap_insert. fold (emap G1).
        unfold G1. by rewrite emap_expand. }
      split; [done|]. split.
      { eapply mem_kept_trans; [exact Hmk|]. by eapply mem_kept_insert_inode. }
      eexists _, c, _. cbn [g_ents g_nodes mem].
      split; [apply lookup_insert_eq|]. cbn [e_depth].
      split; [exact Hc1|]. split; [apply inode_at_insert_eq|].
      right. cbn [slots].
      rewrite (count_nz_insert _ _ _ _ Hs0).
      rewrite decide_True, decide_False
        by (done || apply leaf_tag_nonzero, (pd_off _ _ _ _ _ _ Hpd)).
      assert (0 < count_nz (slots nc)); [|lia].
      eapply (count_nz_pos _ (Z.to_nat (kslot kb' (Z.of_nat (S (e_depth e')))))).
      * unfold nc. cbn [slots]. apply list_lookup_insert_eq.
        rewrite length_replicate. lia.
      * apply leaf_tag_nonzero. by destruct (inv_ents _ _ _ HI _ _ He').
  Unshelve.
  { cbn [mem]. unfold inode_at. rewrite lookup_insert_ne by done. exact Hn. }
  { cbn [mem]. by rewrite lookup_insert_eq. }
Qed.

(** Two keys are set apart by the hash: at some level they go to
    different slots. *)
Definition apart (kb kb' : list Z) : Prop :=
  exists L : nat, Z.of_nat L < 2 ^ 32 /\ kslot kb (Z.of_nat L) <> kslot kb' (Z.of_nat L).

(** The three outcomes of [thmap_put]. *)
Definition put_new (G G' : ghost) (s' : st) (kb : list Z) (k klen v r : Z)
    (evs : list event) : Prop :=
  exists lo ko, g_ents G !! kb = None /\ r = v /\
    emap G' = <[kb := (lo, ko, v)]> (emap G) /\
    allocs evs = leaf_create_events klen lo ko ++ map (EvAlloc THMAP_INODE_LEN) (pubs evs) /\
    (nocopy th = true -> ko = k) /\ roomy G' s' kb /\
    lo <> 0 /\ (nocopy th = false -> ko <> 0).

Definition put_dup (G G' : ghost) (kb : list Z) (klen v r : Z) (evs : list event) : Prop :=
  exists e lo ko, g_ents G !! kb = Some e /\ r = v /\ G' = G /\ pubs evs = [] /\
    allocs evs = leaf_create_events klen lo ko ++ leaf_free_events klen lo ko /\
    lo <> 0 /\ (nocopy th = false -> ko <> 0).

Definition put_nomem (G G' : ghost) (klen r : Z) (evs : list event) : Prop :=
  r = 0 /\ emap G' = emap G /\
  (leaf_create_failed klen (allocs evs) /\ pubs evs = [] \/
   exists lo ko, lo <> 0 /\
     allocs evs = leaf_create_events klen lo ko ++
                  map (EvAlloc THMAP_INODE_LEN) (pubs evs) ++
                  EvAlloc THMAP_INODE_LEN 0 :: leaf_free_events klen lo ko).

Lemma allocs_id evs : forallb is_alloc_ev evs = true -> allocs evs = evs.
Proof.
  induction evs as [|e evs IH]; [done|]. simpl. intros [He H]%andb_true_iff.
  unfold allocs in *. simpl. rewrite He. by rewrite IH.
Qed.

Lemma pubs_allocs evs : forallb is_alloc_ev evs = true -> pubs evs = [].
Proof.
  induction evs as [|e evs IH]; [done|]. simpl. intros [He H]%andb_true_iff.
  unfold pubs in *. simpl. destruct e; try done; simpl; by apply IH.
Qed.

Lemma stages_allocs evs : forallb is_alloc_ev evs = true -> stages evs = [].
Proof.
  induction evs as [|e evs IH]; [done|]. simpl. intros [He H]%andb_true_iff.
  unfold stages in *. simpl. destruct e; try done; simpl; by apply IH.
Qed.

Lemma leaf_create_events_allocs klen lo ko :
  forallb is_alloc_ev (leaf_create_events klen lo ko) = true.
Proof. unfold leaf_create_events. by destruct (nocopy th). Qed.

Lemma leaf_free_events_allocs klen lo ko :
  forallb is_alloc_ev (leaf_free_events klen lo ko) = true.
Proof. unfold leaf_free_events. by destruct (nocopy th). Qed.

Lemma leaf_create_failed_allocs klen evs :
  leaf_create_failed klen evs -> forallb is_alloc_ev evs = true.
Proof. intros [->|(lo & _ & _ & ->)]; done. Qed.

(** Unlocking the one locked node. *)
Definition unlocked_st (s : st) (a : Z) (n : thmap_inode_t) : st :=
  mk_st (<[a := CInode (mk_inode (count_nz (slots n)) (parent n) (slots n))]> (mem s))
        (ast s) (gc_list s) (log s ++ [EvUnlock a]).

Lemma unlock_node_inv G s a p n :
  Inv {[a]} G s -> g_nodes G !! a = Some p -> inode_at (mem s) a = Some n ->
  (p <> [] -> 0 < count_nz (slots n)) ->
  unlock_node a s = Ok tt (unlocked_st s a n) /\ Inv ∅ G (unlocked_st s a n).
Proof.
  intros HI Ha Hn Hpos.
  assert (a ∈ ({[a]} : gset Z)) as Hain by set_solver.
  pose proof (node_state _ _ _ _ _ _ HI Ha Hn) as Hst. rewrite decide_True in Hst by done.
  pose proof (node_count_bound _ _ _ _ _ _ HI Ha Hn) as Hcb.
  destruct (state_word_facts (count_nz (slots n))) as (_ & _ & Hlk & Hcl & _); [lia|].
  split.
  - erewrite unlock_node_run; [|exact Hn|].
    + by rewrite Hst, Hcl.
    + unfold node_locked_p. by rewrite Hst, Hlk.
  - eapply Inv_restate; [exact HI|exact Ha|exact Hn| | |].
    + intros b Hb. set_solver.
    + rewrite decide_False by set_solver. lia.
    + intros Hp _. by apply Hpos.
Qed.

Lemma locked_pending G s a n kb v lo ko :
  inode_at (mem s) a = Some n -> pending G s kb v lo ko ->
  pending G (locked_st s a n) kb v lo ko.
Proof.
  intros Hn Hpd. eapply pending_mono; [exact Hpd| | |done| | |].
  - cbn [locked_st mem]. by erewrite leaf_at_insert_inode.
  - cbn [locked_st mem]. by eapply mem_kept_insert_inode.
  - by destruct (pd_unref _ _ _ _ _ _ Hpd).
  - intros Hnc. by destruct (pd_unref_key _ _ _ _ _ _ Hpd Hnc) as [[? _] _].
  - intros kb0 e0 H0. by exists e0.
Qed.

(** The keys of the map other than [kb] part from [kb] at a level that
    is not above [Lb]. *)
Definition parts_by (G : ghost) (kb : list Z) (Lb : nat) : Prop :=
  forall kb' e', g_ents G !! kb' = Some e' -> kb' <> kb ->
    exists L' : nat, (L' <= Lb)%nat /\ kslot kb (Z.of_nat L') <> kslot kb' (Z.of_nat L').

(** [thmap_put] on a well-formed map.  The tree grows by no more levels
    than it takes to part the key from the others. *)
Lemma thmap_put_run_bound G s k klen kb v :
  Inv ∅ G s -> key_at (mem s) k klen kb ->
  (nocopy th = true -> 0 <= k < 2 ^ 64 /\ key_at (mem s) (THMAP_GETPTR th k) klen kb) ->
  (g_ents G !! kb = None ->
   forall kb' e', g_ents G !! kb' = Some e' -> kb' <> kb -> apart kb kb') ->
  exists (D : nat) r s' G' evs,
      (forall fuel, (D <= fuel)%nat -> thmap_put fuel th k klen v s = Ok r s') /\
      Inv ∅ G' s' /\
      log s' = log s ++ evs /\ gc_list s' = gc_list s /\ mem_kept (mem s) (mem s') /\
      grown G G' (pubs evs) /\ stages evs = [] /\
      (put_new G G' s' kb k klen v r evs \/ put_dup G G' kb klen v r evs \/
       put_nomem G G' klen r evs) /\
      (forall Lb : nat, parts_by G kb Lb -> (length (pubs evs) <= Lb)%nat).
Proof.
  intros HI Hk Hnc Hapart.
  destruct (leaf_create_run ∅ G s k klen kb v HI Hk Hnc)
    as (r1 & s1 & evs1 & Hrun1 & Hlog1 & Hgc1 & HI1 & Hmk1 & Hino1 & Hres1).
  destruct Hres1 as [(-> & Hmem1 & Hfail)|(lo & ko & -> & Hpd & Hko & -> & Hlonz & Hkonz & Hkfresh)].
  { (* no memory for the leaf *)
    exists 0%nat, 0, s1, G, evs1.
    pose proof (leaf_create_failed_allocs _ _ Hfail) as Hall.
    split; [intros fuel _; unfold thmap_put; by rewrite (bind_run _ _ _ _ _ Hrun1)|].
    split; [done|]. split; [done|]. split; [done|]. split; [done|].
    rewrite (pubs_allocs _ Hall), (stages_allocs _ Hall).
    split; [by apply grown_nil|]. split; [done|].
    split; [|intros Lb _; simpl; lia].
    right. right. split; [done|]. split; [done|]. left.
    rewrite (allocs_id _ Hall). by rewrite (pubs_allocs _ Hall). }
  pose proof (mem_kept_key_at _ _ _ _ _ Hmk1 Hk) as Hk1.
  destruct (find_edge_node_locked_total G s1 k klen kb HI1 Hk1)
    as (D1 & a & d & n & t & Hedge & HI2 & Hrun2).
  pose proof Hedge as (Ha & Hn & Ht & _).
  set (s2 := locked_st s1 a n) in *.
  set (n2 := mk_inode (count_nz (slots n) + NODE_LOCKED) (parent n) (slots n)).
  assert (inode_at (mem s2) a = Some n2) as Hn2 by apply inode_at_insert_eq.
  pose proof (locked_pending _ _ _ _ _ _ _ _ Hn Hpd) as Hpd2. fold s2 in Hpd2.
  assert (mem_kept (mem s1) (mem s2)) as Hmk2 by (by eapply mem_kept_insert_inode).
  pose proof (mem_kept_key_at _ _ _ _ _ Hmk2 Hk1) as Hk2.
  pose proof (leaf_create_events_allocs klen lo ko) as Hall.
  assert (0 <= lo < 2 ^ 64) as Hlor by (destruct (pd_off _ _ _ _ _ _ Hpd); lia).
  assert (kpath kb d <> [] -> 0 < count_nz (slots n)) as Hpos.
  { intros Hp. destruct (inv_nodes _ _ _ HI1 _ _ Ha) as (n0 & Hn0 & _ & _ & _ & _ & Hp0 & _).
    assert (n0 = n) as -> by congruence. apply Hp0; [done|set_solver]. }
  assert (forall fuel, (D1 <= fuel)%nat ->
            thmap_put fuel th k klen v s =
              (if THMAP_INODE_P t
               then node_insert a (kslot kb (Z.of_nat d))
                      (Z.lor (THMAP_GETOFF th (THMAP_GETPTR th lo)) THMAP_LEAF_BIT) ≫= fun _ =>
                    unlock_node a ≫= fun _ => mret v
               else key_cmp_p th (THMAP_NODE th t) k klen ≫= fun b : bool =>
                    if b
                    then leaf_free th (THMAP_GETPTR th lo) ≫= fun v0 =>
                         unlock_node a ≫= fun _ => mret v0
                    else put_descend fuel th (query_at kb (Z.of_nat d)) k klen v
                           (THMAP_GETPTR th lo) (THMAP_NODE th t) a
                           (kslot kb (Z.of_nat d))) s2) as Hpre.
  { intros fuel Hf. unfold thmap_put. rewrite (bind_run _ _ _ _ _ Hrun1).
    destruct (Z.eqb_spec (THMAP_GETPTR th lo) 0) as [E0|_]; [by destruct (pd_nz _ _ _ _ _ _ Hpd)|].
    rewrite (bind_run _ _ _ _ _ (Hrun2 fuel Hf)). cbv beta iota.
    rewrite (bind_run _ _ _ _ _ (load_slot_run s2 a _ n2 t Hn2 Ht)).
    by destruct (THMAP_INODE_P t). }
  destruct (edge_cases _ _ _ HI1 _ _ _ _ _ Hedge) as [-> Hkb|e He -> Hde|kb' e' Hne Hkb He' -> Hde Hpath].
  - (* the slot is empty *)
    destruct (put_finish G s2 a d n2 kb v lo ko HI2 Ha Hn2 Ht Hkb Hpd2) as [Hrun3 HI3].
    eexists D1, v, _, _, _. split.
    { intros fuel Hf. rewrite (Hpre fuel Hf). change (THMAP_INODE_P 0) with true. cbv iota.
      rewrite getoff_getptr by done. exact Hrun3. }
    split; [exact HI3|].
    cbn [mem ast gc_list log s2 locked_st].
    split; [rewrite Hlog1, <- !app_assoc; reflexivity|]. split; [done|].
    split.
    { eapply mem_kept_trans; [exact Hmk1|]. eapply mem_kept_trans; [exact Hmk2|].
      by eapply mem_kept_insert_inode. }
    unfold put_new, put_dup, put_nomem.
    rewrite !pubs_app, !stages_app, (pubs_allocs _ Hall), (stages_allocs _ Hall).
    split; [by apply grown_nil|]. split; [done|].
    split; [|intros Lb _; simpl; lia].
    left. exists lo, ko. split; [done|]. split; [done|].
    split; [unfold emap at 1; cbn [g_ents]; by rewrite fmap_insert|].
    split; [rewrite allocs_app, (allocs_id _ Hall); done|].
    split; [done|]. split; [|done].
    eexists _, a, _. cbn [g_ents g_nodes].
    split; [apply lookup_insert_eq|]. cbn [e_depth]. split; [done|].
    split; [apply inode_at_insert_eq|]. cbn [slots n2].
    destruct d as [|d]; [by left|right].
    rewrite (count_nz_insert _ _ _ _ Ht).
    rewrite decide_True, decide_False
      by (done || apply leaf_tag_nonzero, (pd_off _ _ _ _ _ _ Hpd)).
    assert (0 < count_nz (slots n)); [|lia]. apply Hpos.
    rewrite kpath_S. by destruct (kpath kb d).
  - (* the key is there *)
    destruct (leaf_ptr_of_entry _ _ _ HI1 _ _ He) as (Hnode & Hleafp & _).
    destruct (leaf_free_run _ _ _ _ _ _ _ HI2 Hpd2) as (s3 & Hrun3 & Hlog3 & Hgc3 & HI3 & Hino3 & Hkept3).
    assert (inode_at (mem s3) a = Some n2) as Hn3 by (by rewrite Hino3).
    destruct (unlock_node_inv G s3 a _ n2 HI3 Ha Hn3 Hpos) as [Hrun4 HI4].
    pose proof (leaf_free_events_allocs (Z.of_nat (length kb)) lo ko) as Hallf.
    eexists D1, v, _, G, _. split.
    { intros fuel Hf. rewrite (Hpre fuel Hf). rewrite Hleafp, Hnode.
      rewrite (bind_run _ _ _ _ _ (key_cmp_p_run _ _ _ HI2 k klen kb kb e Hk2 He)).
      rewrite bool_decide_eq_true_2 by done.
      rewrite (bind_run _ _ _ _ _ Hrun3).
      by rewrite (bind_run _ _ _ _ _ Hrun4), ret_run. }
    split; [exact HI4|].
    cbn [mem ast gc_list log unlocked_st].
    split; [rewrite Hlog3; cbn [log s2 locked_st]; rewrite Hlog1, <- !app_assoc; reflexivity|].
    split; [by rewrite Hgc3|].
    split.
    { intros x bs Hb. apply bytes_at_lookup. rewrite lookup_insert_ne.
      - apply bytes_at_lookup, Hkept3; [by apply Hmk2, Hmk1|].
        intros Enc ->. apply Hkfresh in Enc. apply bytes_at_lookup in Hb. congruence.
      - intros <-. apply Hmk1, Hmk2, bytes_at_lookup in Hb.
        apply inode_at_lookup in Hn2. congruence. }
    unfold put_new, put_dup, put_nomem.
    rewrite !pubs_app, !stages_app, (pubs_allocs _ Hall), (stages_allocs _ Hall),
      (pubs_allocs _ Hallf), (stages_allocs _ Hallf).
    split; [by apply grown_nil|]. split; [done|].
    split; [|intros Lb _; simpl; lia].
    right. left. exists e, lo, ko. split; [done|]. split; [done|]. split; [done|].
    split; [done|].
    rewrite !allocs_app, (allocs_id _ Hall), (allocs_id _ Hallf).
    rewrite (key_at_length _ _ _ _ Hk). cbn [allocs List.filter is_alloc_ev app].
    by rewrite app_nil_r.
  - (* another key is there *)
    destruct (leaf_ptr_of_entry _ _ _ HI1 _ _ He') as (Hnode & Hleafp & _).
    destruct (Hapart Hkb kb' e' He' Hne) as (L & HLr & HL).
    destruct (kpath_S_inj _ _ _ Hpath) as [Hpath0 _].
    subst d.
    destruct (put_descend_run k klen v lo ko kb kb' L HL HLr L G s2 a n2 e')
      as (r & s' & G' & evs & Hrun3 & HI3 & Hlog3 & Hgc3 & Hgr & Hsg & Hbd & Hres); try done.
    { lia. }
    { by rewrite Hpath0. }
    eexists (D1 + L)%nat, r, s', G', _. split.
    { intros fuel Hf. rewrite (Hpre fuel) by lia. rewrite Hleafp, Hnode.
      rewrite (bind_run _ _ _ _ _ (key_cmp_p_run _ _ _ HI2 k klen kb kb' e' Hk2 He')).
      rewrite bool_decide_eq_false_2 by done. apply Hrun3. lia. }
    split; [done|].
    split; [rewrite Hlog3; cbn [log s2 locked_st]; rewrite Hlog1, <- !app_assoc; reflexivity|].
    split; [by rewrite Hgc3|].
    assert (mem_kept (mem s) (mem s')) as Hmk.
    { destruct Hres as [(_ & _ & _ & Hmk3 & _)|(_ & _ & _ & Hkept)].
      - eapply mem_kept_trans; [exact Hmk1|]. by eapply mem_kept_trans.
      - intros x bs Hb. apply Hkept; [by apply Hmk2, Hmk1|].
        intros Enc ->. apply Hkfresh in Enc. apply bytes_at_lookup in Hb. congruence. }
    split; [done|].
    unfold put_new, put_dup, put_nomem.
    rewrite !pubs_app, !stages_app, (pubs_allocs _ Hall), (stages_allocs _ Hall).
    split; [done|]. split; [done|].
    split.
    2:{ intros Lb HLb. destruct (HLb kb' e' He' Hne) as (L' & HLb' & HL').
        specialize (Hbd _ HL'). simpl. lia. }
    rewrite !allocs_app, (allocs_id _ Hall). cbn [app allocs List.filter is_alloc_ev].
    destruct Hres as [(-> & Hem & Hal & _ & Hroomy)|(-> & Hem & Hal & _)].
    + left. exists lo, ko. split; [done|]. split; [done|]. split; [done|].
      split; [by rewrite Hal|]. done.
    + right. right. split; [done|]. split; [done|]. right. exists lo, ko.
      split; [done|]. by rewrite Hal.
Qed.

Lemma thmap_put_run G s k klen kb v :
  Inv ∅ G s -> key_at (mem s) k klen kb ->
  (nocopy th = true -> 0 <= k < 2 ^ 64 /\ key_at (mem s) (THMAP_GETPTR th k) klen kb) ->
  (g_ents G !! kb = None ->
   forall kb' e', g_ents G !! kb' = Some e' -> kb' <> kb -> apart kb kb') ->
  exists (D : nat) r s' G' evs,
      (forall fuel, (D <= fuel)%nat -> thmap_put fuel th k klen v s = Ok r s') /\
      Inv ∅ G' s' /\
      log s' = log s ++ evs /\ gc_list s' = gc_list s /\ mem_kept (mem s) (mem s') /\
      grown G G' (pubs evs) /\ stages evs = [] /\
      (put_new G G' s' kb k klen v r evs \/ put_dup G G' kb klen v r evs \/
       put_nomem G G' klen r evs).
Proof.
  intros HI Hk Hnc Hapart.
  destruct (thmap_put_run_bound G s k klen kb v HI Hk Hnc Hapart)
    as (D & r & s' & G' & evs & H1 & H2 & H3 & H4 & H5 & H6 & H7 & H8 & _).
  by exists D, r, s', G', evs.
Qed.

(** *** Staging for G/C *)

(** [malloc] does not fail. *)
Definition malloc_total : Prop := forall n a, (malloc n a).1 <> 0.

Definition staged_st (s : st) (off len : Z) : st :=
  mk_st (mem s) (malloc sizeof_gc (ast s)).2
        (mk_gc (malloc sizeof_gc (ast s)).1 off len :: gc_list s)
        (log s ++ [EvStage off len]).

Lemma stage_mem_gc_run s off len :
  (malloc sizeof_gc (ast s)).1 <> 0 ->
  stage_mem_gc th off len s = Ok tt (staged_st s off len).
Proof.
  intros H. unfold stage_mem_gc, sys_malloc, staged_st.
  unfold mbind, M_bind at 1. destruct (malloc sizeof_gc (ast s)) as [p a] eqn:E.
  cbn [fst snd] in *. apply Z.eqb_neq in H. by rewrite H.
Qed.

Lemma Inv_stage lk G s off len :
  Inv lk G s -> unref G (gc_list s) (THMAP_GETPTR th off) -> 0 <= off < 2 ^ 64 ->
  (exists c, mem s !! THMAP_GETPTR th off = Some c /\
             (nocopy th = true -> forall bs, c <> CBytes bs)) ->
  Inv lk G (staged_st s off len).
Proof.
  intros HI (Hn & He & Hg) Hr Hc. destruct HI as [Hb Hroot Hnodes Hents [Hnd Hgc] Hcov Hlk].
  split; cbn [staged_st mem ast gc_list]; try done.
  - split.
    + cbn [map]. apply NoDup_cons. split; [|done].
      intros (g & Eg & Hin)%list_elem_of_fmap. by apply (Hg g).
    + intros g [->|Hin]%elem_of_cons; [|by apply Hgc].
      cbn [addr]. split; [done|]. split; [done|]. split; [done|].
      intros kb e Hkb. destruct (He kb e Hkb) as [H1 H2].
      split; [by intros ->|]. by intros _ ->.
  - by apply (law_malloc _ _ _ Hlaws).
Qed.

Lemma unref_gc G gcl gcl' x :
  unref G gcl x ->
  (forall g, g ∈ gcl' -> g ∈ gcl \/ x <> THMAP_GETPTR th (addr g)) ->
  unref G gcl' x.
Proof.
  intros (Hn & He & Hg) H. split; [done|]. split; [done|].
  intros g Hin. destruct (H g Hin) as [Hin'|?]; [by apply Hg|done].
Qed.

(** A prepared or removed leaf stays so when something else is staged. *)
Lemma pending_staged G s s' kb v lo ko :
  pending G s kb v lo ko -> mem s' = mem s ->
  (forall g, g ∈ gc_list s' -> g ∈ gc_list s \/
     (THMAP_GETPTR th lo <> THMAP_GETPTR th (addr g) /\
      (nocopy th = false -> THMAP_GETPTR th ko <> THMAP_GETPTR th (addr g)))) ->
  pending G s' kb v lo ko.
Proof.
  intros [Hoff Hnz Hleaf Hkey Hur Hurk] Hm Hg. split; try done.
  - by rewrite Hm.
  - by rewrite Hm.
  - eapply unref_gc; [done|]. intros g Hin. destruct (Hg g Hin) as [?|[? _]]; eauto.
  - intros Hnc. destruct (Hurk Hnc) as [H1 H2]. split; [|done].
    eapply unref_gc; [done|]. intros g Hin. destruct (Hg g Hin) as [?|[_ ?]]; eauto.
Qed.

(** The cell of a node is a node; the cell of a leaf is a leaf. *)
Lemma node_is_inode lk G s x p :
  Inv lk G s -> g_nodes G !! x = Some p -> exists n, mem s !! x = Some (CInode n).
Proof.
  intros HI Hx. destruct (inv_nodes _ _ _ HI _ _ Hx) as (n & Hn%inode_at_lookup & _).
  by exists n.
Qed.

(** The leaf of an entry, taken out of the ghost state, is a leaf that
    is not linked. *)
Lemma removed_pending lk G s kb e :
  Inv lk G s -> g_ents G !! kb = Some e ->
  pending (mk_ghost (g_nodes G) (delete kb (g_ents G))) s kb (e_val e) (e_off e) (e_key e).
Proof.
  intros HI He.
  destruct (inv_ents _ _ _ HI _ _ He) as (Hoff & Hnz & Hleaf & Hkey & _).
  pose proof Hleaf as Hl%leaf_at_lookup.
  pose proof (ent_key_cell _ _ _ _ _ HI He) as [bs Hbs%bytes_at_lookup].
  destruct (inv_gc _ _ _ HI) as [_ Hgc].
  assert (forall kb2 e2, delete kb (g_ents G) !! kb2 = Some e2 ->
            kb2 <> kb /\ g_ents G !! kb2 = Some e2) as Hdel.
  { intros kb2 e2 H. apply lookup_delete_Some in H as [? ?]. done. }
  split; try done.
  - (* the leaf *)
    split; cbn [g_nodes g_ents].
    { destruct (g_nodes G !! THMAP_GETPTR th (e_off e)) as [p|] eqn:E; [|done].
      destruct (node_is_inode _ _ _ _ _ HI E) as [n Hn]. congruence. }
    split.
    + intros kb2 e2 [Hne H2]%Hdel.
      destruct (inv_ents _ _ _ HI _ _ H2) as (Hoff2 & _ & _ & _).
      pose proof (ent_key_cell _ _ _ _ _ HI H2) as [bs2 Hbs2%bytes_at_lookup].
      split.
      * intros E. apply getptr_inj in E; [|destruct Hoff; lia|destruct Hoff2; lia].
        apply Hne. symmetry. by eapply (ent_same_leaf _ _ _ HI).
      * intros E. rewrite E in Hl. congruence.
    + intros g Hin E. destruct (Hgc g Hin) as (Hr & _ & _ & Hne).
      apply getptr_inj in E; [|destruct Hoff; lia|done].
      by destruct (Hne kb e He).
  - (* its key *)
    intros Hnc. rewrite Hnc in Hkey. destruct Hkey as [Hkoff Hkb%bytes_at_lookup].
    split; [|intros E; rewrite E in Hkb; congruence].
    split; cbn [g_nodes g_ents].
    { destruct (g_nodes G !! THMAP_GETPTR th (e_key e)) as [p|] eqn:E; [|done].
      destruct (node_is_inode _ _ _ _ _ HI E) as [n Hn]. congruence. }
    split.
    + intros kb2 e2 [Hne H2]%Hdel.
      destruct (inv_ents _ _ _ HI _ _ H2) as (_ & _ & Hleaf2%leaf_at_lookup & Hkey2 & _).
      rewrite Hnc in Hkey2. destruct Hkey2 as [_ Hkb2%bytes_at_lookup].
      split; intros E; rewrite E in Hkb; congruence.
    + intros g Hin E. destruct (Hgc g Hin) as (Hr & _ & _ & Hne).
      apply getptr_inj in E; [|destruct Hkoff; lia|done].
      destruct (Hne kb e He) as [_ Hk]. by apply Hk.
Qed.

(** *** Collapsing the levels *)

(** A node that is taken out of the ghost state is referred to by
    nothing. *)
Lemma unref_unlinked lk G s a p :
  Inv lk G s -> g_nodes G !! a = Some p ->
  unref (mk_ghost (delete a (g_nodes G)) (g_ents G)) (gc_list s) a.
Proof.
  intros HI Ha. destruct (node_is_inode _ _ _ _ _ HI Ha) as [n Hn].
  split; cbn [g_nodes g_ents]; [apply lookup_delete_eq|]. split.
  - intros kb e He.
    destruct (inv_ents _ _ _ HI _ _ He) as (_ & _ & Hleaf%leaf_at_lookup & _).
    pose proof (ent_key_cell _ _ _ _ _ HI He) as [bs Hbs%bytes_at_lookup].
    split; intros ->; congruence.
  - intros g Hin ->. destruct (inv_gc _ _ _ HI) as [_ Hgc].
    destruct (Hgc g Hin) as (_ & _ & Hnone & _). congruence.
Qed.

(** The state after one round: the empty node [a] is marked deleted
    and staged, its slot in the parent [b] is cleared, and [b] is
    locked. *)
Definition collapse_st (s : st) (a b : Z) (n nb : thmap_inode_t) (j : Z) : st :=
  staged_st
    (mk_st (<[b := CInode (mk_inode (count_nz (slots nb) - 1 + NODE_LOCKED) (parent nb)
                     (<[Z.to_nat j := 0]> (slots nb)))]>
              (<[a := CInode (mk_inode NODE_DELETED (parent n) (slots n))]> (mem s)))
           (ast s) (gc_list s)
           (log s ++ [EvLock b; EvDeleted a NODE_LOCKED; EvUnlock a; EvRemove b j]))
    (THMAP_GETOFF th a) THMAP_INODE_LEN.

Lemma del_collapse_round G s a b n nb kb d k klen r :
  malloc_total ->
  Inv {[a]} G s -> g_nodes G !! a = Some (kpath kb (S d)) ->
  inode_at (mem s) a = Some n -> count_nz (slots n) = 0 ->
  g_nodes G !! b = Some (kpath kb d) -> inode_at (mem s) b = Some nb ->
  parent n = THMAP_GETOFF th b ->
  key_at (mem s) k klen kb ->
  del_collapse (S r) th (query_at kb (Z.of_nat (S d))) k klen a s =
    del_collapse r th (query_at kb (Z.of_nat d)) k klen b
      (collapse_st s a b n nb (kslot kb (Z.of_nat d))) /\
  Inv {[b]} (mk_ghost (delete a (g_nodes G)) (g_ents G))
    (collapse_st s a b n nb (kslot kb (Z.of_nat d))) /\
  a <> b /\ a <> root th.
Proof.
  intros Hmalloc HI Ha Hn Hcnt Hb Hnb Hpar Hk.
  assert (a ∈ ({[a]} : gset Z)) as Hain by set_solver.
  pose proof (node_state _ _ _ _ _ _ HI Ha Hn) as Hst. rewrite decide_True, Hcnt in Hst by done.
  assert (a <> b) as Hab.
  { intros ->. rewrite Ha in Hb. injection Hb as Hb. apply (f_equal length) in Hb.
    rewrite !kpath_length in Hb. lia. }
  assert (a <> root th) as Haroot.
  { intros ->. rewrite (inv_root _ _ _ HI) in Ha. injection Ha as Ha.
    apply (f_equal length) in Ha. rewrite kpath_length in Ha. done. }
  destruct (inv_nodes _ _ _ HI _ _ Ha) as (n0 & Hn0 & Haok & _ & Hdepth & _).
  rewrite kpath_length in Hdepth.
  destruct (inv_nodes _ _ _ HI _ _ Hb) as (nb0 & Hnb0 & Hbok & Hblen & _).
  assert (nb0 = nb) as -> by congruence.
  destruct (node_link _ _ _ HI a (kpath kb d) (kslot kb (Z.of_nat d)))
    as (b' & nb' & Hb' & Hnb' & Hslot & Hoffnz & _); [by rewrite <- kpath_S|].
  assert (b' = b) as -> by (by eapply (node_path_inj _ _ _ HI)).
  assert (nb' = nb) as -> by congruence.
  pose proof (node_state _ _ _ _ _ _ HI Hb Hnb) as Hstb.
  rewrite decide_False in Hstb by set_solver. rewrite Z.add_0_r in Hstb.
  pose proof (node_count_bound _ _ _ _ _ _ HI Hb Hnb) as Hcb.
  pose proof (count_nz_pos _ _ _ Hslot Hoffnz) as Hcpos.
  destruct (state_word_facts (count_nz (slots nb)))
    as (Hnl & Hlor & Hlk & _ & _ & Hdl & _ & Hct & _ & _); [lia|].
  destruct (state_word_facts (count_nz (slots nb) - 1)) as (_ & _ & _ & _ & _ & _ & _ & _ & _ & Hdec); [lia|].
  replace (count_nz (slots nb) - 1 + 1 + NODE_LOCKED - 1)
    with (count_nz (slots nb) + NODE_LOCKED - 1) in Hdec by lia.
  assert (THMAP_NODE th (THMAP_GETOFF th b) = b) as Hnodeb.
  { unfold THMAP_NODE. rewrite align_off by (by destruct Hbok as (_ & _ & ?)).
    by apply addr_ok_ptr. }
  assert (THMAP_NODE th (THMAP_GETOFF th a) = a) as Hnodea.
  { unfold THMAP_NODE. rewrite align_off by (by destruct Haok as (_ & _ & ?)).
    by apply addr_ok_ptr. }
  destruct (lock_node_inv {[a]} G s b _ nb HI ltac:(set_solver) Hb Hnb) as [Hlock HI1].
  set (nbL := mk_inode (count_nz (slots nb) + NODE_LOCKED) (parent nb) (slots nb)).
  set (nD := mk_inode NODE_DELETED (parent n) (slots n)).
  set (j := kslot kb (Z.of_nat d)) in *.
  set (nb2 := mk_inode (count_nz (slots nb) - 1 + NODE_LOCKED) (parent nb)
                (<[Z.to_nat j := 0]> (slots nb))).
  set (G' := mk_ghost (delete a (g_nodes G)) (g_ents G)).
  pose proof (unref_unlinked _ _ _ _ _ HI Ha) as Hur. fold G' in Hur.
  (* the invariant *)
  assert (Inv {[b]} G' (collapse_st s a b n nb j)) as HI'.
  { epose proof (Inv_unlink _ G (locked_st s b nb) b (kpath kb d) nbL j a n
                   (count_nz (slots nb) - 1 + NODE_LOCKED) (log s)
                   HI1 ltac:(set_solver) ltac:(set_solver) _ Hb
                   (inode_at_insert_eq _ _ _) _ Hcnt ltac:(cbn [state nbL]; lia)) as HI2.
    cbn [locked_st mem ast gc_list parent slots nbL] in HI2.
    rewrite insert_insert_eq in HI2.
    replace (({[a]} ∪ {[b]}) ∖ {[a]}) with ({[b]} : gset Z) in HI2 by set_solver.
    fold G' in HI2.
    epose proof (Inv_init _ G' _ a (CInode nD)
                   (log s ++ [EvLock b; EvDeleted a NODE_LOCKED; EvUnlock a; EvRemove b j])
                   HI2 Hur _) as HI3.
    cbn [mem ast gc_list] in HI3.
    rewrite (insert_insert_ne _ a b) in HI3 by done.
    apply (Inv_stage _ _ _ (THMAP_GETOFF th a) THMAP_INODE_LEN) in HI3; [exact HI3| | |].
    - cbn [gc_list]. by rewrite addr_ok_ptr.
    - apply getoff_range.
    - cbn [mem]. rewrite addr_ok_ptr by done. exists (CInode nD).
      split; [|done]. rewrite lookup_insert_ne by done. apply lookup_insert_eq. }
  split; [|done].
  (* the run *)
  cbn [del_collapse query_at level hashidx hashval].
  destruct (Z.eqb_spec (Z.of_nat (S d)) 0) as [?|_]; [lia|].
  rewrite (bind_run _ _ _ _ _ (load_inode_run _ _ _ Hn)).
  rewrite Hst. change (NODE_COUNT (0 + NODE_LOCKED) =? 0) with true.
  change (0 + NODE_LOCKED =? NODE_LOCKED) with true. cbn [negb].
  rewrite (bind_run _ _ _ _ _ (assert_run _ _ eq_refl)).
  assert (u32 (Z.of_nat (S d) - 1) = Z.of_nat d) as ->.
  { unfold u32. rewrite Z.mod_small; lia. }
  erewrite bind_run; [|apply (hashval_getslot_run _ _ _ _ kb Hk); by right].
  cbn [fst snd level]. fold j.
  rewrite (bind_run _ _ _ _ _ (load_inode_run _ _ _ Hn)).
  rewrite Hpar, Hnodeb.
  rewrite (bind_run _ _ _ _ _ Hlock).
  erewrite bind_run; [|apply load_inode_run; apply inode_at_insert_eq].
  erewrite bind_run; [|apply assert_run; cbn [state]; by rewrite Hdl].
  assert (inode_at (mem (locked_st s b nb)) a = Some n) as Hn1.
  { cbn [locked_st mem]. by rewrite inode_at_insert_ne. }
  rewrite (bind_run _ _ _ _ _ (load_inode_run _ _ _ Hn1)).
  rewrite (bind_run _ _ _ _ _ (store_state_run _ _ _ _ Hn1)).
  rewrite (bind_run _ _ _ _ _ (emit_run _ _)).
  cbn [locked_st mem ast gc_list log].
  erewrite bind_run; [|eapply unlock_node_run; [apply inode_at_insert_eq|]].
  2:{ cbn [state]. by rewrite Hst. }
  cbn [mem ast gc_list log state parent slots]. rewrite insert_insert_eq.
  rewrite Hst. change (clear_locked (Z.lor (0 + NODE_LOCKED) NODE_DELETED)) with NODE_DELETED.
  fold nD nbL.
  assert (inode_at (<[a := CInode nD]> (<[b := CInode nbL]> (mem s))) b = Some nbL) as Hb2.
  { rewrite inode_at_insert_ne by done. apply inode_at_insert_eq. }
  erewrite bind_run; [|eapply load_slot_run; [exact Hb2|exact Hslot]].
  erewrite bind_run; [|apply assert_run; rewrite Hnodea; apply Z.eqb_refl].
  erewrite bind_run; [|eapply node_remove_run; [exact Hb2| | |exact Hslot|exact Hoffnz|]].
  2:{ unfold node_locked_p. cbn [state nbL]. by rewrite Hlk. }
  2:{ by cbn [state nbL]. }
  2:{ cbn [state nbL]. rewrite Hct. change ROOT_SIZE with 64. lia. }
  cbn [mem ast gc_list log state parent slots nbL]. rewrite Hdec.
  rewrite (insert_insert_ne _ b a) by done. rewrite insert_insert_eq.
  rewrite (insert_insert_ne _ a b) by done.
  erewrite bind_run; [|apply stage_mem_gc_run; apply Hmalloc].
  unfold collapse_st. cbn [mem ast gc_list log]. fold nb2 nD.
  by rewrite <- !app_assoc.
  Unshelve.
  - by rewrite <- kpath_S.
  - cbn [locked_st mem]. by rewrite inode_at_insert_ne.
  - cbn [mem]. rewrite lookup_insert_ne by done.
    apply inode_at_lookup in Hn. by eexists.
Qed.

(** The events of the collapse that starts at the node [c]: [ups] are
    the nodes above it that get locked, each with the slot that is
    cleared in it. *)
Fixpoint collapse_events (c : Z) (ups : list (Z * Z)) : list event :=
  match ups with
  | [] => []
  | (b, j) :: ups' =>
      [EvLock b; EvDeleted c NODE_LOCKED; EvUnlock c; EvRemove b j;
       EvStage (THMAP_GETOFF th c) THMAP_INODE_LEN] ++ collapse_events b ups'
  end.

(** The nodes that are removed, and the node at which the collapse
    ends, which stays locked. *)
Fixpoint collapse_nodes (c : Z) (ups : list (Z * Z)) : list Z :=
  match ups with
  | [] => []
  | (b, _) :: ups' => c :: collapse_nodes b ups'
  end.

Fixpoint collapse_top (c : Z) (ups : list (Z * Z)) : Z :=
  match ups with
  | [] => c
  | (b, _) :: ups' => collapse_top b ups'
  end.

Lemma stages_collapse c ups :
  stages (collapse_events c ups) =
    map (fun p => (THMAP_GETOFF th p, THMAP_INODE_LEN)) (collapse_nodes c ups).
Proof.
  revert c. induction ups as [|[b j] ups IH]; intros c; [done|].
  cbn [collapse_events collapse_nodes map]. rewrite stages_app, IH. done.
Qed.

Lemma pubs_collapse c ups : pubs (collapse_events c ups) = [].
Proof.
  revert c. induction ups as [|[b j] ups IH]; intros c; [done|].
  cbn [collapse_events]. rewrite pubs_app, IH. done.
Qed.

Lemma allocs_collapse c ups : allocs (collapse_events c ups) = [].
Proof.
  revert c. induction ups as [|[b j] ups IH]; intros c; [done|].
  cbn [collapse_events]. rewrite allocs_app, IH. done.
Qed.

(** What is staged, the latest first. *)
Definition gcs (s : st) : list (Z * Z) := map (fun g => (addr g, gc_len g)) (gc_list s).

(** The leaves and the key buffers of two memories are the same. *)
Definition same_data (m m' : gmap Z cell) : Prop :=
  (forall x, leaf_at m' x = leaf_at m x) /\ (forall x, bytes_at m' x = bytes_at m x).

Lemma same_data_refl m : same_data m m.
Proof. done. Qed.

Lemma same_data_trans m1 m2 m3 : same_data m1 m2 -> same_data m2 m3 -> same_data m1 m3.
Proof. intros [H1 H2] [H3 H4]. split; intros x; [by rewrite H3|by rewrite H4]. Qed.

Lemma same_data_insert_inode m x n n0 :
  inode_at m x = Some n0 -> same_data m (<[x := CInode n]> m).
Proof.
  intros H. split; intros y; [by eapply leaf_at_insert_inode|by eapply bytes_at_insert_inode].
Qed.

Lemma same_data_kept m m' : same_data m m' -> mem_kept m m'.
Proof. intros [_ H] x bs Hx. by rewrite H. Qed.

Lemma same_data_key_at m m' p n kb : same_data m m' -> key_at m p n kb -> key_at m' p n kb.
Proof. intros H. apply mem_kept_key_at. by apply same_data_kept. Qed.

Lemma collapse_st_data s a b n nb j :
  inode_at (mem s) a = Some n -> inode_at (mem s) b = Some nb ->
  same_data (mem s) (mem (collapse_st s a b n nb j)).
Proof.
  intros Ha Hb. unfold collapse_st, staged_st. cbn [mem].
  apply (same_data_trans _ (<[a := CInode (mk_inode NODE_DELETED (parent n) (slots n))]> (mem s))).
  - by eapply same_data_insert_inode.
  - destruct (decide (a = b)) as [->|Hne].
    + eapply same_data_insert_inode. apply inode_at_insert_eq.
    + eapply same_data_insert_inode. rewrite inode_at_insert_ne by done. exact Hb.
Qed.

Lemma pending_data G G' s s' kb v lo ko :
  pending G s kb v lo ko -> same_data (mem s) (mem s') ->
  (forall x p, g_nodes G' !! x = Some p -> g_nodes G !! x = Some p) ->
  g_ents G' = g_ents G ->
  (forall g, g ∈ gc_list s' -> g ∈ gc_list s \/
     is_Some (g_nodes G !! THMAP_GETPTR th (addr g))) ->
  pending G' s' kb v lo ko.
Proof.
  intros Hpd [Hl Hb] Hsub He Hg.
  assert (forall x, g_nodes G !! x = None -> g_nodes G' !! x = None) as Hnone.
  { intros x Hx. destruct (g_nodes G' !! x) as [p|] eqn:E; [|done].
    apply Hsub in E. congruence. }
  apply (pending_staged G' (mk_st (mem s') (ast s) (gc_list s) []) s'); [|done|].
  - eapply (pending_mono G G' s); [exact Hpd| | |done| | |].
    + apply Hl.
    + intros x bs Hx. cbn [mem]. by rewrite Hb.
    + apply Hnone. by destruct (pd_unref _ _ _ _ _ _ Hpd).
    + intros Hnc. apply Hnone. by destruct (pd_unref_key _ _ _ _ _ _ Hpd Hnc) as [[? _] _].
    + intros kb0 e0 H0. rewrite He in H0. by exists e0.
  - intros g Hin. cbn [gc_list]. destruct (Hg g Hin) as [?|[p Hp]]; [by left|right].
    split.
    + intros E. destruct (pd_unref _ _ _ _ _ _ Hpd) as [Hn _]. congruence.
    + intros Hnc E. destruct (pd_unref_key _ _ _ _ _ _ Hpd Hnc) as [[Hn _] _]. congruence.
Qed.

(** What the collapse that starts at [a] with the steps [ups] makes of
    the state. *)
Record collapsed (G G' : ghost) (s s' : st) (kb : list Z) (d : nat) (a : Z)
    (ups : list (Z * Z)) : Prop := {
  cl_inv : Inv {[collapse_top a ups]} G' s';
  cl_top : g_nodes G' !! collapse_top a ups = Some (kpath kb (d - length ups));
  cl_live : forall ntop, inode_at (mem s') (collapse_top a ups) = Some ntop ->
            kpath kb (d - length ups) <> [] -> 0 < count_nz (slots ntop);
  cl_ents : g_ents G' = g_ents G;
  cl_log : log s' = log s ++ collapse_events a ups;
  cl_dom : dom (g_nodes G') = dom (g_nodes G) ∖ list_to_set (collapse_nodes a ups);
  cl_sub : forall x p, g_nodes G' !! x = Some p -> g_nodes G !! x = Some p;
  cl_nodes : forall p, p ∈ collapse_nodes a ups ->
             is_Some (g_nodes G !! p) /\ p <> root th /\ addr_ok p;
  cl_gcs : gcs s' = rev (stages (collapse_events a ups)) ++ gcs s;
  cl_gc : forall g, g ∈ gc_list s' -> g ∈ gc_list s \/
            is_Some (g_nodes G !! THMAP_GETPTR th (addr g));
  cl_data : same_data (mem s) (mem s')
}.

Lemma del_collapse_run k klen kb :
  malloc_total ->
  forall d G s a n,
    Inv {[a]} G s -> g_nodes G !! a = Some (kpath kb d) ->
    inode_at (mem s) a = Some n -> key_at (mem s) k klen kb ->
    exists ups s' G',
      del_collapse d th (query_at kb (Z.of_nat d)) k klen a s = Ok (collapse_top a ups) s' /\
      collapsed G G' s s' kb d a ups /\
      (d = 0%nat \/ count_nz (slots n) <> 0 -> ups = []).
Proof.
  intros Hmalloc. induction d as [|d IH]; intros G s a n HI Ha Hn Hk.
  { exists [], s, G. split; [done|]. split; [|done].
    split; cbn [collapse_top collapse_events collapse_nodes length]; try done.
    - by rewrite app_nil_r.
    - set_solver.
    - intros p Hp. by apply elem_of_nil in Hp.
    - intros g Hg. by left. }
  assert (a ∈ ({[a]} : gset Z)) as Hain by set_solver.
  pose proof (node_state _ _ _ _ _ _ HI Ha Hn) as Hst. rewrite decide_True in Hst by done.
  pose proof (node_count_bound _ _ _ _ _ _ HI Ha Hn) as Hcb.
  destruct (state_word_facts (count_nz (slots n))) as (_ & _ & _ & _ & _ & _ & _ & Hct & _); [lia|].
  destruct (decide (count_nz (slots n) = 0)) as [Hcnt|Hcnt].
  - (* the node is empty: it goes *)
    destruct (inv_nodes _ _ _ HI _ _ Ha) as (n0 & Hn0 & Haok & _ & _ & _ & _ & [_ Hpar] & _).
    assert (n0 = n) as -> by congruence.
    destruct (Hpar (kpath kb d) (kslot kb (Z.of_nat d)) (kpath_S _ _))
      as (b & nb & Hb & Hparent & Hnb & _).
    destruct (del_collapse_round G s a b n nb kb d k klen d Hmalloc HI Ha Hn Hcnt Hb Hnb Hparent Hk)
      as (Hrun & HI1 & Hab & Haroot).
    set (s1 := collapse_st s a b n nb (kslot kb (Z.of_nat d))) in *.
    set (G1 := mk_ghost (delete a (g_nodes G)) (g_ents G)) in *.
    pose proof (collapse_st_data s a b n nb (kslot kb (Z.of_nat d)) Hn Hnb) as Hdata1.
    fold s1 in Hdata1.
    assert (g_nodes G1 !! b = Some (kpath kb d)) as Hb1.
    { unfold G1. cbn [g_nodes]. by rewrite lookup_delete_ne. }
    destruct (inv_nodes _ _ _ HI1 _ _ Hb1) as (nb1 & Hnb1 & _).
    destruct (IH G1 s1 b nb1 HI1 Hb1 Hnb1 (same_data_key_at _ _ _ _ _ Hdata1 Hk))
      as (ups & s' & G' & Hrun' & Hcl & _).
    exists ((b, kslot kb (Z.of_nat d)) :: ups), s', G'.
    split; [by rewrite Hrun|]. split; [|intros [?|?]; done].
    destruct Hcl as [H1 H2 H3 H4 H5 H6 H7 H8 H9 H10 H11].
    split; cbn [collapse_top collapse_events collapse_nodes length]; try done.
    + rewrite H5. unfold s1, collapse_st, staged_st. cbn [log]. by rewrite <- !app_assoc.
    + rewrite H6. unfold G1. cbn [g_nodes]. rewrite dom_delete_L, list_to_set_cons. set_solver.
    + intros x p Hx. apply H7 in Hx. unfold G1 in Hx. cbn [g_nodes] in Hx.
      by apply lookup_delete_Some in Hx as [_ ?].
    + intros p [->|Hp]%elem_of_cons; [by rewrite Ha|].
      destruct (H8 p Hp) as ([q Hq] & ? & ?). split; [|done].
      unfold G1 in Hq. cbn [g_nodes] in Hq. apply lookup_delete_Some in Hq as [_ Hq]. by eexists.
    + rewrite H9, stages_app. unfold s1, collapse_st, staged_st, gcs. cbn [gc_list map addr gc_len].
      change (stages [EvLock b; EvDeleted a NODE_LOCKED; EvUnlock a;
                      EvRemove b (kslot kb (Z.of_nat d));
                      EvStage (THMAP_GETOFF th a) THMAP_INODE_LEN])
        with [(THMAP_GETOFF th a, THMAP_INODE_LEN)].
      rewrite rev_app_distr. cbn [rev app]. by rewrite <- app_assoc.
    + intros g Hg. destruct (H10 g Hg) as [Hin|[q Hq]].
      * unfold s1, collapse_st, staged_st in Hin. cbn [gc_list] in Hin.
        apply elem_of_cons in Hin as [->|Hin]; [right|by left].
        cbn [addr]. rewrite addr_ok_ptr by done. by rewrite Ha.
      * right. unfold G1 in Hq. cbn [g_nodes] in Hq.
        apply lookup_delete_Some in Hq as [_ Hq]. by eexists.
    + by eapply same_data_trans.
  - (* the node is not empty *)
    exists [], s, G. split.
    { cbn [del_collapse query_at level collapse_top].
      destruct (Z.eqb_spec (Z.of_nat (S d)) 0) as [?|_]; [lia|].
      rewrite (bind_run _ _ _ _ _ (load_inode_run _ _ _ Hn)).
      rewrite Hst, Hct. apply Z.eqb_neq in Hcnt. by rewrite Hcnt. }
    split; [|done].
    split; cbn [collapse_top collapse_events collapse_nodes length]; try done.
    + intros ntop Hntop _. assert (ntop = n) as -> by congruence. lia.
    + by rewrite app_nil_r.
    + set_solver.
    + intros p Hp. by apply elem_of_nil in Hp.
    + intros g Hg. by left.
Qed.

(** *** thmap_del on a well-formed map *)

(** Locking a node and unlocking it again leaves the memory as it was. *)
Lemma lock_unlock_run G s a p n :
  Inv ∅ G s -> g_nodes G !! a = Some p -> inode_at (mem s) a = Some n ->
  Inv {[a]} G (locked_st s a n) ->
  unlock_node a (locked_st s a n) =
    Ok tt (mk_st (mem s) (ast s) (gc_list s) (log s ++ [EvLock a; EvUnlock a])) /\
  Inv ∅ G (mk_st (mem s) (ast s) (gc_list s) (log s ++ [EvLock a; EvUnlock a])).
Proof.
  intros HI Ha Hn HI2.
  set (n2 := mk_inode (count_nz (slots n) + NODE_LOCKED) (parent n) (slots n)).
  assert (inode_at (mem (locked_st s a n)) a = Some n2) as Hn2 by apply inode_at_insert_eq.
  assert (p <> [] -> 0 < count_nz (slots n2)) as Hpos.
  { intros Hp. destruct (inv_nodes _ _ _ HI _ _ Ha) as (n0 & Hn0 & _ & _ & _ & _ & Hp0 & _).
    assert (n0 = n) as -> by congruence. apply Hp0; [done|set_solver]. }
  destruct (unlock_node_inv G _ a p n2 HI2 Ha Hn2 Hpos) as [Hrun HI3].
  pose proof (node_state _ _ _ _ _ _ HI Ha Hn) as Hst.
  rewrite decide_False in Hst by set_solver. rewrite Z.add_0_r in Hst.
  assert (unlocked_st (locked_st s a n) a n2 =
          mk_st (mem s) (ast s) (gc_list s) (log s ++ [EvLock a; EvUnlock a])) as E.
  { unfold unlocked_st, locked_st. cbn [mem ast gc_list log n2 slots parent].
    rewrite insert_insert_eq, <- app_assoc. f_equal.
    apply insert_id. apply inode_at_lookup in Hn. rewrite Hn. do 2 f_equal.
    destruct n as [st pa sl]. cbn [state parent slots] in *. by rewrite Hst. }
  by rewrite <- E.
Qed.

Definition leaf_stage_events (e : entry) (klen : Z) : list event :=
  (if nocopy th then [] else [EvStage (e_key e) klen]) ++ [EvStage (e_off e) sizeof_leaf].

(** The events of a removal: the edge node [a] is locked, the leaf is
    taken out of its slot, the levels collapse, the last node is
    unlocked, and the key and the leaf are staged. *)
Definition del_events (kb : list Z) (e : entry) (klen a : Z) (ups : list (Z * Z)) : list event :=
  EvLock a :: EvRemove a (kslot kb (Z.of_nat (e_depth e))) ::
  collapse_events a ups ++ EvUnlock (collapse_top a ups) :: leaf_stage_events e klen.

Definition del_absent (G G' : ghost) (s s' : st) (kb : list Z) (r : Z)
    (evs : list event) : Prop :=
  g_ents G !! kb = None /\ r = 0 /\ G' = G /\
  mem s' = mem s /\ ast s' = ast s /\ gc_list s' = gc_list s /\
  exists a, evs = [EvLock a; EvUnlock a].

Definition del_present (G G' : ghost) (s s' : st) (kb : list Z) (klen r : Z)
    (evs : list event) : Prop :=
  exists e a ups,
    g_ents G !! kb = Some e /\ r = e_val e /\
    g_ents G' = delete kb (g_ents G) /\
    g_nodes G !! a = Some (kpath kb (e_depth e)) /\
    evs = del_events kb e klen a ups /\
    dom (g_nodes G') = dom (g_nodes G) ∖ list_to_set (collapse_nodes a ups) /\
    (forall p, p ∈ collapse_nodes a ups ->
       is_Some (g_nodes G !! p) /\ p <> root th /\ addr_ok p) /\
    gcs s' = rev (stages evs) ++ gcs s /\
    (roomy G s kb -> ups = []).

Lemma del_events_app kb e klen a ups :
  del_events kb e klen a ups =
    [EvLock a; EvRemove a (kslot kb (Z.of_nat (e_depth e)))] ++
    collapse_events a ups ++ [EvUnlock (collapse_top a ups)] ++ leaf_stage_events e klen.
Proof. reflexivity. Qed.

Lemma stages_del_events kb e klen a ups :
  stages (del_events kb e klen a ups) =
    stages (collapse_events a ups) ++
    (if nocopy th then [] else [(e_key e, klen)]) ++ [(e_off e, sizeof_leaf)].
Proof.
  rewrite del_events_app, !stages_app. unfold leaf_stage_events. by destruct (nocopy th).
Qed.

Lemma pubs_del_events kb e klen a ups : pubs (del_events kb e klen a ups) = [].
Proof.
  rewrite del_events_app, !pubs_app, pubs_collapse. unfold leaf_stage_events.
  by destruct (nocopy th).
Qed.

Lemma allocs_del_events kb e klen a ups : allocs (del_events kb e klen a ups) = [].
Proof.
  rewrite del_events_app, !allocs_app, allocs_collapse. unfold leaf_stage_events.
  by destruct (nocopy th).
Qed.

Lemma thmap_del_run G s k klen kb :
  malloc_total -> Inv ∅ G s -> key_at (mem s) k klen kb ->
  exists (D : nat) r s' G' evs,
      (forall fuel, (D <= fuel)%nat -> thmap_del fuel th k klen s = Ok r s') /\
      Inv ∅ G' s' /\
      log s' = log s ++ evs /\ same_data (mem s) (mem s') /\
      pubs evs = [] /\ allocs evs = [] /\
      (del_absent G G' s s' kb r evs \/ del_present G G' s s' kb klen r evs).
Proof.
  intros Hmalloc HI Hk.
  destruct (find_edge_node_locked_total G s k klen kb HI Hk)
    as (D & a & d & n & t & Hedge & HI2 & Hall).
  assert (forall fuel, (D <= fuel)%nat ->
            thmap_del fuel th k klen s = thmap_del D th k klen s) as Hsame.
  { intros fuel Hf. unfold thmap_del.
    by rewrite (bind_run _ _ _ _ _ (Hall fuel Hf)), (bind_run _ _ _ _ _ (Hall D (Nat.le_refl _))). }
  pose proof (Hall D (Nat.le_refl _)) as Hrun.
  enough (exists r s' G' evs,
            thmap_del D th k klen s = Ok r s' /\ Inv ∅ G' s' /\
            log s' = log s ++ evs /\ same_data (mem s) (mem s') /\
            pubs evs = [] /\ allocs evs = [] /\
            (del_absent G G' s s' kb r evs \/ del_present G G' s s' kb klen r evs))
    as (r & s' & G' & evs & Hr & Hrest).
  { exists D, r, s', G', evs. split; [|exact Hrest].
    intros fuel Hf. by rewrite (Hsame fuel Hf). }
  pose proof Hedge as (Ha & Hn & Ht & _).
  set (s2 := locked_st s a n) in *.
  set (n2 := mk_inode (count_nz (slots n) + NODE_LOCKED) (parent n) (slots n)).
  assert (inode_at (mem s2) a = Some n2) as Hn2 by apply inode_at_insert_eq.
  assert (same_data (mem s) (mem s2)) as Hd2 by (by eapply same_data_insert_inode).
  pose proof (same_data_key_at _ _ _ _ _ Hd2 Hk) as Hk2.
  pose proof (key_at_length _ _ _ _ Hk) as Hklen.
  assert (a ∈ ({[a]} : gset Z)) as Hain by set_solver.
  destruct (lock_unlock_run G s a _ n HI Ha Hn HI2) as [Hmiss HImiss]. fold s2 in Hmiss.
  unfold thmap_del. rewrite (bind_run _ _ _ _ _ Hrun). cbv beta iota.
  rewrite (bind_run _ _ _ _ _ (get_leaf_run th s2 a _ n2 t Hn2 Ht)).
  destruct (edge_cases _ _ _ HI _ _ _ _ _ Hedge)
    as [-> Hkb|e He -> Hde|kb' e' Hne Hkb He' -> Hde Hpath].
  - (* the slot is empty *)
    change (THMAP_INODE_P 0) with true. cbv iota. change (0 =? 0) with true. cbv iota.
    rewrite (bind_run _ _ _ _ _ (ret_run _ _)). cbn [negb].
    rewrite (bind_run _ _ _ _ _ Hmiss), ret_run.
    eexists 0, _, G, _. split; [done|]. split; [exact HImiss|]. cbn [mem ast gc_list log].
    split; [done|]. split; [apply same_data_refl|]. split; [done|]. split; [done|].
    left. do 6 (split; [done|]). by exists a.
  - (* the leaf of the key is there *)
    destruct (leaf_ptr_of_entry _ _ _ HI _ _ He) as (Hnode & Hleafp & Hlnz).
    rewrite Hleafp, Hnode.
    destruct (Z.eqb_spec (THMAP_GETPTR th (e_off e)) 0) as [?|_]; [done|].
    rewrite (bind_run _ _ _ _ _ (key_cmp_p_run _ _ _ HI2 k klen kb kb e Hk2 He)).
    rewrite bool_decide_eq_true_2 by done. cbn [negb].
    rewrite (bind_run _ _ _ _ _ (load_slot_run s2 a _ n2 _ Hn2 Ht)).
    rewrite Hnode. rewrite Z.eqb_refl.
    rewrite (bind_run _ _ _ _ _ (assert_run _ _ eq_refl)).
    destruct (inv_ents _ _ _ HI _ _ He) as (Heoff & _).
    pose proof (leaf_tag_nonzero _ Heoff) as Htnz.
    pose proof (node_count_bound _ _ _ _ _ _ HI Ha Hn) as Hcb.
    pose proof (count_nz_pos _ _ _ Ht Htnz) as Hcpos.
    destruct (state_word_facts (count_nz (slots n)))
      as (_ & _ & Hlk & _ & _ & Hdl & _ & Hct & _); [lia|].
    destruct (state_word_facts (count_nz (slots n) - 1))
      as (_ & _ & _ & _ & _ & _ & _ & _ & _ & Hdec); [lia|].
    replace (count_nz (slots n) - 1 + 1 + NODE_LOCKED - 1)
      with (count_nz (slots n) + NODE_LOCKED - 1) in Hdec by lia.
    erewrite bind_run; [|eapply node_remove_run; [exact Hn2| | |exact Ht|exact Htnz|]].
    2:{ unfold node_locked_p. cbn [state n2]. by rewrite Hlk. }
    2:{ by cbn [state n2]. }
    2:{ cbn [state n2]. rewrite Hct. change ROOT_SIZE with 64. lia. }
    cbn [state parent slots n2]. rewrite Hdec.
    set (G1 := mk_ghost (g_nodes G) (delete kb (g_ents G))).
    set (n3 := mk_inode (count_nz (slots n) - 1 + NODE_LOCKED) (parent n)
                 (<[Z.to_nat (kslot kb (Z.of_nat d)) := 0]> (slots n))).
    set (s3 := mk_st (<[a := CInode n3]> (mem s2)) (ast s2) (gc_list s2)
                 (log s2 ++ [EvRemove a (kslot kb (Z.of_nat d))])).
    assert (Inv {[a]} G1 s3) as HI3.
    { subst d. eapply (Inv_remove_leaf _ G s2 a n2 kb e); try done.
      cbn [state n2]. lia. }
    assert (inode_at (mem s3) a = Some n3) as Hn3 by apply inode_at_insert_eq.
    assert (same_data (mem s2) (mem s3)) as Hd3 by (by eapply same_data_insert_inode).
    pose proof (same_data_key_at _ _ _ _ _ Hd3 Hk2) as Hk3.
    assert (pending G1 s3 kb (e_val e) (e_off e) (e_key e)) as Hpd3.
    { eapply (pending_data G1 G1 s2 s3); [by eapply removed_pending|done|done|done|].
      intros g Hg. by left. }
    cbn [query_at level]. rewrite Nat2Z.id.
    destruct (del_collapse_run k klen kb Hmalloc d G1 s3 a n3 HI3 Ha Hn3 Hk3)
      as (ups & s4 & G4 & Hrun4 & Hcl & Hroomy).
    rewrite (bind_run _ _ _ _ _ Hrun4).
    destruct Hcl as [C1 C2 C3 C4 C5 C6 C7 C8 C9 C10 C11].
    set (top := collapse_top a ups) in *.
    destruct (inv_nodes _ _ _ C1 _ _ C2) as (ntop & Hntop & _).
    destruct (unlock_node_inv G4 s4 top _ ntop C1 C2 Hntop (C3 _ Hntop)) as [Hrun5 HI5].
    rewrite (bind_run _ _ _ _ _ Hrun5).
    set (s5 := unlocked_st s4 top ntop) in *.
    assert (same_data (mem s4) (mem s5)) as Hd5 by (by eapply same_data_insert_inode).
    assert (pending G4 s5 kb (e_val e) (e_off e) (e_key e)) as Hpd5.
    { eapply (pending_data G1 G4 s3 s5); [exact Hpd3| |exact C7|exact C4|exact C10].
      by eapply same_data_trans. }
    destruct Hpd5 as [P1 P2 P3 P4 P5 P6].
    rewrite (bind_run _ _ _ _ _ (load_leaf_run _ _ _ P3)). cbn [key len val].
    rewrite getoff_getptr by (destruct Heoff; lia).
    assert (exists s6,
      (if Z.land (flags th) THMAP_NOCOPY =? 0
       then stage_mem_gc th (e_key e) (Z.of_nat (length kb)) else mret tt) s5 = Ok tt s6 /\
      Inv ∅ G4 s6 /\ mem s6 = mem s5 /\
      log s6 = log s5 ++ (if nocopy th then [] else [EvStage (e_key e) klen]) /\
      gcs s6 = (if nocopy th then [] else [(e_key e, klen)]) ++ gcs s5 /\
      unref G4 (gc_list s6) (THMAP_GETPTR th (e_off e))) as (s6 & Hrun6 & HI6 & Hm6 & Hl6 & Hg6 & Hur6).
    { rewrite nocopy_flag. destruct (nocopy th) eqn:Enc; cbn [negb].
      - exists s5. split; [done|]. split; [done|]. split; [done|].
        split; [by rewrite app_nil_r|]. done.
      - destruct (P6 eq_refl) as [Huk Hkl]. destruct P4 as [Hkoff Hkb%bytes_at_lookup].
        exists (staged_st s5 (e_key e) (Z.of_nat (length kb))).
        split; [apply stage_mem_gc_run, Hmalloc|].
        split.
        { apply Inv_stage; [done|done|destruct Hkoff; lia|].
          exists (CBytes kb). split; [done|]. rewrite Enc. intros ?; done. }
        split; [done|]. split; [by rewrite Hklen|]. split; [by rewrite Hklen|].
        cbn [staged_st gc_list]. eapply unref_gc; [exact P5|].
        intros g [->|Hin]%elem_of_cons; [right; cbn [addr]; by intros ?|by left]. }
    rewrite (bind_run _ _ _ _ _ Hrun6).
    rewrite (bind_run _ _ _ _ _ (stage_mem_gc_run _ _ _ (Hmalloc _ _))), ret_run.
    eexists (e_val e), _, G4, _. split; [done|].
    split.
    { apply Inv_stage; [done|done|destruct Heoff; lia|].
      rewrite Hm6. apply leaf_at_lookup in P3. eexists. split; [exact P3|]. intros ?; done. }
    cbn [staged_st mem ast gc_list log].
    assert (log s6 ++ [EvStage (e_off e) sizeof_leaf] =
            log s ++ del_events kb e klen a ups) as Hlog.
    { rewrite Hl6. unfold s5, unlocked_st. cbn [log]. rewrite C5. unfold s3. cbn [log].
      unfold s2, locked_st. cbn [log]. unfold del_events, leaf_stage_events.
      subst d. fold top. rewrite <- !app_assoc. reflexivity. }
    split; [exact Hlog|].
    split.
    { rewrite Hm6. eapply same_data_trans; [exact Hd2|].
      eapply same_data_trans; [exact Hd3|]. by eapply same_data_trans. }
    pose proof (stages_del_events kb e klen a ups) as Hstg.
    split; [apply pubs_del_events|]. split; [apply allocs_del_events|].
    right. exists e, a, ups. split; [done|]. split; [done|]. split; [done|].
    split; [by subst d|]. split; [done|]. split; [done|].
    split.
    { intros p Hp. by apply C8. }
    split.
    { rewrite Hstg. unfold gcs at 1. unfold staged_st. cbn [map gc_list addr gc_len].
      fold (gcs s6). rewrite Hg6.
      assert (gcs s5 = gcs s4) as -> by done. rewrite C9.
      assert (gcs s3 = gcs s) as -> by done.
      rewrite !rev_app_distr. cbn [rev app].
      destruct (nocopy th); cbn [rev app]; by rewrite <- ?app_assoc. }
    intros (e0 & a0 & n0 & He0 & Ha0 & Hn0 & Hroom). apply Hroomy.
    assert (e0 = e) as -> by congruence. rewrite Hde in *.
    assert (a0 = a) as -> by (by eapply (node_path_inj _ _ _ HI)).
    assert (n0 = n) as -> by congruence.
    destruct Hroom as [?|Hroom]; [by left|right].
    cbn [slots n3]. rewrite (count_nz_insert _ _ _ _ Ht).
    rewrite decide_False, decide_True by done. lia.
  - (* the leaf of another key is there *)
    destruct (leaf_ptr_of_entry _ _ _ HI _ _ He') as (Hnode & Hleafp & Hlnz).
    rewrite Hleafp, Hnode.
    destruct (Z.eqb_spec (THMAP_GETPTR th (e_off e')) 0) as [?|_]; [done|].
    rewrite (bind_run _ _ _ _ _ (key_cmp_p_run _ _ _ HI2 k klen kb kb' e' Hk2 He')).
    rewrite bool_decide_eq_false_2 by done. cbn [negb].
    rewrite (bind_run _ _ _ _ _ Hmiss), ret_run.
    eexists 0, _, G, _. split; [done|]. split; [exact HImiss|]. cbn [mem ast gc_list log].
    split; [done|]. split; [apply same_data_refl|]. split; [done|]. split; [done|].
    left. do 6 (split; [done|]). by exists a.
Qed.

(** *** thmap_gc *)

Definition gc_frees (gl : list thmap_gc_t) : list event :=
  map (fun g => EvFree (addr g) (gc_len g)) gl.

(** A staged block is referred to by nothing. *)
Lemma staged_unref lk G s gl g :
  Inv lk G s -> gc_ok (mem s) G gl -> g ∈ gl -> unref G [] (THMAP_GETPTR th (addr g)).
Proof.
  intros HI [_ Hgc] Hin. destruct (Hgc g Hin) as (Hr & (c & Hc & Hnb) & Hn & He).
  split; [done|]. split; [|intros g0 Hg0; by apply elem_of_nil in Hg0].
  intros kb e Hkb. destruct (He kb e Hkb) as [H1 H2].
  destruct (inv_ents _ _ _ HI _ _ Hkb) as (Hoff & _ & _ & Hkey & _).
  split.
  - intros E. apply getptr_inj in E; [done|done|destruct Hoff; lia].
  - destruct (nocopy th) eqn:Enc.
    + destruct Hkey as [_ (bs & Hbs%bytes_at_lookup & _)].
      intros E. rewrite E in Hc. rewrite Hbs in Hc. injection Hc as <-.
      by eapply (Hnb eq_refl).
    + destruct Hkey as [Hkoff _]. intros E.
      apply getptr_inj in E; [by apply H2|done|destruct Hkoff; lia].
Qed.

Lemma gc_loop_run G gl : forall s,
  Inv ∅ G s -> gc_list s = [] -> gc_ok (mem s) G gl ->
  exists s', gc_loop th gl s = Ok tt s' /\ Inv ∅ G s' /\
    log s' = log s ++ gc_frees gl /\ gc_list s' = [] /\
    (forall x, inode_at (mem s) x = None -> inode_at (mem s') x = None) /\
    (forall x c, mem s !! x = Some c ->
       (forall g, g ∈ gl -> x <> THMAP_GETPTR th (addr g)) -> mem s' !! x = Some c).
Proof.
  induction gl as [|g gl IH]; intros s HI Hnil Hgc.
  { exists s. split; [done|]. split; [done|]. split; [by rewrite app_nil_r|]. done. }
  pose proof (staged_unref _ _ _ _ g HI Hgc ltac:(left)) as Hur.
  rewrite <- Hnil in Hur.
  destruct Hgc as [Hnd Hall]. cbn [map] in Hnd. apply NoDup_cons in Hnd as [Hnotin Hnd].
  destruct (Hall g ltac:(left)) as (Hr & (c & Hc & Hnb) & Hn & He).
  cbn [gc_loop]. rewrite (bind_run _ _ _ _ _ (ops_free_run _ _ _ _ Hc)).
  unfold sys_free at 1. unfold mbind at 1, M_bind at 1. cbn [set_ast mem ast gc_list log].
  set (s1 := mk_st (delete (THMAP_GETPTR th (addr g)) (mem s))
               (c_free (gc_self g) (free (ops th) (addr g) (gc_len g) (ast s)))
               (gc_list s) (log s ++ [EvFree (addr g) (gc_len g)])).
  assert (Inv ∅ G s1) as HI1.
  { eapply (Inv_same_mem _ _ (mk_st (delete (THMAP_GETPTR th (addr g)) (mem s))
              (free (ops th) (addr g) (gc_len g) (ast s)) (gc_list s) [])); try done.
    - by apply Inv_free.
    - apply (law_cfree _ _ _ Hlaws). apply (law_free _ _ _ Hlaws).
      eapply (law_mono _ _ _ Hlaws); [exact (inv_covers _ _ _ HI)|].
      cbn [s1 mem]. rewrite dom_delete_L. set_solver. }
  destruct (IH s1 HI1 Hnil) as (s' & Hrun & HI' & Hlog & Hgl & Hino & Hkept).
  { split; [done|]. intros g0 Hg0. destruct (Hall g0 ltac:(by right)) as (? & (c0 & Hc0 & ?) & ? & ?).
    split; [done|]. split; [|done]. exists c0. split; [|done].
    cbn [s1 mem]. rewrite lookup_delete_ne; [done|].
    intros E. apply Hnotin. rewrite E. apply list_elem_of_fmap. by exists g0. }
  exists s'. split; [exact Hrun|]. split; [done|].
  split; [rewrite Hlog; cbn [s1 log gc_frees map]; by rewrite <- app_assoc|].
  split; [done|]. split.
  - intros x Hx. apply Hino. cbn [s1 mem]. unfold inode_at in *.
    rewrite lookup_delete. by case_decide.
  - intros x c0 Hx Hne. apply Hkept.
    + cbn [s1 mem]. rewrite lookup_delete_ne; [done|]. intros E. by apply (Hne g ltac:(left)).
    + intros g0 Hg0. apply Hne. by right.
Qed.

Lemma thmap_gc_run G s :
  Inv ∅ G s ->
  exists s', thmap_gc th s = Ok tt s' /\ Inv ∅ G s' /\
    log s' = log s ++ gc_frees (gc_list s) /\ gc_list s' = [] /\
    (forall x c, mem s !! x = Some c ->
       (forall g, g ∈ gc_list s -> x <> THMAP_GETPTR th (addr g)) -> mem s' !! x = Some c).
Proof.
  intros HI. unfold thmap_gc.
  assert (Inv ∅ G (set_gc [] s)) as HI0.
  { destruct HI as [H1 H2 H3 H4 H5 H6 H7]. split; try done.
    split; [apply NoDup_nil_2|]. intros g Hg. by apply elem_of_nil in Hg. }
  destruct (gc_loop_run G (gc_list s) (set_gc [] s) HI0 eq_refl (inv_gc _ _ _ HI))
    as (s' & Hrun & HI' & Hlog & Hgl & _ & Hkept).
  exists s'. done.
Qed.

(** *** The empty map *)

Definition empty_ghost : ghost := mk_ghost {[root th := []]} ∅.

Lemma Inv_fresh s :
  0 <= baseptr th < 2 ^ 64 -> baseptr th mod 4 = 0 -> addr_ok (root th) ->
  inode_at (mem s) (root th) = Some (zero_inode ROOT_SIZE) -> gc_list s = [] ->
  covers (ast s) (dom (mem s)) ->
  Inv ∅ empty_ghost s.
Proof.
  intros Hb Hal Hroot Hn Hgc Hcov. split; try done.
  - apply lookup_singleton_eq.
  - intros a p Hap. cbn [empty_ghost g_nodes] in Hap.
    apply lookup_singleton_Some in Hap as [<- <-]. exists (zero_inode ROOT_SIZE).
    split; [done|]. split; [done|]. split; [done|]. split; [done|].
    split; [done|]. split; [done|]. split.
    + split; [done|]. intros p' i Hp. by destruct p'.
    + intros i v Hv Hnz. cbn [zero_inode slots] in Hv.
      apply lookup_replicate in Hv as [-> _]. done.
  - rewrite Hgc. split; [apply NoDup_nil_2|]. intros g Hg. by apply elem_of_nil in Hg.
Qed.




(** ** The map as its user sees it *)

(** [wf s M]: the state [s] holds a well-formed map whose contents are
    [M], and no node of it is locked. *)
Definition wf (s : st) (M : gmap (list Z) Z) : Prop :=
  exists G, Inv ∅ G s /\ amap G = M.

(** The caller's key of [n] bytes at [k] reads [kb]; when the map keeps
    references to the keys, the same holds where the map will look. *)
Definition readable (s : st) (k n : Z) (kb : list Z) : Prop :=
  key_at (mem s) k n kb /\
  (nocopy th = true -> 0 <= k < 2 ^ 64 /\ key_at (mem s) (THMAP_GETPTR th k) n kb).

(** Some call of the allocator returned zero. *)
Definition alloc_failed (evs : list event) : Prop := exists n, EvAlloc n 0 ∈ evs.

Lemma amap_lookup G kb : amap G !! kb = e_val <$> g_ents G !! kb.
Proof. unfold amap. by rewrite lookup_fmap. Qed.

Lemma amap_of_emap G G' : emap G' = emap G -> amap G' = amap G.
Proof. intros H. by rewrite !amap_emap, H. Qed.

Lemma amap_insert G G' kb lo ko v :
  emap G' = <[kb := (lo, ko, v)]> (emap G) -> amap G' = <[kb := v]> (amap G).
Proof. intros H. rewrite !amap_emap, H. by rewrite fmap_insert. Qed.

Lemma amap_delete G G' kb :
  g_ents G' = delete kb (g_ents G) -> amap G' = delete kb (amap G).
Proof. intros H. unfold amap. rewrite H. by rewrite fmap_delete. Qed.


Lemma wf_get s M k n kb :
  wf s M -> key_at (mem s) k n kb ->
  exists D : nat, forall fuel, (D <= fuel)%nat ->
    thmap_get fuel th k n s = Ok (default 0 (M !! kb)) s.
Proof.
  intros (G & HI & <-) Hk. destruct (thmap_get_run _ _ _ HI k n kb Hk) as [D HD].
  exists D. intros fuel Hf. rewrite (HD fuel Hf), amap_lookup.
  by destruct (g_ents G !! kb).
Qed.

Lemma alloc_failed_allocs evs : alloc_failed evs <-> alloc_failed (allocs evs).
Proof.
  unfold alloc_failed, allocs. split; intros [n Hn]; exists n.
  - apply list_elem_of_In, List.filter_In. split; [by apply list_elem_of_In|done].
  - apply list_elem_of_In, List.filter_In in Hn as [Hn _]. by apply list_elem_of_In.
Qed.

Lemma alloc_failed_app evs evs' :
  alloc_failed (evs ++ evs') <-> alloc_failed evs \/ alloc_failed evs'.
Proof.
  unfold alloc_failed. split.
  - intros [n [H|H]%elem_of_app]; [left|right]; by exists n.
  - intros [[n H]|[n H]]; exists n; apply elem_of_app; [by left|by right].
Qed.

Lemma leaf_create_events_ok klen lo ko :
  lo <> 0 -> (nocopy th = false -> ko <> 0) -> ~ alloc_failed (leaf_create_events klen lo ko).
Proof.
  intros Hlo Hko [n Hn]. unfold leaf_create_events in Hn.
  destruct (nocopy th); repeat (apply elem_of_cons in Hn as [Hn|Hn]; [injection Hn as ? ?; subst|]);
    try by apply elem_of_nil in Hn.
  - done.
  - done.
  - by apply Hko.
Qed.

Lemma leaf_free_events_ok klen lo ko : ~ alloc_failed (leaf_free_events klen lo ko).
Proof.
  intros [n Hn]. unfold leaf_free_events in Hn.
  destruct (nocopy th); repeat (apply elem_of_cons in Hn as [Hn|Hn]; [done|]);
    by apply elem_of_nil in Hn.
Qed.

Lemma node_allocs_ok (cs : list Z) :
  (forall c, c ∈ cs -> c <> 0) -> ~ alloc_failed (map (EvAlloc THMAP_INODE_LEN) cs).
Proof.
  intros Hcs [n Hn]. apply list_elem_of_fmap in Hn as (c & Hc & Hin).
  injection Hc as _ Hc. by apply (Hcs c).
Qed.

Lemma grown_nonzero G G' cs : grown G G' cs -> forall c, c ∈ cs -> c <> 0.
Proof. intros [_ H] c Hc. destruct (H c Hc) as [_ ?]. lia. Qed.

Lemma put_new_ok G G' s' kb k klen v r evs :
  grown G G' (pubs evs) -> put_new G G' s' kb k klen v r evs -> ~ alloc_failed evs.
Proof.
  intros Hgr (lo & ko & _ & _ & _ & Hal & _ & _ & Hlo & Hko) Hf.
  apply alloc_failed_allocs in Hf. rewrite Hal in Hf.
  apply alloc_failed_app in Hf as [Hf|Hf].
  - by eapply leaf_create_events_ok.
  - eapply node_allocs_ok; [|exact Hf]. by eapply grown_nonzero.
Qed.

Lemma put_dup_ok G G' kb klen v r evs : put_dup G G' kb klen v r evs -> ~ alloc_failed evs.
Proof.
  intros (e & lo & ko & _ & _ & _ & _ & Hal & Hlo & Hko) Hf.
  apply alloc_failed_allocs in Hf. rewrite Hal in Hf.
  apply alloc_failed_app in Hf as [Hf|Hf].
  - by eapply leaf_create_events_ok.
  - by eapply leaf_free_events_ok.
Qed.

Lemma put_nomem_failed G G' klen r evs : put_nomem G G' klen r evs -> alloc_failed evs.
Proof.
  intros (_ & _ & [[Hf _]|(lo & ko & _ & Hal)]); apply alloc_failed_allocs.
  - destruct Hf as [->|(lo & _ & _ & ->)]; eexists.
    + left.
    + right. left.
  - rewrite Hal. exists THMAP_INODE_LEN.
    apply elem_of_app. right. apply elem_of_app. right. left.
Qed.

(** *** Sequences of insertions and removals *)



(** Every node that the events link into the tree is still in the tree
    or has been staged for G/C. *)
Definition pub_ok (G : ghost) (evs : list event) : Prop :=
  forall c, c ∈ pubs evs ->
    0 < c < 2 ^ 64 /\ THMAP_GETPTR th c <> root th /\
    (is_Some (g_nodes G !! THMAP_GETPTR th c) \/ (c, THMAP_INODE_LEN) ∈ stages evs).


Lemma pub_ok_same G evs0 evs :
  pubs evs = [] -> pub_ok G evs0 -> pub_ok G (evs0 ++ evs).
Proof.
  intros Hp Hok c Hc. rewrite pubs_app, Hp, app_nil_r in Hc. rewrite stages_app.
  destruct (Hok c Hc) as (Hr & Hroot & [Hin|Hst]); split; try done; split; try done.
  - by left.
  - right. apply elem_of_app. by left.
Qed.

Lemma pub_ok_shrunk G G' evs0 evs (ps : list Z) :
  pubs evs = [] ->
  dom (g_nodes G') = dom (g_nodes G) ∖ list_to_set ps ->
  (forall p, p ∈ ps -> (THMAP_GETOFF th p, THMAP_INODE_LEN) ∈ stages evs) ->
  pub_ok G evs0 -> pub_ok G' (evs0 ++ evs).
Proof.
  intros Hp Hdom Hst Hok c Hc. rewrite pubs_app, Hp, app_nil_r in Hc. rewrite stages_app.
  destruct (Hok c Hc) as (Hr & Hroot & [Hin|Hs]); split; try done; split; try done.
  - destruct (decide (THMAP_GETPTR th c ∈ ps)) as [Hps|Hps].
    + right. apply elem_of_app. right. apply Hst in Hps.
      by rewrite getoff_getptr in Hps by lia.
    + left. apply elem_of_dom. rewrite Hdom. apply elem_of_difference.
      split; [by apply elem_of_dom|]. by rewrite elem_of_list_to_set.
  - right. apply elem_of_app. by left.
Qed.



Lemma put_step_facts G G' s' kb k klen v r evs :
  put_new G G' s' kb k klen v r evs \/ put_dup G G' kb klen v r evs \/
    put_nomem G G' klen r evs ->
  grown G G' (pubs evs) ->
  (forall kb0, kb0 <> kb -> amap G' !! kb0 = amap G !! kb0) /\
  (~ alloc_failed evs ->
     r = v /\ amap G' = match amap G !! kb with
                        | Some _ => amap G
                        | None => <[kb := v]> (amap G)
                        end) /\
  (alloc_failed evs -> r = 0 /\ amap G' = amap G).
Proof.
  intros [Hnew|[Hdup|Hno]] Hgr.
  - pose proof (put_new_ok _ _ _ _ _ _ _ _ _ Hgr Hnew) as Hok.
    destruct Hnew as (lo & ko & Hkb & -> & Hem & _).
    apply amap_insert in Hem. split; [|split; [|done]].
    + intros kb0 Hne. by rewrite Hem, lookup_insert_ne.
    + intros _. split; [done|]. by rewrite amap_lookup, Hkb.
  - pose proof (put_dup_ok _ _ _ _ _ _ _ Hdup) as Hok.
    destruct Hdup as (e & lo & ko & Hkb & -> & -> & _).
    split; [done|]. split; [|done]. intros _. split; [done|].
    by rewrite amap_lookup, Hkb.
  - pose proof (put_nomem_failed _ _ _ _ _ Hno) as Hf.
    destruct Hno as (-> & Hem & _). apply amap_of_emap in Hem.
    split; [by rewrite Hem|]. split; [done|]. done.
Qed.


Lemma del_step_facts G G' s s' kb klen r evs :
  del_absent G G' s s' kb r evs \/ del_present G G' s s' kb klen r evs ->
  pubs evs = [] ->
  amap G' = delete kb (amap G) /\
  r = default 0 (amap G !! kb) /\
  (forall evs0, pub_ok G evs0 -> pub_ok G' (evs0 ++ evs)).
Proof.
  intros [(Hkb & -> & -> & _)|(e & a & ups & Hkb & -> & He & _ & -> & Hdom & _ & _)] Hp.
  - split; [|split].
    + symmetry. apply delete_id. by rewrite amap_lookup, Hkb.
    + by rewrite amap_lookup, Hkb.
    + intros evs0. by apply pub_ok_same.
  - split; [by apply amap_delete|]. split; [by rewrite amap_lookup, Hkb|].
    intros evs0. apply (pub_ok_shrunk _ _ _ _ (collapse_nodes a ups)); [done|done|].
    intros p Hin. rewrite stages_del_events, stages_collapse.
    apply elem_of_app. left. apply list_elem_of_fmap. by exists p.
Qed.


(** ** The operations on a well-formed map *)


Lemma wf_apart G M kb :
  amap G = M ->
  (M !! kb = None -> forall kb', is_Some (M !! kb') -> kb' <> kb -> apart kb kb') ->
  g_ents G !! kb = None ->
  forall kb' e', g_ents G !! kb' = Some e' -> kb' <> kb -> apart kb kb'.
Proof.
  intros <- H Hkb kb' e' He' Hne. apply H; [by rewrite amap_lookup, Hkb| |done].
  rewrite amap_lookup, He'. by eexists.
Qed.

(** C1, as the code behaves: [thmap_put] with a key that is present
    leaves the contents of the map as they were, and it returns the
    value that it was given, whatever value is stored for the key (or
    NULL, when there was no memory for the leaf that it prepares
    first).  The stored value [v0] is not what it returns: [leaf_free]
    returns the [val] of the leaf that it frees, and that is the leaf
    which was prepared for this call. *)
Theorem thmap_put_present_returns_argument (s : st) (M : gmap (list Z) Z)
    (k n v v0 : Z) (kb : list Z) :
  wf s M -> M !! kb = Some v0 -> readable s k n kb ->
  exists (D : nat) r s' evs,
    (forall fuel, (D <= fuel)%nat -> thmap_put fuel th k n v s = Ok r s') /\
    log s' = log s ++ evs /\ wf s' M /\
    (alloc_failed evs /\ r = 0 \/ ~ alloc_failed evs /\ r = v).
Proof.
  intros (G & HI & HM) HMkb [Hk Hnc].
  assert (exists e, g_ents G !! kb = Some e) as [e He].
  { rewrite <- HM, amap_lookup in HMkb. destruct (g_ents G !! kb); [by eexists|done]. }
  destruct (thmap_put_run G s k n kb v HI Hk Hnc)
    as (D & r & s' & G' & evs & Hrun & HI' & Hlog & _ & _ & Hgr & _ & Hres);
    [intros; congruence|].
  destruct (put_step_facts _ _ _ _ _ _ _ _ _ Hres Hgr) as (_ & Hok & Hfail).
  rewrite HM, HMkb in Hok.
  exists D, r, s', evs. split; [done|]. split; [done|].
  destruct Hres as [(lo & ko & ? & _)|[Hdup|Hno]]; [congruence| |].
  - pose proof (put_dup_ok _ _ _ _ _ _ _ Hdup) as Hnf.
    destruct (Hok Hnf) as [-> HM']. split; [exists G'; by rewrite HM'|]. by right.
  - pose proof (put_nomem_failed _ _ _ _ _ Hno) as Hf.
    destruct (Hfail Hf) as [-> HM']. split; [exists G'; by rewrite HM'|]. by left.
Qed.



(** C5: the events of a removal come in this order: the edge node is
    locked and the leaf is taken out of its slot; then, as long as the
    node at hand is left without an entry and is not the root, the node
    above it is locked, the node at hand gets its DELETED bit, it is
    unlocked, its slot in the node above is cleared, and only then it is
    staged for G/C; the last node is unlocked and the leaf is staged.
    Whenever a node gets its DELETED bit, its state word is
    [NODE_LOCKED]: it is locked and no slot of it is in use. *)
Theorem thmap_del_contraction_order (s : st) (M : gmap (list Z) Z) (k n v : Z)
    (kb : list Z) :
  malloc_total -> wf s M -> key_at (mem s) k n kb -> M !! kb = Some v ->
  exists (D : nat) s' e a ups,
    (forall fuel, (D <= fuel)%nat -> thmap_del fuel th k n s = Ok v s') /\
    log s' = log s ++ del_events kb e n a ups /\
    (forall c st, EvDeleted c st ∈ del_events kb e n a ups ->
       st = NODE_LOCKED /\ node_locked_p (mk_inode st 0 []) = true /\ NODE_COUNT st = 0).
Proof.
  intros Hmalloc (G & HI & HM) Hk HMkb.
  destruct (thmap_del_run G s k n kb Hmalloc HI Hk)
    as (D & r & s' & G' & evs & Hrun & HI' & Hlog & _ & Hp & _ & Hres).
  rewrite <- HM, amap_lookup in HMkb.
  destruct Hres as [(Habs & _)|(e & a & ups & He & -> & _ & _ & -> & _)];
    [by rewrite Habs in HMkb|].
  rewrite He in HMkb. injection HMkb as Hv. subst v.
  exists D, s', e, a, ups. split; [done|]. split; [done|].
  intros c st Hin. enough (st = NODE_LOCKED) as -> by done.
  rewrite del_events_app in Hin.
  apply elem_of_app in Hin as [Hin|Hin].
  { repeat (apply elem_of_cons in Hin as [Hin|Hin]; [done|]). by apply elem_of_nil in Hin. }
  apply elem_of_app in Hin as [Hin|Hin].
  - clear -Hin. revert a Hin. induction ups as [|[b j] ups IH]; intros a Hin.
    + by apply elem_of_nil in Hin.
    + cbn [collapse_events] in Hin. apply elem_of_app in Hin as [Hin|Hin]; [|by eapply IH].
      repeat (apply elem_of_cons in Hin as [Hin|Hin]; [by simplify_eq|]).
      by apply elem_of_nil in Hin.
  - unfold leaf_stage_events in Hin. apply elem_of_app in Hin as [Hin|Hin].
    + repeat (apply elem_of_cons in Hin as [Hin|Hin]; [done|]). by apply elem_of_nil in Hin.
    + apply elem_of_app in Hin as [Hin|Hin]; destruct (nocopy th);
        repeat (apply elem_of_cons in Hin as [Hin|Hin]; [done|]); by apply elem_of_nil in Hin.
Qed.

Lemma allocs_elem evs x : x ∈ allocs evs <-> x ∈ evs /\ is_alloc_ev x = true.
Proof. unfold allocs. rewrite !list_elem_of_In. apply List.filter_In. Qed.

(** A failed insertion has freed what it allocated, but for the nodes
    that it linked into the tree before the failure. *)
Lemma nomem_balanced G G' klen r evs :
  put_nomem G G' klen r evs ->
  forall len off, EvAlloc len off ∈ evs -> off <> 0 ->
    EvFree off len ∈ evs \/ off ∈ pubs evs.
Proof.
  intros (_ & _ & Hcases) len off Hin Hnz.
  assert (EvAlloc len off ∈ allocs evs) as Hin' by (by apply allocs_elem).
  assert (forall x, x ∈ allocs evs -> x ∈ evs) as Hsub by (intros x [? _]%allocs_elem; done).
  destruct Hcases as [[[Hf|(lo & Hlo & Hnc & Hf)] _]|(lo & ko & Hlo & Hal)].
  - rewrite Hf in Hin'. apply list_elem_of_singleton in Hin'. by simplify_eq.
  - rewrite Hf in Hin'. left. apply Hsub. rewrite Hf.
    repeat (apply elem_of_cons in Hin' as [Hin'|Hin']; [simplify_eq|]).
    + right. right. left.
    + by apply elem_of_nil in Hin'.
  - rewrite Hal in Hin'. unfold leaf_create_events, leaf_free_events in *.
    apply elem_of_app in Hin' as [Hin'|Hin'].
    + left. apply Hsub. rewrite Hal.
      apply elem_of_cons in Hin' as [Hin'|Hin'].
      * simplify_eq. apply elem_of_app. right. apply elem_of_app. right. right.
        apply elem_of_app. right. left.
      * destruct (nocopy th); [by apply elem_of_nil in Hin'|].
        apply list_elem_of_singleton in Hin'. simplify_eq.
        apply elem_of_app. right. apply elem_of_app. right. right. left.
    + apply elem_of_app in Hin' as [Hin'|Hin'].
      * right. apply list_elem_of_fmap in Hin' as (c & Hc & Hcin). by simplify_eq.
      * apply elem_of_cons in Hin' as [Hin'|Hin']; [by simplify_eq|].
        destruct (nocopy th);
          repeat (apply elem_of_cons in Hin' as [Hin'|Hin']; [done|]);
          by apply elem_of_nil in Hin'.
Qed.

Lemma gc_frees_gcs s : gc_frees (gc_list s) = map (fun p => EvFree p.1 p.2) (gcs s).
Proof. unfold gc_frees, gcs. rewrite map_map. done. Qed.

Lemma allocs_frees (l : list (Z * Z)) :
  allocs (map (fun p => EvFree p.1 p.2) l) = map (fun p => EvFree p.1 p.2) l.
Proof. apply allocs_id. by induction l. Qed.

(** What an insertion followed by the removal of the same key and a
    run of the G/C does, at the level of the ghost state. *)
Lemma put_del_gc_run G s k n kb v :
  malloc_total -> Inv ∅ G s -> g_ents G !! kb = None ->
  readable s k n kb ->
  (forall kb' e', g_ents G !! kb' = Some e' -> kb' <> kb -> apart kb kb') ->
  exists (D : nat) r1 s1 r2 s2 s3 G3 evs1 evs2,
    (forall fuel, (D <= fuel)%nat ->
       thmap_put fuel th k n v s = Ok r1 s1 /\ thmap_del fuel th k n s1 = Ok r2 s2) /\
    thmap_gc th s2 = Ok tt s3 /\ Inv ∅ G3 s3 /\ amap G3 = amap G /\
    mem_kept (mem s) (mem s1) /\
    log s1 = log s ++ evs1 /\ log s2 = log s1 ++ evs2 /\
    log s3 = log s2 ++ gc_frees (gc_list s2) /\
    allocs evs2 = [] /\ pubs evs2 = [] /\
    (alloc_failed evs1 -> r1 = 0 /\ r2 = 0 /\ gc_list s2 = gc_list s) /\
    (~ alloc_failed evs1 ->
       r1 = v /\ r2 = v /\ wf s1 (<[kb := v]> (amap G)) /\
       exists lo ko,
         lo <> 0 /\ (nocopy th = false -> ko <> 0) /\ (nocopy th = true -> ko = k) /\
         leaf_at (mem s1) (THMAP_GETPTR th lo) = Some (mk_leaf ko n v) /\
         allocs evs1 = leaf_create_events n lo ko ++
                       map (EvAlloc THMAP_INODE_LEN) (pubs evs1) /\
         stages evs2 = (if nocopy th then [] else [(ko, n)]) ++ [(lo, sizeof_leaf)] /\
         gcs s2 = (lo, sizeof_leaf) :: (if nocopy th then [] else [(ko, n)]) ++ gcs s).
Proof.
  intros Hmalloc HI Hkb [Hk Hnc] Hap.
  destruct (thmap_put_run G s k n kb v HI Hk Hnc (fun _ => Hap))
    as (D1 & r1 & s1 & G1 & evs1 & Hrun1 & HI1 & Hlog1 & Hgc1 & Hmk1 & Hgr1 & _ & Hres1).
  pose proof (mem_kept_key_at _ _ _ _ _ Hmk1 Hk) as Hk1.
  destruct (thmap_del_run G1 s1 k n kb Hmalloc HI1 Hk1)
    as (D2 & r2 & s2 & G2 & evs2 & Hrun2 & HI2 & Hlog2 & _ & Hp2 & Ha2 & Hres2).
  destruct (thmap_gc_run G2 s2 HI2) as (s3 & Hrun3 & HI3 & Hlog3 & _).
  destruct (put_step_facts _ _ _ _ _ _ _ _ _ Hres1 Hgr1) as (_ & Hok1 & Hfail1).
  destruct (del_step_facts _ _ _ _ _ _ _ _ Hres2 Hp2) as (Hamap2 & Hr2 & _).
  assert (amap G !! kb = None) as Habs by (by rewrite amap_lookup, Hkb).
  rewrite Habs in Hok1.
  assert (amap G2 = amap G) as HM2.
  { rewrite Hamap2.
    assert (alloc_failed evs1 \/ ~ alloc_failed evs1) as [Hf|Hnf].
    { destruct Hres1 as [Hnew|[Hdup|Hno]].
      - right. by eapply put_new_ok.
      - right. by eapply put_dup_ok.
      - left. by eapply put_nomem_failed. }
    - destruct (Hfail1 Hf) as [_ ->]. by apply delete_id.
    - destruct (Hok1 Hnf) as [_ ->]. by apply delete_insert_id. }
  exists (D1 `max` D2)%nat, r1, s1, r2, s2, s3, G2, evs1, evs2.
  split; [intros fuel Hf; split; [apply Hrun1|apply Hrun2]; lia|].
  do 9 (split; [done|]).
  split.
  - intros Hf. destruct (Hfail1 Hf) as [-> HM1]. split; [done|].
    rewrite HM1, Habs in Hr2. split; [done|].
    destruct Hres2 as [(_ & _ & _ & _ & _ & -> & _)|(e & _ & _ & He & _)]; [by rewrite Hgc1|].
    assert (amap G1 !! kb = Some (e_val e)) as E by (by rewrite amap_lookup, He).
    rewrite HM1, Habs in E. done.
  - intros Hnf. destruct (Hok1 Hnf) as [-> HM1]. split; [done|].
    rewrite HM1, lookup_insert_eq in Hr2. split; [done|].
    split; [by exists G1|].
    destruct Hres1 as [(lo & ko & _ & _ & Hem & Hal & Hko & Hroomy & Hlo & Hkonz)|[Hdup|Hno]].
    2:{ destruct Hdup as (e & _ & _ & ? & _). congruence. }
    2:{ by destruct Hnf; eapply put_nomem_failed. }
    assert (exists e, g_ents G1 !! kb = Some e /\ ecore e = (lo, ko, v)) as (e & He & Hcore).
    { apply emap_lookup. rewrite Hem. apply lookup_insert_eq. }
    injection Hcore as Heo Hek Hev.
    destruct Hres2 as [(Hnone & _)|(e2 & a & ups & He2 & _ & _ & _ & -> & _ & _ & Hgcs & Hups)];
      [congruence|].
    assert (e2 = e) as -> by congruence.
    rewrite (Hups Hroomy) in *.
    exists lo, ko. do 3 (split; [done|]).
    split.
    { destruct (inv_ents _ _ _ HI1 _ _ He) as (_ & _ & Hleaf & _).
      rewrite Heo, Hek, Hev in Hleaf. rewrite Hleaf.
      by rewrite (key_at_length _ _ _ _ Hk). }
    split; [done|].
    rewrite stages_del_events in Hgcs |- *. cbn [collapse_events stages omap app] in Hgcs |- *.
    rewrite Heo, Hek in Hgcs |- *. split; [done|].
    rewrite Hgcs. unfold gcs. rewrite Hgc1. cbn [map omap].
    destruct (nocopy th); done.
Qed.

Lemma gc_frees_ok gl : ~ alloc_failed (gc_frees gl).
Proof.
  intros [n Hn]. unfold gc_frees in Hn. apply list_elem_of_fmap in Hn as (g & Hg & _). done.
Qed.

Lemma gc_frees_allocs gl : forallb is_alloc_ev (gc_frees gl) = true.
Proof. by induction gl. Qed.

(** C10, as amended: a map that refers to the caller's keys, with the
    base address 0, and a key that is not in it.  An insertion that
    succeeds allocates the leaf, and besides a node for every level by
    which the tree grows when the key collides with another one; the
    leaf holds the caller's key pointer as it was given; [thmap_get] of
    the key then returns the value; and [thmap_del] of the key returns
    it too and stages the leaf, with the size of a leaf, and nothing
    else: the key buffer is not staged. *)
Theorem nocopy_put_get_del (s : st) (M : gmap (list Z) Z) (k n v : Z) (kb : list Z) :
  malloc_total -> nocopy th = true -> baseptr th = 0 ->
  wf s M -> M !! kb = None -> key_at (mem s) k n kb -> 0 <= k < 2 ^ 64 ->
  (forall kb', is_Some (M !! kb') -> kb' <> kb -> apart kb kb') ->
  exists (D : nat) r1 s1 evs1,
    (forall fuel, (D <= fuel)%nat -> thmap_put fuel th k n v s = Ok r1 s1) /\
    log s1 = log s ++ evs1 /\
    (~ alloc_failed evs1 ->
       r1 = v /\
       exists lo,
         lo <> 0 /\
         allocs evs1 = EvAlloc sizeof_leaf lo :: map (EvAlloc THMAP_INODE_LEN) (pubs evs1) /\
         leaf_at (mem s1) (THMAP_GETPTR th lo) = Some (mk_leaf k n v) /\
         (exists D' : nat, forall fuel, (D' <= fuel)%nat ->
            thmap_get fuel th k n s1 = Ok v s1) /\
         exists (D2 : nat) s2 evs2,
           (forall fuel, (D2 <= fuel)%nat -> thmap_del fuel th k n s1 = Ok v s2) /\
           log s2 = log s1 ++ evs2 /\
           stages evs2 = [(lo, sizeof_leaf)]).
Proof.
  intros Hmalloc Hnocopy Hbase (G & HI & HM) HMkb Hk Hkr Hap.
  assert (g_ents G !! kb = None) as Hkb.
  { rewrite <- HM, amap_lookup in HMkb. by destruct (g_ents G !! kb). }
  assert (THMAP_GETPTR th k = k) as Hptr.
  { unfold THMAP_GETPTR, uptr. rewrite Hbase. apply Z.mod_small. lia. }
  assert (readable s k n kb) as Hread.
  { split; [done|]. intros _. by rewrite Hptr. }
  destruct (put_del_gc_run G s k n kb v Hmalloc HI Hkb Hread)
    as (D & r1 & s1 & r2 & s2 & s3 & G3 & evs1 & evs2 & Hrun & _ & _ & _ & Hmk1 &
        Hlog1 & Hlog2 & _ & _ & _ & _ & Hok).
  { apply (wf_apart G M kb HM); [by intros _|done]. }
  exists D, r1, s1, evs1. split; [intros fuel Hf; by destruct (Hrun fuel Hf)|].
  split; [done|]. intros Hnf.
  destruct (Hok Hnf) as (-> & -> & Hwf1 & lo & ko & Hlo & _ & Hko & Hleaf & Hal & Hst & _).
  rewrite (Hko Hnocopy) in *. split; [done|]. exists lo. split; [done|].
  unfold leaf_create_events in Hal. rewrite Hnocopy in Hal, Hst.
  split; [done|]. split; [done|].
  split.
  - pose proof (mem_kept_key_at _ _ _ _ _ Hmk1 Hk) as Hk1.
    destruct (wf_get _ _ _ _ _ Hwf1 Hk1) as [D' HD']. exists D'.
    intros fuel Hf. by rewrite (HD' fuel Hf), lookup_insert_eq.
  - exists D, s2, evs2. split; [intros fuel Hf; by destruct (Hrun fuel Hf)|]. done.
Qed.

(** What [thmap_put] and [thmap_del] do to a well-formed map, in the
    form in which the examples below chain them. *)
Lemma wf_put s M k n v kb :
  wf s M -> readable s k n kb ->
  (M !! kb = None -> forall kb', is_Some (M !! kb') -> kb' <> kb -> apart kb kb') ->
  exists (D : nat) r s' evs,
    (forall fuel, (D <= fuel)%nat -> thmap_put fuel th k n v s = Ok r s') /\
    log s' = log s ++ evs /\ gc_list s' = gc_list s /\ mem_kept (mem s) (mem s') /\
    stages evs = [] /\
    (alloc_failed evs -> r = 0 /\ wf s' M) /\
    (~ alloc_failed evs ->
       r = v /\ wf s' (match M !! kb with Some _ => M | None => <[kb := v]> M end)).
Proof.
  intros (G & HI & HM) [Hk Hnc] Hap.
  destruct (thmap_put_run G s k n kb v HI Hk Hnc (wf_apart _ _ _ HM Hap))
    as (D & r & s' & G' & evs & Hrun & HI' & Hlog & Hgc & Hkept & Hgr & Hst & Hres).
  destruct (put_step_facts _ _ _ _ _ _ _ _ _ Hres Hgr) as (_ & Hok & Hfail).
  exists D, r, s', evs. repeat (split; [done|]). split.
  - intros Hf. destruct (Hfail Hf) as [-> HM']. split; [done|]. exists G'. by rewrite HM'.
  - intros Hf. destruct (Hok Hf) as [-> HM']. split; [done|]. exists G'.
    split; [done|]. by rewrite HM', HM.
Qed.

Lemma wf_del s M k n kb :
  malloc_total -> wf s M -> key_at (mem s) k n kb ->
  exists (D : nat) r s' evs,
    (forall fuel, (D <= fuel)%nat -> thmap_del fuel th k n s = Ok r s') /\
    log s' = log s ++ evs /\ same_data (mem s) (mem s') /\
    pubs evs = [] /\ allocs evs = [] /\
    r = default 0 (M !! kb) /\ wf s' (delete kb M).
Proof.
  intros Hmalloc (G & HI & HM) Hk.
  destruct (thmap_del_run G s k n kb Hmalloc HI Hk)
    as (D & r & s' & G' & evs & Hrun & HI' & Hlog & Hsd & Hp & Hal & Hres).
  destruct (del_step_facts _ _ _ _ _ _ _ _ Hres Hp) as (Hamap & Hr & _).
  exists D, r, s', evs. repeat (split; [done|]).
  split; [by rewrite <- HM|]. exists G'. by rewrite Hamap, HM.
Qed.

(** ** The allocator along a run

    The log and the allocator go together: the state of the allocator
    after a run is what the calls in the log make of it, and each call
    returned what the log says.  This ties a failure in the log to the
    allocator: none is logged that the allocator did not report. *)

Fixpoint alloc_trace (a : A) (evs : list event) (a' : A) : Prop :=
  match evs with
  | [] => a' = a
  | EvAlloc n off :: evs =>
      (alloc (ops th) n a).1 = off /\ alloc_trace (alloc (ops th) n a).2 evs a'
  | EvFree off n :: evs => alloc_trace (free (ops th) off n a) evs a'
  | _ :: evs => alloc_trace a evs a'
  end.

Definition traced {X : Type} (m : M X) : Prop :=
  forall s r s', m s = Ok r s' ->
    exists evs, log s' = log s ++ evs /\ alloc_trace (ast s) evs (ast s').

(** A computation that leaves the log and the allocator alone. *)
Definition quiet {X : Type} (m : M X) : Prop :=
  forall s r s', m s = Ok r s' -> log s' = log s /\ ast s' = ast s.

(** The allocator does not return zero at any of the next [K] calls,
    whatever is asked of it. *)
Fixpoint supply (K : nat) (a : A) : Prop :=
  match K with
  | O => True
  | S K => forall n, (alloc (ops th) n a).1 <> 0 /\ supply K (alloc (ops th) n a).2
  end.

Lemma alloc_trace_app a evs1 a1 evs2 a2 :
  alloc_trace a evs1 a1 -> alloc_trace a1 evs2 a2 -> alloc_trace a (evs1 ++ evs2) a2.
Proof.
  revert a. induction evs1 as [|e evs1 IH]; intros a H1 H2.
  - simpl in H1. by subst a1.
  - destruct e; simpl in *; try (by apply IH).
    destruct H1 as [H0 H1]. split; [done|]. by apply IH.
Qed.

Lemma alloc_trace_allocs a evs a' : alloc_trace a evs a' <-> alloc_trace a (allocs evs) a'.
Proof.
  revert a. induction evs as [|e evs IH]; intros a; [done|].
  destruct e; unfold allocs; simpl; fold (allocs evs); try apply IH.
  by rewrite IH.
Qed.

Lemma traced_quiet {X : Type} (m : M X) : quiet m -> traced m.
Proof.
  intros Hq s r s' Hrun. destruct (Hq s r s' Hrun) as [Hl Ha].
  exists []. rewrite app_nil_r. split; [done|]. simpl. done.
Qed.

Lemma traced_ret {X : Type} (x : X) : traced (mret x).
Proof. apply traced_quiet. intros s r s' H. unfold mret, M_ret in H. by simplify_eq. Qed.

Lemma traced_fault {X : Type} : traced (fault : M X).
Proof. intros s r s' H. discriminate H. Qed.

Lemma traced_diverge {X : Type} : traced (diverge : M X).
Proof. intros s r s' H. discriminate H. Qed.

Lemma traced_bind {X Y : Type} (m : M X) (f : X -> M Y) :
  traced m -> (forall x, traced (f x)) -> traced (m ≫= f).
Proof.
  intros Hm Hf s r s' Hrun. unfold mbind, M_bind in Hrun.
  destruct (m s) as [x s1| |] eqn:E; try discriminate Hrun.
  destruct (Hm _ _ _ E) as (evs1 & Hl1 & Ht1).
  destruct (Hf x _ _ _ Hrun) as (evs2 & Hl2 & Ht2).
  exists (evs1 ++ evs2). split; [by rewrite Hl2, Hl1, app_assoc|].
  by eapply alloc_trace_app.
Qed.

Lemma traced_assert (b : bool) : traced (assert b).
Proof. destruct b; [apply traced_ret|apply traced_fault]. Qed.

Lemma traced_load_inode p : traced (load_inode p).
Proof.
  apply traced_quiet. intros s r s' H. unfold load_inode in H.
  destruct (mem s !! p) as [[]|]; by simplify_eq.
Qed.

Lemma traced_store_inode p n : traced (store_inode p n).
Proof.
  apply traced_quiet. intros s r s' H. unfold store_inode in H.
  destruct (mem s !! p) as [[]|]; by simplify_eq.
Qed.

Lemma traced_load_leaf p : traced (load_leaf p).
Proof.
  apply traced_quiet. intros s r s' H. unfold load_leaf in H.
  destruct (mem s !! p) as [[]|]; by simplify_eq.
Qed.

Lemma traced_load_bytes p n : traced (load_bytes p n).
Proof.
  apply traced_quiet. intros s r s' H. unfold load_bytes in H.
  destruct (mem s !! p) as [[]|]; try discriminate H.
  destruct (_ && _); by simplify_eq.
Qed.

Lemma traced_init_cell p c : traced (init_cell p c).
Proof.
  apply traced_quiet. intros s r s' H. unfold init_cell in H.
  destruct (mem s !! p); by simplify_eq.
Qed.

Lemma traced_emit e : is_alloc_ev e = false -> traced (emit e).
Proof.
  intros He s r s' H. unfold emit in H. injection H as Hr Hs. subst r s'.
  exists [e]. split; [done|].
  destruct e; try discriminate He; simpl; done.
Qed.

Lemma traced_ops_alloc n : traced (ops_alloc th n).
Proof.
  intros s r s' H. unfold ops_alloc in H.
  destruct (alloc (ops th) n (ast s)) as [off a] eqn:E.
  injection H as Hr Hs. subst r s'.
  exists [EvAlloc n off]. split; [done|]. simpl. by rewrite E.
Qed.

Lemma traced_ops_free off n : traced (ops_free th off n).
Proof.
  intros s r s' H. unfold ops_free in H.
  destruct (mem s !! THMAP_GETPTR th off); [|discriminate H].
  injection H as Hr Hs. subst r s'.
  exists [EvFree off n]. split; [done|]. simpl. done.
Qed.

Create HintDb traced.
#[local] Hint Resolve traced_ret traced_fault traced_diverge traced_assert traced_load_inode
  traced_store_inode traced_load_leaf traced_load_bytes traced_init_cell
  traced_ops_alloc traced_ops_free : traced.
#[local] Hint Extern 1 (traced (emit _)) => (apply traced_emit; reflexivity) : traced.

(** One step through a program: a bind, a branch, or a computation
    that is known to be traced. *)
Ltac traced_step :=
  cbv zeta;
  lazymatch goal with
  | |- traced (_ ≫= _) => apply traced_bind; [|intros ?]
  | |- traced (if ?b then _ else _) => destruct b
  | |- traced (match ?x with _ => _ end) => destruct x
  | |- _ => solve [eauto with traced]
  end.
Ltac traced_tac := repeat traced_step.

Lemma traced_load_slot p slot : traced (load_slot p slot).
Proof. unfold load_slot. traced_tac. Qed.

Lemma traced_store_slot p slot v : traced (store_slot p slot v).
Proof. unfold store_slot. traced_tac. Qed.

Lemma traced_store_state p x : traced (store_state p x).
Proof. unfold store_state. traced_tac. Qed.

#[local] Hint Resolve traced_load_slot traced_store_slot traced_store_state : traced.

Lemma traced_lock_node p : traced (lock_node p).
Proof. unfold lock_node. traced_tac. Qed.

Lemma traced_unlock_node p : traced (unlock_node p).
Proof. unfold unlock_node. traced_tac. Qed.

Lemma traced_hashval_getslot q k n : traced (hashval_getslot q k n).
Proof. unfold hashval_getslot. traced_tac. Qed.

#[local] Hint Resolve traced_lock_node traced_unlock_node traced_hashval_getslot : traced.

Lemma traced_hashval_getleafslot leaf lvl : traced (hashval_getleafslot th leaf lvl).
Proof. unfold hashval_getleafslot. traced_tac. Qed.

Lemma traced_key_cmp_p leaf k n : traced (key_cmp_p th leaf k n).
Proof. unfold key_cmp_p. traced_tac. Qed.

Lemma traced_node_create par : traced (node_create th par).
Proof. unfold node_create. traced_tac. Qed.

Lemma traced_node_insert node slot child : traced (node_insert node slot child).
Proof. unfold node_insert. traced_tac. Qed.

Lemma traced_leaf_create k n v : traced (leaf_create th k n v).
Proof. unfold leaf_create. traced_tac. Qed.

Lemma traced_leaf_free leaf : traced (leaf_free th leaf).
Proof. unfold leaf_free. traced_tac. Qed.

#[local] Hint Resolve traced_hashval_getleafslot traced_key_cmp_p traced_node_create
  traced_node_insert traced_leaf_create traced_leaf_free : traced.

Lemma traced_find_edge_loop fuel : forall q k n par node off,
  traced (find_edge_loop fuel th q k n par node off).
Proof.
  induction fuel as [|fuel IH]; intros q k n par node off; simpl; traced_tac.
Qed.

Lemma traced_find_edge_node fuel q k n : traced (find_edge_node fuel th q k n).
Proof. unfold find_edge_node. traced_tac. apply traced_find_edge_loop. Qed.

#[local] Hint Resolve traced_find_edge_node : traced.

Lemma traced_find_edge_node_locked fuel : forall q k n,
  traced (find_edge_node_locked fuel th q k n).
Proof.
  induction fuel as [|fuel IH]; intros q k n; simpl; traced_tac.
Qed.

Lemma traced_put_descend fuel : forall q k n v leaf other par slot,
  traced (put_descend fuel th q k n v leaf other par slot).
Proof.
  induction fuel as [|fuel IH]; intros q k n v leaf other par slot; simpl; traced_tac.
Qed.

#[local] Hint Resolve traced_find_edge_node_locked traced_put_descend : traced.

Lemma traced_thmap_put fuel k n v : traced (thmap_put fuel th k n v).
Proof. unfold thmap_put. traced_tac. Qed.

(** *** An allocator with blocks to spare *)

Definition is_alloc_call (e : event) : bool :=
  match e with EvAlloc _ _ => true | _ => false end.

Lemma supply_le K K' a : supply K a -> (K' <= K)%nat -> supply K' a.
Proof.
  revert K a. induction K' as [|K' IH]; intros K a H Hle; [done|].
  destruct K as [|K]; [lia|]. intros n. destruct (H n) as [H1 H2].
  split; [done|]. apply (IH K); [done|lia].
Qed.

(** While the supply lasts, no call fails. *)
Lemma supply_allocs K a evs a' :
  supply K a -> alloc_trace a evs a' -> forallb is_alloc_call evs = true ->
  (length evs <= K)%nat ->
  ~ alloc_failed evs /\ supply (K - length evs) a'.
Proof.
  revert K a. induction evs as [|e evs IH]; intros K a Hs Ht Hall Hlen.
  - simpl in *. subst a'. split; [|by rewrite Nat.sub_0_r].
    intros [n Hn]. by apply elem_of_nil in Hn.
  - destruct e as [len off| | | | | | | |]; try discriminate Hall.
    simpl in Hall, Hlen, Ht. destruct K as [|K]; [lia|].
    destruct Ht as [Ho Ht]. destruct (Hs len) as [Hnz Hs'].
    destruct (IH K _ Hs' Ht Hall ltac:(lia)) as [Hnf Hs'']. split; [|done].
    intros [n Hn]. apply elem_of_cons in Hn as [Hn|Hn].
    + injection Hn as _ Hz. congruence.
    + apply Hnf. by exists n.
Qed.

Lemma supply_first_failure K a pre n post a' :
  supply K a -> alloc_trace a (pre ++ EvAlloc n 0 :: post) a' ->
  forallb is_alloc_call pre = true -> (length pre < K)%nat -> False.
Proof.
  revert K a. induction pre as [|e pre IH]; intros K a Hs Ht Hall Hlen.
  - destruct K as [|K]; [simpl in Hlen; lia|]. simpl in Ht. destruct Ht as [H0 _].
    by destruct (Hs n).
  - destruct e as [len off| | | | | | | |]; try discriminate Hall.
    simpl in Hall, Hlen, Ht. destruct K as [|K]; [lia|].
    destruct Ht as [_ Ht]. destruct (Hs len) as [_ Hs'].
    apply (IH K _ Hs' Ht Hall). lia.
Qed.

Lemma leaf_create_events_calls klen lo ko :
  forallb is_alloc_call (leaf_create_events klen lo ko) = true /\
  (length (leaf_create_events klen lo ko) <= 2)%nat.
Proof. unfold leaf_create_events. destruct (nocopy th); simpl; split; (done || lia). Qed.

Lemma node_allocs_calls cs :
  forallb is_alloc_call (map (EvAlloc THMAP_INODE_LEN) cs) = true.
Proof. by induction cs. Qed.

(** [thmap_put] of a key that is not in the map, with an allocator that
    has blocks to spare: the leaf, the copy of the key, a node for each
    of the [Lb] levels that may be needed, and one more. *)
Lemma thmap_put_supplied G s k klen kb v Lb K :
  Inv ∅ G s -> key_at (mem s) k klen kb ->
  (nocopy th = true -> 0 <= k < 2 ^ 64 /\ key_at (mem s) (THMAP_GETPTR th k) klen kb) ->
  g_ents G !! kb = None -> parts_by G kb Lb -> Z.of_nat Lb < 2 ^ 32 ->
  supply K (ast s) -> (3 + Lb <= K)%nat ->
  exists (D : nat) s' G' evs,
    (forall fuel, (D <= fuel)%nat -> thmap_put fuel th k klen v s = Ok v s') /\
    Inv ∅ G' s' /\ log s' = log s ++ evs /\ gc_list s' = gc_list s /\
    mem_kept (mem s) (mem s') /\ grown G G' (pubs evs) /\ stages evs = [] /\
    put_new G G' s' kb k klen v v evs /\
    ~ alloc_failed evs /\ supply (K - (2 + Lb)) (ast s').
Proof.
  intros HI Hk Hnc Hkb Hparts HLb Hsup HK.
  destruct (thmap_put_run_bound G s k klen kb v HI Hk Hnc)
    as (D & r & s' & G' & evs & Hrun & HI' & Hlog & Hgc & Hmk & Hgr & Hst & Hres & Hbd).
  { intros _ kb' e' He' Hne. destruct (Hparts kb' e' He' Hne) as (L' & HL' & Hsl).
    exists L'. split; [lia|done]. }
  specialize (Hbd Lb Hparts).
  destruct (traced_thmap_put D k klen v s r s' (Hrun D (le_n D))) as (evs' & Hlog' & Htr).
  rewrite Hlog in Hlog'. apply app_inv_head in Hlog'. subst evs'.
  apply alloc_trace_allocs in Htr.
  destruct Hres as [Hnew|[Hdup|Hno]].
  - pose proof Hnew as (lo & ko & _ & -> & _ & Hal & _).
    rewrite Hal in Htr.
    destruct (leaf_create_events_calls klen lo ko) as [Hc1 Hc2].
    destruct (supply_allocs K _ _ _ Hsup Htr) as [Hnf Hs'].
    { by rewrite forallb_app, Hc1, node_allocs_calls. }
    { rewrite length_app, length_map. lia. }
    exists D, s', G', evs. repeat (split; [done|]). split.
    + intros Hf. apply Hnf. rewrite <- Hal. by apply alloc_failed_allocs in Hf.
    + eapply supply_le; [exact Hs'|]. rewrite length_app, length_map. lia.
  - destruct Hdup as (e & _ & _ & He & _). congruence.
  - exfalso. destruct Hno as (_ & _ & [[Hf _]|(lo & ko & Hlo & Hal)]).
    + destruct Hf as [Hf|(lo & _ & _ & Hf)]; rewrite Hf in Htr.
      * apply (supply_first_failure K _ [] _ _ _ Hsup Htr); [done|simpl; lia].
      * apply (supply_first_failure K _ [EvAlloc sizeof_leaf lo] _ _ _ Hsup Htr);
          [done|simpl; lia].
    + rewrite Hal, app_assoc in Htr.
      destruct (leaf_create_events_calls klen lo ko) as [Hc1 Hc2].
      apply (supply_first_failure K _ _ _ _ _ Hsup Htr).
      * by rewrite forallb_app, Hc1, node_allocs_calls.
      * rewrite length_app, length_map. lia.
Qed.

(** Two keys part at a level that is not above [Lb]. *)
Definition within (Lb : nat) (kb kb' : list Z) : Prop :=
  exists L : nat, (L <= Lb)%nat /\ kslot kb (Z.of_nat L) <> kslot kb' (Z.of_nat L).


Lemma within_apart Lb kb kb' : Z.of_nat Lb < 2 ^ 32 -> within Lb kb kb' -> apart kb kb'.
Proof. intros HLb (L & HL & Hsl). exists L. split; [lia|done]. Qed.

Lemma wf_put_supplied s M k n v kb Lb K :
  wf s M -> readable s k n kb -> M !! kb = None ->
  (forall kb', is_Some (M !! kb') -> kb' <> kb -> within Lb kb kb') ->
  Z.of_nat Lb < 2 ^ 32 -> supply K (ast s) -> (3 + Lb <= K)%nat ->
  exists (D : nat) s' evs,
    (forall fuel, (D <= fuel)%nat -> thmap_put fuel th k n v s = Ok v s') /\
    log s' = log s ++ evs /\ gc_list s' = gc_list s /\ mem_kept (mem s) (mem s') /\
    stages evs = [] /\ ~ alloc_failed evs /\
    wf s' (<[kb := v]> M) /\ supply (K - (2 + Lb)) (ast s').
Proof.
  intros (G & HI & HM) [Hk Hnc] Hkb Hw HLb Hsup HK.
  assert (g_ents G !! kb = None) as HkbG.
  { rewrite <- HM, amap_lookup in Hkb. by destruct (g_ents G !! kb). }
  destruct (thmap_put_supplied G s k n kb v Lb K HI Hk Hnc HkbG)
    as (D & s' & G' & evs & Hrun & HI' & Hlog & Hgc & Hmk & Hgr & Hst & Hnew & Hnf & Hs');
    try done.
  { intros kb' e' He' Hne. apply Hw; [|done]. rewrite <- HM, amap_lookup, He'. by eexists. }
  exists D, s', evs. repeat (split; [done|]). split; [|done].
  exists G'. split; [done|].
  destruct Hnew as (lo & ko & _ & _ & Hem & _). rewrite <- HM. by eapply amap_insert.
Qed.





(** C6, as amended: the key is readable where the map looks for it,
    and the hash parts it from the keys of the map.  The log of the
    call follows the allocator: each call in it returned what the log
    says.  When a call of the allocator during [thmap_put] returns
    zero, [thmap_put] returns NULL and the contents of the map are what
    they were.  The leaf and the copy of the key that the call
    allocated have been freed, each with the length it was asked with,
    before the call returns; a node that the call had linked into the
    tree before the allocation of a further node failed is not freed:
    it stays in the tree. *)
Theorem thmap_put_alloc_failure (s : st) (M : gmap (list Z) Z) (k n v : Z) (kb : list Z) :
  wf s M -> readable s k n kb ->
  (M !! kb = None -> forall kb', is_Some (M !! kb') -> kb' <> kb -> apart kb kb') ->
  exists (D : nat) r s' evs,
    (forall fuel, (D <= fuel)%nat -> thmap_put fuel th k n v s = Ok r s') /\
    log s' = log s ++ evs /\
    alloc_trace (ast s) evs (ast s') /\
    (alloc_failed evs ->
       r = 0 /\ wf s' M /\
       forall len off, EvAlloc len off ∈ evs -> off <> 0 ->
         EvFree off len ∈ evs \/ off ∈ pubs evs).
Proof.
  intros (G & HI & HM) [Hk Hnc] Hap.
  destruct (thmap_put_run G s k n kb v HI Hk Hnc (wf_apart _ _ _ HM Hap))
    as (D & r & s' & G' & evs & Hrun & HI' & Hlog & _ & _ & Hgr & _ & Hres).
  destruct (put_step_facts _ _ _ _ _ _ _ _ _ Hres Hgr) as (_ & _ & Hfail).
  exists D, r, s', evs. split; [done|]. split; [done|].
  split.
  { destruct (traced_thmap_put D k n v s r s' (Hrun D (le_n D))) as (evs' & Hlog' & Htr).
    rewrite Hlog in Hlog'. apply app_inv_head in Hlog'. by subst evs'. }
  intros Hf. destruct (Hfail Hf) as [-> HM']. split; [done|].
  split; [exists G'; by rewrite HM'|].
  destruct Hres as [Hnew|[Hdup|Hno]].
  - by destruct (put_new_ok _ _ _ _ _ _ _ _ _ Hgr Hnew).
  - by destruct (put_dup_ok _ _ _ _ _ _ _ Hdup).
  - by eapply nomem_balanced.
Qed.


(** C8, as amended: the key is not in the map and is readable where
    the map looks for it, it parts from the keys of the map within [Lb]
    levels, the G/C list is empty, libc's [malloc] does not fail, and
    the allocator has [3 + Lb] blocks to spare.  Then [thmap_put],
    [thmap_del] and [thmap_gc] make these calls of the allocator, in
    this order: the leaf is allocated, then (unless the map refers to
    the caller's keys) the copy of the key, then a node for every level
    by which the tree grows; the G/C frees the leaf and then the copy of
    the key, each with the length it was allocated with.  No call
    fails.  The nodes are not freed: they hold the key with which the
    new key collided. *)
Theorem put_del_gc_traffic (s : st) (M : gmap (list Z) Z) (k n v : Z) (kb : list Z)
    (Lb : nat) :
  malloc_total -> wf s M -> gc_list s = [] -> M !! kb = None -> readable s k n kb ->
  (forall kb', is_Some (M !! kb') -> kb' <> kb -> within Lb kb kb') ->
  Z.of_nat Lb < 2 ^ 32 -> supply (3 + Lb) (ast s) ->
  exists (D : nat) s1 s2 s3 evs lo ko,
    (forall fuel, (D <= fuel)%nat ->
       thmap_put fuel th k n v s = Ok v s1 /\ thmap_del fuel th k n s1 = Ok v s2) /\
    thmap_gc th s2 = Ok tt s3 /\ log s3 = log s ++ evs /\ wf s3 M /\
    ~ alloc_failed evs /\
    allocs evs =
      leaf_create_events n lo ko ++ map (EvAlloc THMAP_INODE_LEN) (pubs evs) ++
      EvFree lo sizeof_leaf :: (if nocopy th then [] else [EvFree ko n]).
Proof.
  intros Hmalloc (G & HI & HM) Hgc HMkb [Hk Hnc] Hw HLb Hsup.
  assert (g_ents G !! kb = None) as Hkb.
  { rewrite <- HM, amap_lookup in HMkb. by destruct (g_ents G !! kb). }
  assert (parts_by G kb Lb) as Hparts.
  { intros kb' e' He' Hne. apply Hw; [|done]. rewrite <- HM, amap_lookup, He'. by eexists. }
  destruct (put_del_gc_run G s k n kb v Hmalloc HI Hkb (conj Hk Hnc))
    as (D & r1 & s1 & r2 & s2 & s3 & G3 & evs1 & evs2 & Hrun & Hrun3 & HI3 & HM3 & _ &
        Hlog1 & Hlog2 & Hlog3 & Ha2 & Hp2 & _ & Hok).
  { intros kb' e' He' Hne. eapply within_apart; [done|]. exact (Hparts kb' e' He' Hne). }
  destruct (thmap_put_supplied G s k n kb v Lb (3 + Lb) HI Hk Hnc Hkb Hparts HLb Hsup (le_n _))
    as (D' & s1' & G' & evs' & Hrun' & _ & Hlog' & _ & _ & _ & _ & _ & Hnf' & _).
  destruct (Hrun (D `max` D')%nat) as [Hp _]; [lia|].
  rewrite (Hrun' (D `max` D')%nat) in Hp by lia. injection Hp as Hr1 Hs1. subst r1 s1'.
  rewrite Hlog1 in Hlog'. apply app_inv_head in Hlog'. subst evs'.
  destruct (Hok Hnf') as (_ & Hr2 & _ & lo & ko & _ & _ & _ & _ & Hal & _ & Hgcs). subst r2.
  exists D, s1, s2, s3, (evs1 ++ evs2 ++ gc_frees (gc_list s2)), lo, ko.
  split; [done|]. split; [done|].
  split; [by rewrite Hlog3, Hlog2, Hlog1, <- !app_assoc|].
  split; [exists G3; by rewrite HM3|].
  split.
  { intros [Hf|[Hf|Hf]%alloc_failed_app]%alloc_failed_app.
    - done.
    - apply alloc_failed_allocs in Hf. rewrite Ha2 in Hf.
      destruct Hf as [x Hx]. by apply elem_of_nil in Hx.
    - by apply gc_frees_ok in Hf. }
  rewrite !allocs_app, !pubs_app, Hal, Ha2, Hp2, (pubs_allocs _ (gc_frees_allocs _)),
    (allocs_id _ (gc_frees_allocs _)), gc_frees_gcs, Hgcs.
  unfold gcs. rewrite Hgc. cbn [app map]. rewrite !app_nil_r, <- app_assoc.
  by destruct (nocopy th).
Qed.

(** ** Further properties of the operations *)

(** [thmap_get] on a well-formed map returns the value that the map
    holds for the key, or NULL when the key is not in it, and leaves the
    state as it was: it takes no lock, calls no allocator and writes
    nothing. *)
Theorem thmap_get_spec (s : st) (M : gmap (list Z) Z) (k n : Z) (kb : list Z) :
  wf s M -> key_at (mem s) k n kb ->
  exists D : nat, forall fuel, (D <= fuel)%nat ->
    thmap_get fuel th k n s = Ok (default 0 (M !! kb)) s.
Proof. apply wf_get. Qed.

(** [thmap_gc] on a well-formed map frees the staged blocks, in the
    order of the G/C list and each with the length it was staged with,
    and leaves the list empty.  The contents of the map are what they
    were, and so is every cell of the memory that was not staged. *)
Theorem thmap_gc_spec (s : st) (M : gmap (list Z) Z) :
  wf s M ->
  exists s',
    thmap_gc th s = Ok tt s' /\
    log s' = log s ++ map (fun g => EvFree (addr g) (gc_len g)) (gc_list s) /\
    gc_list s' = [] /\ wf s' M /\
    (forall x c, mem s !! x = Some c ->
       (forall g, g ∈ gc_list s -> x <> THMAP_GETPTR th (addr g)) -> mem s' !! x = Some c).
Proof.
  intros (G & HI & HM).
  destruct (thmap_gc_run G s HI) as (s' & Hrun & HI' & Hlog & Hgl & Hkept).
  exists s'. split; [done|]. split; [done|]. split; [done|].
  split; [by exists G|done].
Qed.

(** [thmap_del] on a well-formed map, libc's [malloc] not failing,
    calls the allocator of the map not at all and links no node; every
    leaf and every key buffer of the memory is still there when it
    returns, the removed ones too: they are staged, not freed. *)
Theorem thmap_del_defers_free (s : st) (M : gmap (list Z) Z) (k n : Z) (kb : list Z) :
  malloc_total -> wf s M -> key_at (mem s) k n kb ->
  exists (D : nat) r s' evs,
    (forall fuel, (D <= fuel)%nat -> thmap_del fuel th k n s = Ok r s') /\
    log s' = log s ++ evs /\ allocs evs = [] /\ pubs evs = [] /\
    (forall x, leaf_at (mem s') x = leaf_at (mem s) x) /\
    (forall x, bytes_at (mem s') x = bytes_at (mem s) x).
Proof.
  intros Hmalloc Hwf Hk.
  destruct (wf_del s M k n kb Hmalloc Hwf Hk)
    as (D & r & s' & evs & Hrun & Hlog & [Hl Hb] & Hp & Ha & _).
  by exists D, r, s', evs.
Qed.

(** [thmap_put] on a well-formed map, whether it inserts, finds the
    key or runs out of memory, stages nothing for G/C and leaves the
    G/C list and every key buffer of the memory as they were; and the
    allocator is where the calls in the log take it. *)
Theorem thmap_put_keeps (s : st) (M : gmap (list Z) Z) (k n v : Z) (kb : list Z) :
  wf s M -> readable s k n kb ->
  (M !! kb = None -> forall kb', is_Some (M !! kb') -> kb' <> kb -> apart kb kb') ->
  exists (D : nat) r s' evs,
    (forall fuel, (D <= fuel)%nat -> thmap_put fuel th k n v s = Ok r s') /\
    log s' = log s ++ evs /\ stages evs = [] /\ gc_list s' = gc_list s /\
    (forall x bs, bytes_at (mem s) x = Some bs -> bytes_at (mem s') x = Some bs) /\
    alloc_trace (ast s) evs (ast s').
Proof.
  intros Hwf Hr Hap.
  destruct (wf_put s M k n v kb Hwf Hr Hap)
    as (D & r & s' & evs & Hrun & Hlog & Hgc & Hmk & Hst & _).
  exists D, r, s', evs. repeat (split; [done|]).
  destruct (traced_thmap_put D k n v s r s' (Hrun D (le_n D))) as (evs' & Hlog' & Htr).
  rewrite Hlog in Hlog'. apply app_inv_head in Hlog'. by subst evs'.
Qed.

(** [thmap_put] of a key that is not in a well-formed map, with an
    allocator that does not return zero for the next [K] requests,
    where [K] is at least [3 + Lb] and the key parts from every key of
    the map within [Lb] levels: the call returns the value, the map
    holds the key with the value besides what it held, and the call has
    asked for no more than [2 + Lb] blocks. *)
Theorem thmap_put_inserts (s : st) (M : gmap (list Z) Z) (k n v : Z) (kb : list Z)
    (Lb K : nat) :
  wf s M -> readable s k n kb -> M !! kb = None ->
  (forall kb', is_Some (M !! kb') -> kb' <> kb -> within Lb kb kb') ->
  Z.of_nat Lb < 2 ^ 32 -> supply K (ast s) -> (3 + Lb <= K)%nat ->
  exists (D : nat) s' evs,
    (forall fuel, (D <= fuel)%nat -> thmap_put fuel th k n v s = Ok v s') /\
    log s' = log s ++ evs /\ ~ alloc_failed evs /\
    wf s' (<[kb := v]> M) /\ supply (K - (2 + Lb)) (ast s').
Proof.
  intros Hwf Hr Hkb Hw HLb Hsup HK.
  destruct (wf_put_supplied s M k n v kb Lb K Hwf Hr Hkb Hw HLb Hsup HK)
    as (D & s' & evs & Hrun & Hlog & _ & _ & _ & Hnf & Hwf' & Hs').
  by exists D, s', evs.
Qed.

End Inv.

(** ** thmap_create *)

Lemma aligned_mod (p : Z) : THMAP_ALIGNED_P p = true <-> p mod 4 = 0.
Proof. unfold THMAP_ALIGNED_P. rewrite land_3_mod. apply Z.eqb_eq. Qed.

(** The map that [thmap_create] sets up with the root at offset [r],
    and the state it leaves. *)
Definition created_map (base fl : Z) (o : option thmap_ops_t) (p r : Z) : thmap_t :=
  {| baseptr := base; root := uptr (base + r); flags := fl;
     ops := match o with Some o => o | None => thmap_default_ops end;
     self := p |}.

Lemma thmap_create_run (base fl : Z) (o : option thmap_ops_t) (s : st) :
  let p := (malloc sizeof_thmap (ast s)).1 in
  let a1 := (malloc sizeof_thmap (ast s)).2 in
  let os := match o with Some o => o | None => thmap_default_ops end in
  let r := (alloc os THMAP_ROOT_LEN a1).1 in
  let a2 := (alloc os THMAP_ROOT_LEN a1).2 in
  thmap_create base o fl s =
    if negb (THMAP_ALIGNED_P base) then Ok None s
    else if p =? 0 then Ok None (mk_st (mem s) a1 (gc_list s) (log s))
    else if r =? 0
         then Ok None (mk_st (mem s) (c_free p a2) (gc_list s)
                         (log s ++ [EvAlloc THMAP_ROOT_LEN 0]))
         else Ok (Some (created_map base fl o p r))
                 (mk_st (<[uptr (base + r) := CInode (zero_inode ROOT_SIZE)]> (mem s))
                    a2 (gc_list s) (log s ++ [EvAlloc THMAP_ROOT_LEN r])).
Proof.
  intros p a1 os r a2. subst p a1 r a2. unfold thmap_create.
  destruct (THMAP_ALIGNED_P base); cbn [negb]; [|done].
  unfold sys_malloc at 1. unfold mbind at 1, M_bind at 1. fold os.
  destruct (malloc sizeof_thmap (ast s)) as [p a1]. unfold set_ast.
  cbn [fst snd mem ast gc_list log].
  destruct (p =? 0); [done|].
  rewrite (bind_run _ _ _ _ _ (ops_alloc_run _ _ _)). cbn [ops ast mem gc_list log].
  destruct (alloc os THMAP_ROOT_LEN a1) as [r a2]. cbn [fst snd].
  destruct (Z.eqb_spec r 0) as [->|Hr]; [done|].
  unfold THMAP_GETPTR. cbn [baseptr].
  erewrite bind_run; [|eapply init_cell_run; cbn [mem]; apply lookup_insert_eq].
  cbn [mem ast gc_list log]. by rewrite insert_insert_eq.
Qed.

(** C9: [thmap_create] returns NULL for a base address that is not
    aligned (its two low bits are not both zero), and then the state is
    what it was: nothing has been allocated.  When it returns a map, the
    base address is aligned, the map has the base address and the flags
    it was given, its root has 64 slots, all of them zero, the state
    word zero (so it is not locked and not deleted, and no slot is in
    use) and the parent zero; and the allocator of the map is the one
    given, or, when none is given, [malloc] and [free]. *)
Theorem thmap_create_spec (base fl : Z) (o : option thmap_ops_t) (s : st) :
  (THMAP_ALIGNED_P base = false -> thmap_create base o fl s = Ok None s) /\
  (forall th s', thmap_create base o fl s = Ok (Some th) s' ->
     THMAP_ALIGNED_P base = true /\ baseptr th = base /\ flags th = fl /\
     inode_at (mem s') (root th) = Some (mk_inode 0 0 (replicate 64 0)) /\
     node_locked_p (mk_inode 0 0 (replicate 64 0)) = false /\
     Z.land 0 NODE_DELETED = 0 /\ NODE_COUNT 0 = 0 /\
     ops th = match o with Some o => o | None => thmap_default_ops end).
Proof.
  rewrite thmap_create_run. split.
  - by intros ->.
  - intros th s'. destruct (THMAP_ALIGNED_P base); cbn [negb]; [|done].
    destruct (_ =? 0); [done|]. destruct (_ =? 0); [done|].
    intros [= <- <-]. cbn [created_map baseptr flags root ops mem].
    do 3 (split; [done|]). split; [apply inode_at_insert_eq|]. done.
Qed.

(** The map that [thmap_create] returns is well formed and empty. *)
Lemma create_wf (covers : covers_t) (base fl : Z) (o : option thmap_ops_t)
    (s s' : st) (th : thmap_t) :
  thmap_create base o fl s = Ok (Some th) s' ->
  0 <= base < 2 ^ 64 -> ops_laws base (ops th) covers ->
  covers (ast s) (dom (mem s)) -> gc_list s = [] ->
  wf th covers s' ∅ /\ mem_kept (mem s) (mem s') /\ gc_list s' = [] /\
  exists r, log s' = log s ++ [EvAlloc THMAP_ROOT_LEN r].
Proof.
  rewrite thmap_create_run.
  destruct (THMAP_ALIGNED_P base) eqn:Hal; cbn [negb]; [|done].
  destruct (_ =? 0); [done|].
  destruct (Z.eqb_spec (alloc match o with Some o0 => o0 | None => thmap_default_ops end
                          THMAP_ROOT_LEN (malloc sizeof_thmap (ast s)).2).1 0) as [|Hr]; [done|].
  intros [= <- <-] Hb Hlaws Hcov Hgc. cbn [created_map ops] in Hlaws.
  set (os := match o with Some o0 => o0 | None => thmap_default_ops end) in *.
  set (a1 := (malloc sizeof_thmap (ast s)).2) in *.
  destruct (law_alloc _ _ _ Hlaws a1 (dom (mem s)) THMAP_ROOT_LEN) as [[H0 _]|(Hoff & Hnz & Hfresh & Hc)].
  { by apply (law_malloc _ _ _ Hlaws). }
  { done. }
  set (r := (alloc os THMAP_ROOT_LEN a1).1) in *.
  set (p := (malloc sizeof_thmap (ast s)).1) in *.
  split; [|split; [|split; [done|by exists r]]].
  - exists (empty_ghost (created_map base fl o p r)). split; [|done].
    apply Inv_fresh; cbn [created_map baseptr root mem ast gc_list]; try done.
    + by apply aligned_mod.
    + apply (addr_ok_off (created_map base fl o p r) r Hoff). exact Hnz.
    + apply inode_at_insert_eq.
    + by rewrite dom_insert_L.
  - cbn [mem]. apply mem_kept_insert_fresh. by apply not_elem_of_dom.
Qed.

(** ** Further properties: creation, destruction, addresses and slots *)

(** The map that [thmap_create] returns, for an allocator that keeps
    its laws, is well formed and empty, with an empty G/C list:
    [thmap_get] of any key returns NULL. *)
Theorem thmap_create_empty (covers : covers_t) (base fl : Z) (o : option thmap_ops_t)
    (s s' : st) (th : thmap_t) :
  thmap_create base o fl s = Ok (Some th) s' ->
  0 <= base < 2 ^ 64 -> ops_laws base (ops th) covers ->
  covers (ast s) (dom (mem s)) -> gc_list s = [] ->
  wf th covers s' ∅ /\ gc_list s' = [] /\
  forall k n kb, key_at (mem s') k n kb ->
    exists D : nat, forall fuel, (D <= fuel)%nat -> thmap_get fuel th k n s' = Ok 0 s'.
Proof.
  intros Hc Hb Hlaws Hcov Hgc.
  destruct (create_wf covers base fl o s s' th Hc Hb Hlaws Hcov Hgc) as (Hwf & _ & Hgc' & _).
  split; [done|]. split; [done|]. intros k n kb Hk.
  destruct (wf_get th covers s' ∅ k n kb Hwf Hk) as [D HD].
  exists D. intros fuel Hf. by rewrite (HD fuel Hf), lookup_empty.
Qed.

(** [thmap_create] with an aligned base address returns NULL when
    [malloc] returns NULL for the map structure, or when the allocator
    returns zero for the root; the memory and the G/C list are then
    what they were, and in the second case the map structure has been
    given back to [free]. *)
Theorem thmap_create_no_memory (base fl : Z) (o : option thmap_ops_t) (s : st) :
  THMAP_ALIGNED_P base = true ->
  (malloc sizeof_thmap (ast s)).1 = 0 \/
  (alloc match o with Some o => o | None => thmap_default_ops end
     THMAP_ROOT_LEN (malloc sizeof_thmap (ast s)).2).1 = 0 ->
  exists s',
    thmap_create base o fl s = Ok None s' /\ mem s' = mem s /\ gc_list s' = gc_list s /\
    ((malloc sizeof_thmap (ast s)).1 <> 0 ->
     ast s' = c_free (malloc sizeof_thmap (ast s)).1
                (alloc match o with Some o => o | None => thmap_default_ops end
                   THMAP_ROOT_LEN (malloc sizeof_thmap (ast s)).2).2).
Proof.
  intros Hal Hz. rewrite thmap_create_run, Hal. cbn [negb].
  destruct (Z.eqb_spec (malloc sizeof_thmap (ast s)).1 0) as [Hp|Hp].
  - eexists. split; [reflexivity|]. done.
  - destruct Hz as [Hz|Hz]; [done|]. rewrite Hz. cbn [Z.eqb].
    eexists. split; [reflexivity|]. done.
Qed.

(** [thmap_destroy] of the map that [thmap_create] has just returned
    frees the root, at the offset and with the length it was allocated
    with, and the memory is what it was before the creation. *)
Theorem thmap_create_destroy (covers : covers_t) (base fl : Z) (o : option thmap_ops_t)
    (s s1 : st) (th : thmap_t) :
  thmap_create base o fl s = Ok (Some th) s1 ->
  ops_laws base (ops th) covers -> covers (ast s) (dom (mem s)) ->
  exists r s2,
    thmap_destroy th s1 = Ok tt s2 /\
    log s2 = log s ++ [EvAlloc THMAP_ROOT_LEN r; EvFree r THMAP_ROOT_LEN] /\
    mem s2 = mem s /\ gc_list s2 = gc_list s.
Proof.
  rewrite thmap_create_run.
  destruct (THMAP_ALIGNED_P base) eqn:Hal; cbn [negb]; [|done].
  destruct (_ =? 0); [done|].
  destruct (Z.eqb_spec (alloc match o with Some o0 => o0 | None => thmap_default_ops end
                          THMAP_ROOT_LEN (malloc sizeof_thmap (ast s)).2).1 0) as [|Hr]; [done|].
  intros [= <- <-] Hlaws Hcov. cbn [created_map ops] in Hlaws.
  set (os := match o with Some o0 => o0 | None => thmap_default_ops end) in *.
  set (a1 := (malloc sizeof_thmap (ast s)).2) in *.
  destruct (law_alloc _ _ _ Hlaws a1 (dom (mem s)) THMAP_ROOT_LEN)
    as [[H0 _]|(Hoff & Hnz & Hfresh & Hc)].
  { by apply (law_malloc _ _ _ Hlaws). }
  { done. }
  set (r := (alloc os THMAP_ROOT_LEN a1).1) in *.
  set (p := (malloc sizeof_thmap (ast s)).1) in *.
  assert (THMAP_GETOFF (created_map base fl o p r) (uptr (base + r)) = r) as Hgo.
  { apply (getoff_getptr (created_map base fl o p r) r). destruct Hoff. lia. }
  exists r. eexists. unfold thmap_destroy. cbn [root created_map self]. split.
  - fold (created_map base fl o p r). rewrite Hgo.
    unfold ops_free, mbind, M_bind. unfold THMAP_GETPTR. cbn [baseptr created_map mem].
    rewrite lookup_insert_eq. reflexivity.
  - cbn [mem ast gc_list log]. split; [by rewrite <- app_assoc|]. split; [|done].
    rewrite delete_insert_eq. apply delete_id. by apply not_elem_of_dom.
Qed.

(** Offsets and addresses: within the 64-bit word, [THMAP_GETOFF] and
    [THMAP_GETPTR] undo each other, whatever the base address is, the
    sum wrapping around or not. *)
Theorem getptr_getoff_roundtrip (th : thmap_t) (o p : Z) :
  0 <= o < 2 ^ 64 -> 0 <= p < 2 ^ 64 ->
  THMAP_GETOFF th (THMAP_GETPTR th o) = o /\ THMAP_GETPTR th (THMAP_GETOFF th p) = p.
Proof. intros Ho Hp. split; [by apply getoff_getptr|by apply getptr_getoff]. Qed.

(** [hashval_getslot], for a query that holds no hash word or the word
    of this key, returns a slot of the node at that level, below 64 at
    the root and below 16 further down, and a query of the same level;
    the state is what it was. *)
Theorem hashval_getslot_range (q : thmap_query_t) (k n : Z) (kb : list Z) (s : st) :
  key_at (mem s) k n kb ->
  hashidx q = -1 \/ hashval q = hash32 kb (hashidx q) ->
  exists sl q',
    hashval_getslot q k n s = Ok (sl, q') s /\
    0 <= sl < (if level q =? 0 then ROOT_SIZE else LEVEL_SIZE) /\
    level q' = level q.
Proof.
  intros Hk Hc. exists (kslot kb (level q)), (query_at kb (level q)).
  split; [by apply hashval_getslot_run|]. split; [apply kslot_range|done].
Qed.

End Thmap.

(** * A concrete map

    The theorems above hold for every hash function and every allocator
    that keeps the laws.  Here they are put to work on one of each:
    MurmurHash3 (x86, 32 bits), which is what thmap.c calls, and an
    allocator that hands out the offsets of a list, one after the
    other, and zero when the list is used up. *)

(** Modelled from the published algorithm: [murmurhash3] is declared in
    utils.h and defined in murmurhash.c, which are not among the
    sources. *)
Definition rotl32 (x r : Z) : Z := u32 (Z.lor (Z.shiftl x r) (Z.shiftr x (32 - r))).
Definition mm_k (k : Z) : Z := u32 (rotl32 (u32 (k * 3432918353)) 15 * 461845907).
Fixpoint mm_body (bs : list Z) (h : Z) : Z :=
  match bs with
  | b0 :: b1 :: b2 :: b3 :: rest =>
      let k := b0 + b1 * 256 + b2 * 65536 + b3 * 16777216 in
      mm_body rest (u32 (rotl32 (Z.lxor h (mm_k k)) 13 * 5 + 3864292196))
  | [] => h
  | b0 :: tl =>
      let k := b0 + nth 0 tl 0 * 256 + nth 1 tl 0 * 65536 in
      Z.lxor h (mm_k k)
  end.
Definition fmix32 (h : Z) : Z :=
  let h := Z.lxor h (Z.shiftr h 16) in
  let h := u32 (h * 2246822507) in
  let h := Z.lxor h (Z.shiftr h 13) in
  let h := u32 (h * 3266489909) in
  Z.lxor h (Z.shiftr h 16).
Definition murmur3_32 (bs : list Z) (seed : Z) : Z :=
  fmix32 (Z.lxor (mm_body bs (u32 seed)) (Z.of_nat (length bs))).

(** The allocator of the examples: its state is the list of the offsets
    that it is still to return. *)
Definition script_alloc (n : Z) (a : list Z) : Z * list Z :=
  match a with [] => (0, []) | x :: a' => (x, a') end.
Definition script_free (off n : Z) (a : list Z) : list Z := a.
Definition script_ops : thmap_ops_t (A := list Z) := mk_ops script_alloc script_free.

(** libc's [malloc] and [free] of the examples: the map structure and
    the G/C records are not on the heap of the model, so that one
    address does for all of them. *)
Definition lc_malloc (n : Z) (a : list Z) : Z * list Z := (8, a).
Definition lc_free (p : Z) (a : list Z) : list Z := a.

(** The offsets still to come are good ones, and none of them leads to
    an address in [U] or to the same address as another. *)
Fixpoint script_covers (base : Z) (a : list Z) (U : gset Z) : Prop :=
  match a with
  | [] => True
  | o :: a' =>
      (o = 0 /\ script_covers base a' U) \/
      (off_ok o /\ uptr (base + o) <> 0 /\ (uptr (base + o) ∉ U) /\
       script_covers base a' ({[uptr (base + o)]} ∪ U))
  end.

Lemma script_covers_mono (base : Z) (a : list Z) :
  forall U U', script_covers base a U -> U' ⊆ U -> script_covers base a U'.
Proof.
  induction a as [|o a IH]; intros U U' H Hsub; [done|].
  destruct H as [[-> H]|(Ho & Hnz & Hnin & H)].
  - left. split; [done|]. by eapply IH.
  - right. repeat (split; [done|]). split; [set_solver|].
    eapply IH; [exact H|set_solver].
Qed.

Lemma script_laws (base : Z) :
  ops_laws lc_malloc lc_free base script_ops (script_covers base).
Proof.
  split.
  - intros a U U'. apply script_covers_mono.
  - intros [|o a] U n H; cbn.
    + by left.
    + destruct H as [[-> H]|H]; [by left|by right].
  - done.
  - done.
  - done.
Qed.

Lemma lc_malloc_total : malloc_total lc_malloc.
Proof. intros n a. done. Qed.

(** The memory of the examples holds three key buffers: the one-byte
    keys "c" and "w", whose hashes agree in the six bits that choose the
    slot of the root and differ in the next four, and "hello". *)
Definition ex_mem : gmap Z cell :=
  <[1000 := CBytes [99]]> (<[2000 := CBytes [119]]>
    (<[3000 := CBytes [104; 101; 108; 108; 111]]> ∅)).
Definition ex_script : list Z :=
  [16; 32; 48; 64; 80; 96; 112; 128; 144; 160; 176; 192; 208; 224; 240; 256].
Definition ex_s0 : st := mk_st ex_mem ex_script [] [].

(** The value of the flag in thmap.h. *)
Definition ex_NOCOPY : Z := 1.

(** A map that copies the keys, and its state after [thmap_create]. *)
Definition ex_th : thmap_t := mk_thmap 0 16 0 script_ops 8.
Definition ex_s1 : st :=
  mk_st (<[16 := CInode (mk_inode 0 0 (replicate 64 0))]> ex_mem)
        [32; 48; 64; 80; 96; 112; 128; 144; 160; 176; 192; 208; 224; 240; 256] []
        [EvAlloc THMAP_ROOT_LEN 16].

(** A map that refers to the caller's keys. *)
Definition ex_nc : thmap_t := mk_thmap 0 16 ex_NOCOPY script_ops 8.

Lemma ex_created :
  thmap_create lc_malloc lc_free 0 (Some script_ops) 0 ex_s0 = Ok (Some ex_th) ex_s1.
Proof. vm_compute. reflexivity. Qed.

Lemma ex_created_nc :
  thmap_create lc_malloc lc_free 0 (Some script_ops) ex_NOCOPY ex_s0 = Ok (Some ex_nc) ex_s1.
Proof. vm_compute. reflexivity. Qed.

Lemma ex_covers : script_covers 0 (ast ex_s0) (dom (mem ex_s0)).
Proof.
  cbn [ast mem ex_s0 ex_script script_covers].
  repeat (right; split; [split; [lia|reflexivity]|]; split; [done|];
          split; [vm_compute; intros H; discriminate H|]).
  exact I.
Qed.

Lemma ex_wf1 : wf murmur3_32 ex_NOCOPY ex_th (script_covers 0) ex_s1 ∅.
Proof.
  apply (create_wf murmur3_32 lc_malloc lc_free ex_NOCOPY (script_covers 0)
           0 0 (Some script_ops) ex_s0 ex_s1 ex_th ex_created);
    [lia|apply script_laws|apply ex_covers|reflexivity].
Qed.

Lemma ex_wf1_nc : wf murmur3_32 ex_NOCOPY ex_nc (script_covers 0) ex_s1 ∅.
Proof.
  apply (create_wf murmur3_32 lc_malloc lc_free ex_NOCOPY (script_covers 0)
           0 ex_NOCOPY (Some script_ops) ex_s0 ex_s1 ex_nc ex_created_nc);
    [lia|apply script_laws|apply ex_covers|reflexivity].
Qed.

(** Whether a call of the allocator in the list returned zero, as a
    test. *)
Definition alloc_failedb (evs : list event) : bool :=
  existsb (fun e => match e with EvAlloc _ 0 => true | _ => false end) evs.

Lemma alloc_failedb_spec (evs : list event) :
  alloc_failed evs <-> alloc_failedb evs = true.
Proof.
  unfold alloc_failed, alloc_failedb. rewrite existsb_exists. split.
  - intros [n Hn]. exists (EvAlloc n 0). split; [by apply list_elem_of_In|done].
  - intros (e & He & Hz). destruct e as [n [| |]| | | | | | | |]; try done.
    exists n. by apply list_elem_of_In.
Qed.

(** The run of a loop with fuel to spare is its run with any fuel that
    is enough. *)
Lemma run_agree {X : Type} (run : nat -> result (st (A := list Z)) X) (D : nat) r s r' s' :
  (forall fuel, (D <= fuel)%nat -> run fuel = Ok r s) ->
  (forall f, run (20 + f)%nat = Ok r' s') ->
  r = r' /\ s = s'.
Proof.
  intros H1 H2. specialize (H1 (20 + D)%nat ltac:(lia)). rewrite H2 in H1.
  by simplify_eq.
Qed.

Ltac ex_key bs :=
  exists bs; split; [vm_compute; reflexivity|split; [simpl; lia|reflexivity]].
Ltac ex_readable bs :=
  split; [ex_key bs|
          first [intros Hnc; vm_compute in Hnc; discriminate Hnc
                |intros _; split; [lia|ex_key bs]]].
Ltac ex_apart L :=
  exists L; split; [simpl; lia|vm_compute; intros Hsl; discriminate Hsl].
Ltac ex_no_failure Hlog :=
  let Hf := fresh "Hf" in
  intros Hf; vm_compute in Hlog; simplify_eq;
  apply alloc_failedb_spec in Hf; vm_compute in Hf; discriminate Hf.

(** ** The states of the examples *)

(** The copying map after the insertion of "c" with the value 77. *)
Definition ex_s2 : st :=
  match thmap_put murmur3_32 ex_NOCOPY 20 ex_th 1000 1 77 ex_s1 with
  | Ok _ s => s
  | _ => ex_s1
  end.

Lemma ex_put_c (f : nat) :
  thmap_put murmur3_32 ex_NOCOPY (20 + f) ex_th 1000 1 77 ex_s1 = Ok 77 ex_s2.
Proof. vm_compute. reflexivity. Qed.

Lemma ex_wf2 : wf murmur3_32 ex_NOCOPY ex_th (script_covers 0) ex_s2 (<[ [99] := 77 ]> ∅).
Proof.
  destruct (wf_put murmur3_32 lc_malloc lc_free ex_NOCOPY ex_th (script_covers 0)
              (script_laws 0) ex_s1 ∅ 1000 1 77 [99] ex_wf1)
    as (D & r & s' & evs & Hrun & Hlog & _ & _ & _ & _ & Hok).
  { ex_readable [99]. }
  { intros _ kb' [x Hx]. by rewrite lookup_empty in Hx. }
  destruct (run_agree _ _ _ _ _ _ Hrun ex_put_c) as [-> ->].
  destruct Hok as [_ Hwf]; [ex_no_failure Hlog|].
  by rewrite lookup_empty in Hwf.
Qed.

(** C7, an instance: the slot of the key "c" at level 1. *)
Lemma hashval_getslot_refines_spec_witness :
  hashval_getslot murmur3_32 (THMAP_QUERY_INIT 1) 1000 1 ex_s0 =
    Ok (spec_getslot murmur3_32 (THMAP_QUERY_INIT 1) [99]) ex_s0.
Proof.
  apply (hashval_getslot_refines_spec murmur3_32 lc_malloc lc_free).
  - simpl. lia.
  - simpl. lia.
  - ex_key [99].
Defined.

(** C7 as the spec has it fails at level [2^30 - 1]: there [6 + 4 *
    level] is [2^32 + 2], which the [unsigned] of the code holds as 2.
    The code takes the hash word of index 0 and finds slot 5; the
    algorithm of the spec takes the word of index [2^27] and finds
    slot 8. *)
Lemma hashval_getslot_wraps :
  hashval_getslot murmur3_32 (THMAP_QUERY_INIT (2 ^ 30 - 1)) 1000 1 ex_s0 =
    Ok (5, mk_query (2 ^ 30 - 1) 0 3778205279) ex_s0 /\
  spec_getslot murmur3_32 (THMAP_QUERY_INIT (2 ^ 30 - 1)) [99] =
    (8, mk_query (2 ^ 30 - 1) 134217728 3941413505).
Proof. split; vm_compute; reflexivity. Qed.

(** C1, an instance: "c" is in the map with the value 77, and is put
    again with the value 88. *)
Lemma thmap_put_present_returns_argument_witness :
  exists (D : nat) r s' evs,
    (forall fuel, (D <= fuel)%nat ->
       thmap_put murmur3_32 ex_NOCOPY fuel ex_th 1000 1 88 ex_s2 = Ok r s') /\
    log s' = log ex_s2 ++ evs /\
    wf murmur3_32 ex_NOCOPY ex_th (script_covers 0) s' (<[ [99] := 77 ]> ∅) /\
    (alloc_failed evs /\ r = 0 \/ ~ alloc_failed evs /\ r = 88).
Proof.
  apply (thmap_put_present_returns_argument murmur3_32 lc_malloc lc_free ex_NOCOPY
           ex_th (script_covers 0) (script_laws 0) ex_s2 _ 1000 1 88 77 [99]).
  - exact ex_wf2.
  - apply lookup_insert_eq.
  - ex_readable [99].
Defined.

Ltac ex_within L :=
  exists L; split; [lia|vm_compute; intros Hsl; discriminate Hsl].
Ltac ex_supply :=
  vm_compute; repeat (intros _; split; [intros Hz; discriminate Hz|]); exact I.





(** The copying map after the insertion of "c" and then of "w", which
    meets "c" in slot 31 of the root, and after the removal of "w". *)
Definition ex_s3 : st :=
  match thmap_put murmur3_32 ex_NOCOPY 20 ex_th 2000 1 88 ex_s2 with
  | Ok _ s => s
  | _ => ex_s2
  end.
Definition ex_s4 : st :=
  match thmap_del murmur3_32 lc_malloc ex_NOCOPY 20 ex_th 2000 1 ex_s3 with
  | Ok _ s => s
  | _ => ex_s3
  end.

Lemma ex_put_w (f : nat) :
  thmap_put murmur3_32 ex_NOCOPY (20 + f) ex_th 2000 1 88 ex_s2 = Ok 88 ex_s3.
Proof. vm_compute. reflexivity. Qed.

Lemma ex_del_w (f : nat) :
  thmap_del murmur3_32 lc_malloc ex_NOCOPY (20 + f) ex_th 2000 1 ex_s3 = Ok 88 ex_s4.
Proof. vm_compute. reflexivity. Qed.

Lemma ex_wf3 :
  wf murmur3_32 ex_NOCOPY ex_th (script_covers 0) ex_s3
     (<[ [119] := 88 ]> (<[ [99] := 77 ]> ∅)).
Proof.
  destruct (wf_put murmur3_32 lc_malloc lc_free ex_NOCOPY ex_th (script_covers 0)
              (script_laws 0) ex_s2 _ 2000 1 88 [119] ex_wf2)
    as (D & r & s' & evs & Hrun & Hlog & _ & _ & _ & _ & Hok).
  { ex_readable [119]. }
  { intros _ kb' [x Hx] Hne.
    apply lookup_insert_Some in Hx as [[<- _]|[_ Hx]]; [|by rewrite lookup_empty in Hx].
    ex_apart 1%nat. }
  destruct (run_agree _ _ _ _ _ _ Hrun ex_put_w) as [-> ->].
  destruct Hok as [_ Hwf]; [ex_no_failure Hlog|].
  by rewrite lookup_insert_ne, lookup_empty in Hwf.
Qed.

Lemma ex_wf4 :
  wf murmur3_32 ex_NOCOPY ex_th (script_covers 0) ex_s4
     (delete [119] (<[ [119] := 88 ]> (<[ [99] := 77 ]> ∅))).
Proof.
  destruct (wf_del murmur3_32 lc_malloc lc_free ex_NOCOPY ex_th (script_covers 0)
              (script_laws 0) ex_s3 _ 2000 1 [119] lc_malloc_total ex_wf3)
    as (D & r & s' & evs & Hrun & _ & _ & _ & _ & _ & Hwf).
  { ex_key [119]. }
  by destruct (run_agree _ _ _ _ _ _ Hrun ex_del_w) as [-> ->].
Qed.




(** C5, an instance: "c" is removed from the map in which it sits
    alone in a node of level 1, so that the node is contracted. *)
Lemma thmap_del_contraction_order_witness :
  exists (D : nat) s' e a ups,
    (forall fuel, (D <= fuel)%nat ->
       thmap_del murmur3_32 lc_malloc ex_NOCOPY fuel ex_th 1000 1 ex_s4 = Ok 77 s') /\
    log s' = log ex_s4 ++ del_events murmur3_32 ex_NOCOPY ex_th [99] e 1 a ups /\
    (forall c st, EvDeleted c st ∈ del_events murmur3_32 ex_NOCOPY ex_th [99] e 1 a ups ->
       st = NODE_LOCKED /\ node_locked_p (mk_inode st 0 []) = true /\ NODE_COUNT st = 0).
Proof.
  apply (thmap_del_contraction_order murmur3_32 lc_malloc lc_free ex_NOCOPY ex_th
           (script_covers 0) (script_laws 0) ex_s4
           (delete [119] (<[ [119] := 88 ]> (<[ [99] := 77 ]> ∅))) 1000 1 77 [99]).
  - exact lc_malloc_total.
  - exact ex_wf4.
  - ex_key [99].
  - rewrite lookup_delete_ne, lookup_insert_ne by done. apply lookup_insert_eq.
Defined.

(** A map for the keys "be" and "bl", which meet in slot 2 of the
    root and in slot 5 at level 1, and part at level 2.  Its allocator
    returns zero at the seventh call. *)
Definition ex_memf : gmap Z cell :=
  <[4000 := CBytes [98; 101]]> (<[5000 := CBytes [98; 108]]> ∅).
Definition ex_f0 : st (A := list Z) :=
  mk_st ex_memf [16; 32; 48; 64; 80; 96; 0; 112; 128] [] [].
Definition ex_f1 : st (A := list Z) :=
  mk_st (<[16 := CInode (mk_inode 0 0 (replicate 64 0))]> ex_memf)
        [32; 48; 64; 80; 96; 0; 112; 128] [] [EvAlloc THMAP_ROOT_LEN 16].

Lemma ex_created_f :
  thmap_create lc_malloc lc_free 0 (Some script_ops) 0 ex_f0 = Ok (Some ex_th) ex_f1.
Proof. vm_compute. reflexivity. Qed.

Lemma ex_wf_f1 : wf murmur3_32 ex_NOCOPY ex_th (script_covers 0) ex_f1 ∅.
Proof.
  apply (create_wf murmur3_32 lc_malloc lc_free ex_NOCOPY (script_covers 0)
           0 0 (Some script_ops) ex_f0 ex_f1 ex_th ex_created_f);
    [lia|apply script_laws| |reflexivity].
  cbn [ast mem ex_f0 script_covers].
  repeat first
    [ right; split; [split; [lia|reflexivity]|]; split; [done|];
      split; [vm_compute; intros H; discriminate H|]
    | left; split; [reflexivity|] ].
  exact I.
Qed.

(** The same map after the insertion of "be", and after the attempt to
    insert "bl". *)
Definition ex_f2 : st :=
  match thmap_put murmur3_32 ex_NOCOPY 20 ex_th 4000 2 11 ex_f1 with
  | Ok _ s => s
  | _ => ex_f1
  end.
Definition ex_f3 : st :=
  match thmap_put murmur3_32 ex_NOCOPY 20 ex_th 5000 2 22 ex_f2 with
  | Ok _ s => s
  | _ => ex_f2
  end.

Lemma ex_put_be (f : nat) :
  thmap_put murmur3_32 ex_NOCOPY (20 + f) ex_th 4000 2 11 ex_f1 = Ok 11 ex_f2.
Proof. vm_compute. reflexivity. Qed.

Lemma ex_put_bl (f : nat) :
  thmap_put murmur3_32 ex_NOCOPY (20 + f) ex_th 5000 2 22 ex_f2 = Ok 0 ex_f3.
Proof. vm_compute. reflexivity. Qed.

Lemma ex_wf_f2 :
  wf murmur3_32 ex_NOCOPY ex_th (script_covers 0) ex_f2 (<[ [98; 101] := 11 ]> ∅).
Proof.
  destruct (wf_put murmur3_32 lc_malloc lc_free ex_NOCOPY ex_th (script_covers 0)
              (script_laws 0) ex_f1 ∅ 4000 2 11 [98; 101] ex_wf_f1)
    as (D & r & s' & evs & Hrun & Hlog & _ & _ & _ & _ & Hok).
  { ex_readable [98; 101]. }
  { intros _ kb' [x Hx]. by rewrite lookup_empty in Hx. }
  destruct (run_agree _ _ _ _ _ _ Hrun ex_put_be) as [-> ->].
  destruct Hok as [_ Hwf]; [ex_no_failure Hlog|].
  by rewrite lookup_empty in Hwf.
Qed.

(** The map that refers to the keys, after the insertion of "c". *)
Definition ex_n2 : st :=
  match thmap_put murmur3_32 ex_NOCOPY 20 ex_nc 1000 1 77 ex_s1 with
  | Ok _ s => s
  | _ => ex_s1
  end.

(** The copying map after "c" has been put a second time, with the
    value 88. *)
Definition ex_s2' : st :=
  match thmap_put murmur3_32 ex_NOCOPY 20 ex_th 1000 1 88 ex_s2 with
  | Ok _ s => s
  | _ => ex_s2
  end.

(** C1, the run: "c" is put with 77 and then with 88.  The second call
    returns 88; the entry still holds 77. *)
Lemma thmap_put_present_example :
  thmap_put murmur3_32 ex_NOCOPY 20 ex_th 1000 1 77 ex_s1 = Ok 77 ex_s2 /\
  thmap_put murmur3_32 ex_NOCOPY 20 ex_th 1000 1 88 ex_s2 = Ok 88 ex_s2' /\
  thmap_get murmur3_32 20 ex_th 1000 1 ex_s2' = Ok 77 ex_s2'.
Proof. split; [|split]; vm_compute; reflexivity. Qed.

(** C6, an instance: "bl" is put into the map that holds "be".  The
    leaf, the copy of the key and a first node are allocated; the
    allocation of the second node fails. *)
Lemma thmap_put_alloc_failure_witness :
  exists (D : nat) evs,
    (forall fuel, (D <= fuel)%nat ->
       thmap_put murmur3_32 ex_NOCOPY fuel ex_th 5000 2 22 ex_f2 = Ok 0 ex_f3) /\
    log ex_f3 = log ex_f2 ++ evs /\
    alloc_failed evs /\
    wf murmur3_32 ex_NOCOPY ex_th (script_covers 0) ex_f3 (<[ [98; 101] := 11 ]> ∅) /\
    (forall len off, EvAlloc len off ∈ evs -> off <> 0 ->
       EvFree off len ∈ evs \/ off ∈ pubs evs).
Proof.
  destruct (thmap_put_alloc_failure murmur3_32 lc_malloc lc_free ex_NOCOPY ex_th
              (script_covers 0) (script_laws 0) ex_f2 (<[ [98; 101] := 11 ]> ∅)
              5000 2 22 [98; 108] ex_wf_f2)
    as (D & r & s' & evs & Hrun & Hlog & _ & Himp).
  { ex_readable [98; 108]. }
  { intros _ kb' [x Hx] Hne.
    apply lookup_insert_Some in Hx as [[<- _]|[_ Hx]]; [|by rewrite lookup_empty in Hx].
    ex_apart 2%nat. }
  destruct (run_agree _ _ _ _ _ _ Hrun ex_put_bl) as [-> ->].
  assert (alloc_failed evs) as Hf.
  { vm_compute in Hlog. simplify_eq. apply alloc_failedb_spec. vm_compute. reflexivity. }
  destruct (Himp Hf) as (_ & Hwf & Hfreed).
  exists D, evs. split; [exact Hrun|]. split; [exact Hlog|]. split; [exact Hf|].
  split; [exact Hwf|exact Hfreed].
Defined.

(** C6 as the spec has it fails when the allocator gives out after the
    tree has begun to grow.  The call returns NULL and has freed the
    leaf and the copy of the key, but the node of 144 bytes at offset
    96 is not freed: slot 2 of the root, which held the leaf of "be",
    now leads to that node, and the leaf of "be" is in its slot 5. *)
Lemma thmap_put_failure_keeps_node :
  thmap_put murmur3_32 ex_NOCOPY 20 ex_th 5000 2 22 ex_f2 = Ok 0 ex_f3 /\
  allocs (drop (length (log ex_f2)) (log ex_f3)) =
    [EvAlloc 24 64; EvAlloc 2 80; EvAlloc 144 96; EvAlloc 144 0;
     EvFree 80 2; EvFree 64 24] /\
  (inode_at (mem ex_f2) 16 ≫= fun n => slots n !! 2%nat) = Some 33 /\
  (inode_at (mem ex_f3) 16 ≫= fun n => slots n !! 2%nat) = Some 96 /\
  (inode_at (mem ex_f3) 96 ≫= fun n => slots n !! 5%nat) = Some 33.
Proof. split; [|split; [|split; [|split]]]; vm_compute; reflexivity. Qed.

(** C8, an instance: "w" is put into the map that holds "c", removed,
    and the G/C is run.  The keys part at level 1, and the allocator
    has four blocks and more. *)
Lemma put_del_gc_traffic_witness :
  exists (D : nat) s1 s2 s3 evs lo ko,
    (forall fuel, (D <= fuel)%nat ->
       thmap_put murmur3_32 ex_NOCOPY fuel ex_th 2000 1 88 ex_s2 = Ok 88 s1 /\
       thmap_del murmur3_32 lc_malloc ex_NOCOPY fuel ex_th 2000 1 s1 = Ok 88 s2) /\
    thmap_gc lc_free ex_th s2 = Ok tt s3 /\
    log s3 = log ex_s2 ++ evs /\
    wf murmur3_32 ex_NOCOPY ex_th (script_covers 0) s3 (<[ [99] := 77 ]> ∅) /\
    ~ alloc_failed evs /\
    allocs evs =
      leaf_create_events ex_NOCOPY ex_th 1 lo ko ++
      map (EvAlloc THMAP_INODE_LEN) (pubs evs) ++
      EvFree lo sizeof_leaf :: (if nocopy ex_NOCOPY ex_th then [] else [EvFree ko 1]).
Proof.
  apply (put_del_gc_traffic murmur3_32 lc_malloc lc_free ex_NOCOPY ex_th
           (script_covers 0) (script_laws 0) ex_s2 (<[ [99] := 77 ]> ∅)
           2000 1 88 [119] 1%nat).
  - exact lc_malloc_total.
  - exact ex_wf2.
  - vm_compute. reflexivity.
  - by rewrite lookup_insert_ne, lookup_empty.
  - ex_readable [119].
  - intros kb' [x Hx] Hne.
    apply lookup_insert_Some in Hx as [[<- _]|[_ Hx]]; [|by rewrite lookup_empty in Hx].
    ex_within 1%nat.
  - simpl. lia.
  - ex_supply.
Defined.

(** The copying map that holds "c", after "w" has been put and removed
    and the G/C has run. *)
Definition ex_s5 : st :=
  match thmap_gc lc_free ex_th ex_s4 with
  | Ok _ s => s
  | _ => ex_s4
  end.

(** C8 as the spec has it fails when the insertion expands the tree:
    "w" is put into the map that holds "c", removed, and the G/C is
    run.  The node of 144 bytes at offset 96, which the insertion
    allocated, is not freed: it holds "c". *)
Lemma put_del_gc_keeps_node :
  thmap_put murmur3_32 ex_NOCOPY 20 ex_th 2000 1 88 ex_s2 = Ok 88 ex_s3 /\
  thmap_del murmur3_32 lc_malloc ex_NOCOPY 20 ex_th 2000 1 ex_s3 = Ok 88 ex_s4 /\
  thmap_gc lc_free ex_th ex_s4 = Ok tt ex_s5 /\
  allocs (drop (length (log ex_s2)) (log ex_s5)) =
    [EvAlloc 24 64; EvAlloc 1 80; EvAlloc 144 96; EvFree 64 24; EvFree 80 1].
Proof. split; [|split; [|split]]; vm_compute; reflexivity. Qed.

(** C10, an instance: "c" is put into the empty map that refers to the
    keys. *)
Lemma nocopy_put_get_del_witness :
  exists (D : nat) r1 s1 evs1,
    (forall fuel, (D <= fuel)%nat ->
       thmap_put murmur3_32 ex_NOCOPY fuel ex_nc 1000 1 77 ex_s1 = Ok r1 s1) /\
    log s1 = log ex_s1 ++ evs1 /\
    (~ alloc_failed evs1 ->
       r1 = 77 /\
       exists lo, lo <> 0 /\
         allocs evs1 = EvAlloc sizeof_leaf lo :: map (EvAlloc THMAP_INODE_LEN) (pubs evs1) /\
         leaf_at (mem s1) (THMAP_GETPTR ex_nc lo) = Some (mk_leaf 1000 1 77) /\
         (exists D' : nat, forall fuel, (D' <= fuel)%nat ->
            thmap_get murmur3_32 fuel ex_nc 1000 1 s1 = Ok 77 s1) /\
         exists (D2 : nat) s2 evs2,
           (forall fuel, (D2 <= fuel)%nat ->
              thmap_del murmur3_32 lc_malloc ex_NOCOPY fuel ex_nc 1000 1 s1 = Ok 77 s2) /\
           log s2 = log s1 ++ evs2 /\
           stages evs2 = [(lo, sizeof_leaf)]).
Proof.
  apply (nocopy_put_get_del murmur3_32 lc_malloc lc_free ex_NOCOPY ex_nc
           (script_covers 0) (script_laws 0) ex_s1 ∅ 1000 1 77 [99]).
  - exact lc_malloc_total.
  - reflexivity.
  - reflexivity.
  - exact ex_wf1_nc.
  - apply lookup_empty.
  - ex_key [99].
  - lia.
  - intros kb' [x Hx]. by rewrite lookup_empty in Hx.
Defined.

(** The same map after the insertion of "w". *)
Definition ex_n3 : st :=
  match thmap_put murmur3_32 ex_NOCOPY 20 ex_nc 2000 1 88 ex_n2 with
  | Ok _ s => s
  | _ => ex_n2
  end.

(** C10 as the spec has it fails when the insertion expands the tree:
    "w" is put into the map that refers to the keys and holds "c".  The
    call allocates the leaf and a node. *)
Lemma nocopy_put_two_allocations :
  thmap_put murmur3_32 ex_NOCOPY 20 ex_nc 2000 1 88 ex_n2 = Ok 88 ex_n3 /\
  allocs (drop (length (log ex_n2)) (log ex_n3)) = [EvAlloc 24 48; EvAlloc 144 64].
Proof. split; vm_compute; reflexivity. Qed.

(** A map that refers to the keys and has the base address 4096.  The
    memory holds "c" at 1000, and "w" at 4096 + 1000. *)
Definition ex_p0 : st := mk_st (<[5096 := CBytes [119]]> ex_mem) ex_script [] [].
Definition ex_p : thmap_t := mk_thmap 4096 4112 ex_NOCOPY script_ops 8.
Definition ex_p1 : st :=
  mk_st (<[4112 := CInode (mk_inode 0 0 (replicate 64 0))]> (mem ex_p0))
        [32; 48; 64; 80; 96; 112; 128; 144; 160; 176; 192; 208; 224; 240; 256] []
        [EvAlloc THMAP_ROOT_LEN 16].


Lemma ex_created_p :
  thmap_create lc_malloc lc_free 4096 (Some script_ops) ex_NOCOPY ex_p0 =
    Ok (Some ex_p) ex_p1.
Proof. vm_compute. reflexivity. Qed.



(** ** Instances of the further properties *)

(** "w" is looked up in the map that holds "c" and "w". *)
Lemma thmap_get_spec_witness :
  exists D : nat, forall fuel, (D <= fuel)%nat ->
    thmap_get murmur3_32 fuel ex_th 2000 1 ex_s3 =
      Ok (default 0 ((<[ [119] := 88 ]> (<[ [99] := 77 ]> ∅) : gmap (list Z) Z) !! [119]))
         ex_s3.
Proof.
  apply (thmap_get_spec murmur3_32 lc_malloc lc_free ex_NOCOPY ex_th (script_covers 0)
           ex_s3 _ 2000 1 [119]).
  - exact ex_wf3.
  - ex_key [119].
Defined.

(** The G/C runs after "w" has been removed: its leaf and the copy of
    its key are on the list. *)
Lemma thmap_gc_spec_witness :
  exists s',
    thmap_gc lc_free ex_th ex_s4 = Ok tt s' /\
    log s' = log ex_s4 ++ map (fun g => EvFree (addr g) (gc_len g)) (gc_list ex_s4) /\
    gc_list s' = [] /\
    wf murmur3_32 ex_NOCOPY ex_th (script_covers 0) s'
       (delete [119] (<[ [119] := 88 ]> (<[ [99] := 77 ]> ∅))) /\
    (forall x c, mem ex_s4 !! x = Some c ->
       (forall g, g ∈ gc_list ex_s4 -> x <> THMAP_GETPTR ex_th (addr g)) ->
       mem s' !! x = Some c).
Proof.
  apply (thmap_gc_spec murmur3_32 lc_malloc lc_free ex_NOCOPY ex_th (script_covers 0)
           (script_laws 0) ex_s4 _).
  exact ex_wf4.
Defined.

(** "w" is removed from the map that holds "c" and "w". *)
Lemma thmap_del_defers_free_witness :
  exists (D : nat) r s' evs,
    (forall fuel, (D <= fuel)%nat ->
       thmap_del murmur3_32 lc_malloc ex_NOCOPY fuel ex_th 2000 1 ex_s3 = Ok r s') /\
    log s' = log ex_s3 ++ evs /\ allocs evs = [] /\ pubs evs = [] /\
    (forall x, leaf_at (mem s') x = leaf_at (mem ex_s3) x) /\
    (forall x, bytes_at (mem s') x = bytes_at (mem ex_s3) x).
Proof.
  apply (thmap_del_defers_free murmur3_32 lc_malloc lc_free ex_NOCOPY ex_th
           (script_covers 0) (script_laws 0) ex_s3
           (<[ [119] := 88 ]> (<[ [99] := 77 ]> ∅)) 2000 1 [119]).
  - exact lc_malloc_total.
  - exact ex_wf3.
  - ex_key [119].
Defined.

(** "w" is put into the map that holds "c". *)
Lemma thmap_put_keeps_witness :
  exists (D : nat) r s' evs,
    (forall fuel, (D <= fuel)%nat ->
       thmap_put murmur3_32 ex_NOCOPY fuel ex_th 2000 1 88 ex_s2 = Ok r s') /\
    log s' = log ex_s2 ++ evs /\ stages evs = [] /\ gc_list s' = gc_list ex_s2 /\
    (forall x bs, bytes_at (mem ex_s2) x = Some bs -> bytes_at (mem s') x = Some bs) /\
    alloc_trace ex_th (ast ex_s2) evs (ast s').
Proof.
  apply (thmap_put_keeps murmur3_32 lc_malloc lc_free ex_NOCOPY ex_th
           (script_covers 0) (script_laws 0) ex_s2 (<[ [99] := 77 ]> ∅) 2000 1 88 [119]).
  - exact ex_wf2.
  - ex_readable [119].
  - intros _ kb' [x Hx] Hne.
    apply lookup_insert_Some in Hx as [[<- _]|[_ Hx]]; [|by rewrite lookup_empty in Hx].
    ex_apart 1%nat.
Defined.

Lemma thmap_put_inserts_witness :
  exists (D : nat) s' evs,
    (forall fuel, (D <= fuel)%nat ->
       thmap_put murmur3_32 ex_NOCOPY fuel ex_th 2000 1 88 ex_s2 = Ok 88 s') /\
    log s' = log ex_s2 ++ evs /\ ~ alloc_failed evs /\
    wf murmur3_32 ex_NOCOPY ex_th (script_covers 0) s'
       (<[ [119] := 88 ]> (<[ [99] := 77 ]> ∅)) /\
    supply ex_th (4 - (2 + 1)) (ast s').
Proof.
  apply (thmap_put_inserts murmur3_32 lc_malloc lc_free ex_NOCOPY ex_th
           (script_covers 0) (script_laws 0) ex_s2 (<[ [99] := 77 ]> ∅)
           2000 1 88 [119] 1%nat 4%nat).
  - exact ex_wf2.
  - ex_readable [119].
  - by rewrite lookup_insert_ne, lookup_empty.
  - intros kb' [x Hx] Hne.
    apply lookup_insert_Some in Hx as [[<- _]|[_ Hx]]; [|by rewrite lookup_empty in Hx].
    ex_within 1%nat.
  - simpl. lia.
  - ex_supply.
  - lia.
Defined.

(** The map of the examples, as created. *)
Lemma thmap_create_empty_witness :
  wf murmur3_32 ex_NOCOPY ex_th (script_covers 0) ex_s1 ∅ /\ gc_list ex_s1 = [] /\
  forall k n kb, key_at (mem ex_s1) k n kb ->
    exists D : nat, forall fuel, (D <= fuel)%nat ->
      thmap_get murmur3_32 fuel ex_th k n ex_s1 = Ok 0 ex_s1.
Proof.
  apply (thmap_create_empty murmur3_32 lc_malloc lc_free ex_NOCOPY (script_covers 0)
           0 0 (Some script_ops) ex_s0 ex_s1 ex_th).
  - exact ex_created.
  - lia.
  - apply script_laws.
  - exact ex_covers.
  - reflexivity.
Defined.

(** A creation with an allocator that has nothing to give. *)
Definition ex_e0 : st (A := list Z) := mk_st ex_mem [] [] [].

Lemma thmap_create_no_memory_witness :
  exists s',
    thmap_create lc_malloc lc_free 0 (Some script_ops) 0 ex_e0 = Ok None s' /\
    mem s' = mem ex_e0 /\ gc_list s' = gc_list ex_e0 /\
    ((lc_malloc sizeof_thmap (ast ex_e0)).1 <> 0 ->
     ast s' = lc_free (lc_malloc sizeof_thmap (ast ex_e0)).1
                (alloc script_ops THMAP_ROOT_LEN (lc_malloc sizeof_thmap (ast ex_e0)).2).2).
Proof.
  apply (thmap_create_no_memory lc_malloc lc_free 0 0 (Some script_ops) ex_e0).
  - reflexivity.
  - right. reflexivity.
Defined.

Lemma thmap_create_destroy_witness :
  exists r s2,
    thmap_destroy lc_free ex_th ex_s1 = Ok tt s2 /\
    log s2 = log ex_s0 ++ [EvAlloc THMAP_ROOT_LEN r; EvFree r THMAP_ROOT_LEN] /\
    mem s2 = mem ex_s0 /\ gc_list s2 = gc_list ex_s0.
Proof.
  apply (thmap_create_destroy lc_malloc lc_free (script_covers 0) 0 0 (Some script_ops)
           ex_s0 ex_s1 ex_th).
  - exact ex_created.
  - apply script_laws.
  - exact ex_covers.
Defined.

(** With the base address 4096, the offset [2^64 - 8] is at the address
    4088: the sum wraps around. *)
Lemma getptr_getoff_roundtrip_witness :
  THMAP_GETOFF ex_p (THMAP_GETPTR ex_p (2 ^ 64 - 8)) = 2 ^ 64 - 8 /\
  THMAP_GETPTR ex_p (THMAP_GETOFF ex_p 100) = 100.
Proof. apply (getptr_getoff_roundtrip ex_p (2 ^ 64 - 8) 100); lia. Defined.

(** The slot of "c" at level 3, from a query that holds nothing. *)
Lemma hashval_getslot_range_witness :
  exists sl q',
    hashval_getslot murmur3_32 (THMAP_QUERY_INIT 3) 1000 1 ex_s0 = Ok (sl, q') ex_s0 /\
    0 <= sl < (if level (THMAP_QUERY_INIT 3) =? 0 then ROOT_SIZE else LEVEL_SIZE) /\
    level q' = level (THMAP_QUERY_INIT 3).
Proof.
  apply (hashval_getslot_range murmur3_32 (THMAP_QUERY_INIT 3) 1000 1 [99] ex_s0).
  - ex_key [99].
  - by left.
Defined.
